(** * fledge-south-playback: the playback south plugin, embedded and verified

    A shallow embedding of
    [python/foglamp/plugins/south/playback/playback.py]: the configuration
    check of [plugin_init], the session globals of [plugin_start] and
    [plugin_shutdown], the record generator [Producer.get_data] with its field
    coercion, the pacing arithmetic of [Producer.__init__] and
    [Producer.get_time_stamp_diff], the tick of [Producer.run], and the
    hand-off between [Producer.run] and [Consumer.run] through the bounded
    queue and the condition's lock.

    Python text is modelled as ASCII [string]; Python [int] as [Z]; Python
    [float] as IEEE binary64 ([spec_float]) with correctly rounded
    operations; exceptions as a sum type; a dict that is iterated as an
    association list in insertion order. *)

From Stdlib Require Import ZArith QArith Qabs Qpower Bool List String Ascii.
From Stdlib Require Import Lia Lra Psatz.
From Stdlib Require Import Floats.SpecFloat.
Import ListNotations.

Local Open Scope string_scope.
Local Open Scope Z_scope.

(* ================================================================== *)
(** * Python results: values or raised exceptions *)

Module Py.

(** The exception classes the plugin raises, catches or lets through. *)
Inductive exn : Type :=
| ValueError
| SyntaxError
| TypeError
| KeyError
| RuntimeError
| ZeroDivisionError
| OverflowError
| StopIteration
| UnboundLocalError
| RecursionError
| MemoryError.

(** [SyntaxError] derives from [Exception] but not from [ValueError]; the
    others derive from [Exception] directly or through [ArithmeticError],
    [LookupError], [NameError] and ([RecursionError]) [RuntimeError]:
    [except Exception] catches them all, [except ValueError] only
    [ValueError]. *)
Inductive result (A : Type) : Type :=
| Ok (a : A)
| Raise (e : exn).
Arguments Ok {A} a.
Arguments Raise {A} e.

Definition bind {A B} (r : result A) (k : A -> result B) : result B :=
  match r with
  | Ok a => k a
  | Raise e => Raise e
  end.

End Py.
Import Py.

Notation "x <- r ;; k" := (Py.bind r (fun x => k))
  (at level 61, r at next level, right associativity).

(* ================================================================== *)
(** * Text helpers *)

Definition code (c : ascii) : Z := Z.of_nat (nat_of_ascii c).

Definition is_digit (c : ascii) : bool := (48 <=? code c) && (code c <=? 57).

Definition digit_val (c : ascii) : Z := code c - 48.

(** The white space of [str.strip()] and [str.isspace()]: tab, newline,
    vertical tab, form feed, carriage return, the four separators 0x1c-0x1f
    and the space. *)
Definition is_space (c : ascii) : bool :=
  ((9 <=? code c) && (code c <=? 13)) ||
  ((28 <=? code c) && (code c <=? 32)).

(** The white space [int()] and [float()] skip around a number in an ASCII
    text (C's [isspace]): tab, newline, vertical tab, form feed, carriage
    return and the space; the separators 0x1c-0x1f are not among them. *)
Definition is_c_space (c : ascii) : bool :=
  ((9 <=? code c) && (code c <=? 13)) || (code c =? 32).

Definition chars (s : string) : list ascii := list_ascii_of_string s.

(** The double quote, as a one-character text. *)
Definition dquote : string := String "034"%char EmptyString.

Fixpoint drop_while (p : ascii -> bool) (l : list ascii) : list ascii :=
  match l with
  | c :: l' => if p c then drop_while p l' else l
  | [] => []
  end.

(** [str.strip()]. *)
Definition strip (l : list ascii) : list ascii :=
  rev (drop_while is_space (rev (drop_while is_space l))).

(** The text of a number between the white space [int()] and [float()]
    skip. *)
Definition strip_number (l : list ascii) : list ascii :=
  rev (drop_while is_c_space (rev (drop_while is_c_space l))).

(** [sys.get_int_max_str_digits()]: the greatest number of digits [int()]
    converts (and the parser accepts in an integer literal); the default
    of the interpreter. *)
Definition int_max_str_digits : Z := 4300.

(** Value of a run of decimal digits, most significant first, where single
    underscores may separate digits (PEP 515); [None] when the run is
    malformed.  [acc] is the value read so far, [prev_digit] tells whether
    the previous character was a digit. *)
Fixpoint digits_value (l : list ascii) (acc : Z) (prev_digit : bool)
  : option Z :=
  match l with
  | [] => if prev_digit then Some acc else None
  | c :: l' =>
      if is_digit c then digits_value l' (10 * acc + digit_val c) true
      else if (code c =? 95) && prev_digit then digits_value l' acc false
      else None
  end.

(** [int(s)] for a string [s], base 10: [ValueError] for a text that is
    no integer, and for one of more than [int_max_str_digits] digits. *)
Definition py_int (s : string) : result Z :=
  match strip_number (chars s) with
  | [] => Raise ValueError
  | c :: l =>
      let '(neg, body) :=
        if code c =? 45 then (true, l)
        else if code c =? 43 then (false, l)
        else (false, c :: l) in
      match digits_value body 0 false with
      | Some n =>
          if int_max_str_digits <? Z.of_nat (List.length (filter is_digit body))
          then Raise ValueError
          else Ok (if neg then - n else n)
      | None => Raise ValueError
      end
  end.

(** [str(n)] for an integer [n]: the number of characters is all that the
    plugin uses ([len(str(n))]). *)
Fixpoint ndigits_fuel (fuel : nat) (n : Z) : Z :=
  match fuel with
  | O => 1
  | S f => if n <? 10 then 1 else 1 + ndigits_fuel f (n / 10)
  end.

Definition len_str (n : Z) : Z :=
  if n <? 0 then 1 + ndigits_fuel (Z.to_nat (Z.log2 (- n))) (- n)
  else ndigits_fuel (Z.to_nat (Z.log2 n)) n.

(* ================================================================== *)
(** * The configuration handle *)

(** The handle is the configuration category: a dict of items, each a dict
    with a ['value'] entry holding a string.  The record keeps the ['value']
    of every item the plugin reads; [readingCols] is kept as the mapping
    [json.loads] returns for it. *)
Record handle : Type := mkHandle {
  assetName : string;
  csvFilename : string;
  headerRow : string;
  fieldNames : string;
  readingCols : list (string * string);
  timestampFromFile : string;
  timestampCol : string;
  timestampFormat : string;
  ingestMode : string;
  sampleRate : string;
  burstInterval : string;
  burstSize : string;
  repeatLoop : string
}.

(** The values of [_DEFAULT_CONFIG]. *)
Definition default_handle : handle := {|
  assetName := "sample";
  csvFilename := "some.csv";
  headerRow := "true";
  fieldNames := "None";
  readingCols := [];
  timestampFromFile := "false";
  timestampCol := "ts";
  timestampFormat := "%Y-%m-%d %H:%M:%S.%f";
  ingestMode := "batch";
  sampleRate := "100";
  burstInterval := "1000";
  burstSize := "1";
  repeatLoop := "false"
|}.

Definition str_in (s : string) (l : list string) : bool :=
  existsb (String.eqb s) l.

(* ================================================================== *)
(** * plugin_init *)

Module Init.
Section WithFileSystem.

(** [_FOGLAMP_DATA] and [os.path.isfile]. *)
Variable FOGLAMP_DATA : string.
Variable isfile : string -> bool.

Definition csv_file_name (h : handle) : string :=
  FOGLAMP_DATA ++ "/" ++ csvFilename h.

Definition msg_not_found (h : handle) : string :=
  "csv filename " ++ dquote ++ csv_file_name h ++ dquote ++ " not found".
Definition msg_empty : string := "csv filename cannot be empty".
Definition msg_sampleRate : string := "sampleRate should be in range 1-1000000".
Definition msg_burstSize : string := "burstSize should not be less than 1".
Definition msg_burstInterval : string := "burstInterval should not be less than 1".
Definition msg_ingestMode : string :=
  "ingestMode should be one of ('burst', 'realtime', 'batch')".

(** The body runs in a logger monad: a computation takes the log so far and
    gives a result together with the extended log, so that what was logged
    before an exception stays logged. *)
Definition Logged (A : Type) : Type := list string -> result A * list string.

Definition ret {A} (a : A) : Logged A := fun log => (Ok a, log).

Definition lbind {A B} (m : Logged A) (k : A -> Logged B) : Logged B :=
  fun log =>
    match m log with
    | (Ok a, log') => k a log'
    | (Raise e, log') => (Raise e, log')
    end.

Definition lift {A} (r : result A) : Logged A := fun log => (r, log).

Definition LOGGER_exception (msg : string) : Logged unit :=
  fun log => (Ok tt, (log ++ [msg])%list).

(** One [if] of the body: when the test holds, the message is logged and
    [errors] becomes [True]. *)
Definition check (test : bool) (msg : string) (errors : bool) : Logged bool :=
  if test then lbind (LOGGER_exception msg) (fun _ => ret true)
  else ret errors.

(** The [try] body of [plugin_init] down to [if errors]. *)
Definition plugin_init_checks (data : handle) : Logged bool :=
  lbind (check (negb (isfile (csv_file_name data))) (msg_not_found data) false)
  (fun errors =>
  lbind (check (String.eqb (csvFilename data) EmptyString) msg_empty errors)
  (fun errors =>
  lbind (lift (py_int (sampleRate data))) (fun sr =>
  lbind (check ((sr <? 1) || (sr >? 1000000)) msg_sampleRate errors)
  (fun errors =>
  lbind (lift (py_int (burstSize data))) (fun bs =>
  lbind (check (bs <? 1) msg_burstSize errors) (fun errors =>
  lbind (lift (py_int (burstInterval data))) (fun bi =>
  lbind (check (bi <? 1) msg_burstInterval errors) (fun errors =>
  check (negb (str_in (ingestMode data) ["burst"; "realtime"; "batch"]))
        msg_ingestMode errors)))))))).

(** [plugin_init(config)]: [copy.deepcopy] gives an equal handle; both
    handlers re-raise. *)
Definition plugin_init (config : handle) : Logged handle :=
  let data := config in
  lbind (plugin_init_checks data) (fun errors =>
  if errors then lift (Raise RuntimeError) else ret data).

End WithFileSystem.
End Init.

(* ================================================================== *)
(** * Python floats: IEEE binary64 *)

Module Float.

Definition float : Type := spec_float.

Definition prec : Z := 53.
Definition emax : Z := 1024.

(** Least exponent of a (subnormal) binary64 number and greatest exponent of
    a finite one, for 53-bit integral significands. *)
Definition emin : Z := -1074.
Definition etop : Z := 971.

(** Round to nearest, ties to even, of the quotient [num / den] of two
    positive integers to an integer. *)
Definition round_half_even (num den : Z) : Z :=
  let q := num / den in
  let r := num mod den in
  if 2 * r <? den then q
  else if den <? 2 * r then q + 1
  else if Z.even q then q else q + 1.

(** [floor (log2 (n / d))] for positive [n] and [d]. *)
Definition floor_log2_ratio (n d : Z) : Z :=
  let l := Z.log2 n - Z.log2 d in
  if n * 2 ^ (Z.max 0 (- l)) <? d * 2 ^ (Z.max 0 l) then l - 1 else l.

(** The binary64 number nearest to [n / d] (ties to even) for positive [n]
    and [d], with sign [s]: the correctly rounded value that IEEE division,
    the conversion of an integer and the conversion of a decimal numeral
    all return. *)
Definition round_ratio (s : bool) (n d : Z) : float :=
  let e := Z.max (floor_log2_ratio n d - 52) emin in
  let m := if e <? 0 then round_half_even (n * 2 ^ (- e)) d
           else round_half_even n (d * 2 ^ e) in
  let '(m, e) := if m =? 2 ^ 53 then (2 ^ 52, e + 1) else (m, e) in
  if m =? 0 then S754_zero s
  else if etop <? e then S754_infinity s
  else S754_finite s (Z.to_pos m) e.

(** The binary64 number nearest to a rational. *)
Definition of_Q (q : Q) : float :=
  match Qnum q with
  | Z0 => S754_zero false
  | Zpos n => round_ratio false (Zpos n) (Zpos (Qden q))
  | Zneg n => round_ratio true (Zpos n) (Zpos (Qden q))
  end.

(** The exact value of a finite float (0 for the others). *)
Definition to_Q (x : float) : Q :=
  match x with
  | S754_finite s m e =>
      if 0 <=? e then inject_Z (cond_Zopp s (Zpos m) * 2 ^ e)
      else Qmake (cond_Zopp s (Zpos m)) (Z.to_pos (2 ^ (- e)))
  | _ => 0%Q
  end.

Definition is_finite (x : float) : bool :=
  match x with
  | S754_zero _ | S754_finite _ _ _ => true
  | _ => false
  end.

Definition is_zero (x : float) : bool :=
  match x with S754_zero _ => true | _ => false end.

Definition sign_of (x : float) : bool :=
  match x with
  | S754_zero s | S754_infinity s | S754_finite s _ _ => s
  | S754_nan => false
  end.

(** [float(n)] for an integer, as in mixed arithmetic: correctly rounded,
    [OverflowError] when the integer is too large. *)
Definition of_int (n : Z) : result float :=
  let x := of_Q (inject_Z n) in
  if is_finite x then Ok x else Raise OverflowError.

(** [x / y] on floats: [ZeroDivisionError] on a zero divisor, the correctly
    rounded quotient on finite operands, IEEE's special cases otherwise. *)
Definition truediv (x y : float) : result float :=
  if is_zero y then Raise ZeroDivisionError
  else match x, y with
       | S754_finite sx mx ex, S754_finite sy my ey =>
           let '(n, d) :=
             if ex - ey <? 0 then (Zpos mx, Zpos my * 2 ^ (ey - ex))
             else (Zpos mx * 2 ^ (ex - ey), Zpos my) in
           Ok (round_ratio (xorb sx sy) n d)
       | _, _ => Ok (SFdiv prec emax x y)
       end.

(** [x - y] on floats, finite operands (the sum of two zeros keeps IEEE's
    sign rule through [SFsub]). *)
Definition sub (x y : float) : float :=
  match x, y with
  | S754_finite _ _ _, S754_finite _ _ _
  | S754_finite _ _ _, S754_zero _
  | S754_zero _, S754_finite _ _ _ => of_Q (to_Q x - to_Q y)
  | _, _ => SFsub prec emax x y
  end.

(** [0 < x]. *)
Definition is_positive (x : float) : bool :=
  match x with
  | S754_finite false _ _ | S754_infinity false => true
  | _ => false
  end.

(** [round(x, ndigits)] on a float: CPython's [double_round] prints [x]
    correctly rounded to [ndigits] places after the point and reads the
    numeral back; for [ndigits] over 323 the float is returned as it is,
    under -308 it becomes a zero. *)
Definition round_digits (x : float) (ndigits : Z) : result float :=
  match x with
  | S754_finite s m e =>
      if 323 <? ndigits then Ok x
      else if ndigits <? -308 then Ok (S754_zero s)
      else
        let '(n, d) :=
          if e <? 0 then (Zpos m, 2 ^ (- e)) else (Zpos m * 2 ^ e, 1) in
        let '(n, d) :=
          if ndigits <? 0 then (n, d * 10 ^ (- ndigits))
          else (n * 10 ^ ndigits, d) in
        let k := round_half_even n d in
        if k =? 0 then Ok (S754_zero s)
        else
          let r := if ndigits <? 0 then round_ratio s (k * 10 ^ (- ndigits)) 1
                   else round_ratio s k (10 ^ ndigits) in
          if is_finite r then Ok r else Raise OverflowError
  | _ => Ok x
  end.

(** A decimal numeral [digits / 10 ^ scale] read as a float
    ([float("1.50")] is [of_decimal false 150 2]). *)
Definition of_decimal (s : bool) (digits : Z) (scale : Z) : float :=
  if digits =? 0 then S754_zero s
  else round_ratio s digits (10 ^ scale).

End Float.

(* ================================================================== *)
(** * Values of a record, and the literals of [ast.literal_eval] *)

(** A field of a record after coercion: [int], [float] or [str]. *)
Inductive value : Type :=
| VInt (n : Z)
| VFloat (x : Float.float)
| VStr (s : string).

(** What [ast.literal_eval] can return on a text made of digits, minus signs
    and points. *)
Inductive literal : Type :=
| LInt (n : Z)
| LFloat (x : Float.float)
| LEllipsis.

(** What [csv.DictReader] puts under a field name: the text of a cell, or
    [None] when the row has no cell for the name. *)
Inductive cell : Type :=
| Text (s : string)
| NoText.

(** A line as [csv.DictReader] yields it (its entries under field names),
    and a record as [get_data] yields it: dicts in insertion order. *)
Definition line : Type := list (string * cell).
Definition record : Type := list (string * value).

(** [d.update({k: v})]: an existing key keeps its place and takes the new
    value, a new key goes last. *)
Fixpoint dict_update {V : Type} (d : list (string * V)) (k : string) (v : V)
  : list (string * V) :=
  match d with
  | [] => [(k, v)]
  | (k', v') :: d' =>
      if String.eqb k' k then (k, v) :: d' else (k', v') :: dict_update d' k v
  end.

(** [d[k]] where present. *)
Fixpoint dict_get {V : Type} (d : list (string * V)) (k : string) : option V :=
  match d with
  | [] => None
  | (k', v) :: d' => if String.eqb k' k then Some v else dict_get d' k
  end.

(** What the Python library does where this development does not follow it:
    [ast.literal_eval] on a text that has a character other than a digit,
    a minus sign or a point (control characters, the backslash, DEL,
    non-ASCII) or that has so many minus signs that the limits of the
    interpreter on nesting may be met ([RecursionError], [MemoryError]),
    and [datetime.datetime.strptime] (given the text and the format, the
    parsed time in microseconds or the exception). *)
Record Env : Type := mkEnv {
  literal_eval_rest : string -> result literal;
  strptime : string -> string -> result Z
}.

(* ================================================================== *)
(** * ast.literal_eval on numeric text *)

Module Ast.

(** Tokens of the Python tokenizer over digits, ['-'] and ['.']. A float
    token keeps its digits and the number of them after the point. *)
Inductive token : Type :=
| TInt (n : Z)
| TFloat (digits scale : Z)
| TMinus
| TDot
| TEllipsis.

(** Tokenizer state: between tokens, inside the digits of an integer
    ([lead0]: the first digit is 0; [allzero]: all digits are 0; [len]: the
    number of digits), inside the fraction of a float, or after one or two
    points that follow no digit. *)
Inductive tstate : Type :=
| Idle
| IntRun (n : Z) (lead0 allzero : bool) (len : Z)
| FracRun (digits scale : Z)
| Dots1
| Dots2.

(** Closes the token in progress: an integer with a leading zero that is
    not zero is refused ("leading zeros in decimal integer literals are not
    permitted"), and so is one of more than [int_max_str_digits] digits
    that does not start with a zero ("Exceeds the limit (4300 digits) for
    integer string conversion"); zeros alone are zero, however many. *)
Definition flush (st : tstate) : result (list token) :=
  match st with
  | Idle => Ok []
  | IntRun n lead0 allzero len =>
      if lead0 then (if allzero then Ok [TInt n] else Raise SyntaxError)
      else if int_max_str_digits <? len then Raise SyntaxError
      else Ok [TInt n]
  | FracRun d s => Ok [TFloat d s]
  | Dots1 => Ok [TDot]
  | Dots2 => Ok [TDot; TDot]
  end.

Definition emit (st : tstate) (rest : result (list token)) : result (list token) :=
  ts <- flush st ;; ts' <- rest ;; Ok (ts ++ ts')%list.

Fixpoint tokenize (l : list ascii) (st : tstate) : result (list token) :=
  match l with
  | [] => flush st
  | c :: l' =>
      if is_digit c then
        let v := digit_val c in
        match st with
        | Idle => tokenize l' (IntRun v (v =? 0) (v =? 0) 1)
        | IntRun n lead0 allzero len =>
            tokenize l'
              (IntRun (10 * n + v) lead0 (allzero && (v =? 0)) (len + 1))
        | FracRun d s => tokenize l' (FracRun (10 * d + v) (s + 1))
        | Dots1 => tokenize l' (FracRun v 1)
        | Dots2 => emit Dots1 (tokenize l' (FracRun v 1))
        end
      else if code c =? 46 then
        match st with
        | Idle => tokenize l' Dots1
        | IntRun n _ _ _ => tokenize l' (FracRun n 0)
        | FracRun _ _ => emit st (tokenize l' Dots1)
        | Dots1 => tokenize l' Dots2
        | Dots2 => ts <- tokenize l' Idle ;; Ok (TEllipsis :: ts)
        end
      else if code c =? 45 then
        emit st (ts <- tokenize l' Idle ;; Ok (TMinus :: ts))
      else Raise SyntaxError
  end.

(** The expressions these tokens can form. *)
Inductive expr : Type :=
| Constant (v : literal)
| UnaryOp_USub (operand : expr)
| BinOp_Sub (lhs rhs : expr).

(** factor: ['-' factor | atom]; a point alone is no atom. *)
Fixpoint parse_factor (ts : list token) : result (expr * list token) :=
  match ts with
  | TMinus :: r =>
      match parse_factor r with
      | Ok (e, r') => Ok (UnaryOp_USub e, r')
      | Raise x => Raise x
      end
  | TInt n :: r => Ok (Constant (LInt n), r)
  | TFloat d s :: r => Ok (Constant (LFloat (Float.of_decimal false d s)), r)
  | TEllipsis :: r => Ok (Constant LEllipsis, r)
  | TDot :: _ => Raise SyntaxError
  | [] => Raise SyntaxError
  end.

(** arith_expr: [factor ('-' factor)*], to the end of the text. *)
Fixpoint parse_rest (fuel : nat) (lhs : expr) (ts : list token) : result expr :=
  match ts with
  | [] => Ok lhs
  | TMinus :: r =>
      match fuel with
      | O => Raise SyntaxError
      | S fuel' =>
          match parse_factor r with
          | Ok (e, r') => parse_rest fuel' (BinOp_Sub lhs e) r'
          | Raise x => Raise x
          end
      end
  | _ => Raise SyntaxError
  end.

Definition parse (ts : list token) : result expr :=
  match parse_factor ts with
  | Ok (e, r) => parse_rest (List.length r) e r
  | Raise x => Raise x
  end.

(** [_convert_num]: a constant that is a number. *)
Definition convert_num (e : expr) : result literal :=
  match e with
  | Constant (LInt n) => Ok (LInt n)
  | Constant (LFloat x) => Ok (LFloat x)
  | _ => Raise ValueError
  end.

(** [_convert_signed_num]: a number, or a minus sign on one. *)
Definition convert_signed_num (e : expr) : result literal :=
  match e with
  | UnaryOp_USub operand =>
      v <- convert_num operand ;;
      match v with
      | LInt n => Ok (LInt (- n))
      | LFloat x => Ok (LFloat (SFopp x))
      | LEllipsis => Raise ValueError
      end
  | _ => convert_num e
  end.

(** [_convert]: a constant is returned as it is; a difference is accepted
    only when its right operand is complex, which no text here gives. *)
Definition convert (e : expr) : result literal :=
  match e with
  | Constant v => Ok v
  | BinOp_Sub lhs rhs =>
      _ <- convert_signed_num lhs ;;
      _ <- convert_num rhs ;;
      convert_signed_num e
  | _ => convert_signed_num e
  end.

Definition is_numeric_char (c : ascii) : bool :=
  is_digit c || (code c =? 45) || (code c =? 46).

(** The number of minus signs of a text: the expression it denotes is
    nested no deeper. *)
Definition minus_count (l : list ascii) : Z :=
  Z.of_nat (List.length (filter (fun c => code c =? 45) l)).

(** A depth of nesting that lies far below the limits of the interpreter
    (its recursion limit and the stack of its parser). *)
Definition safe_depth : Z := 100.

(** [ast.literal_eval(s)]: followed on a text of digits, minus signs and
    points with no more than [safe_depth] minus signs. *)
Definition literal_eval (env : Env) (s : string) : result literal :=
  if forallb is_numeric_char (chars s) && (minus_count (chars s) <=? safe_depth)
  then
    ts <- tokenize (chars s) Idle ;;
    e <- parse ts ;;
    convert e
  else literal_eval_rest env s.

End Ast.

(* ================================================================== *)
(** * float() on text without letters *)

(** Splits a text at its first point. *)
Fixpoint split_point (l : list ascii) : list ascii * option (list ascii) :=
  match l with
  | [] => ([], None)
  | c :: l' =>
      if code c =? 46 then ([], Some l')
      else let '(a, b) := split_point l' in (c :: a, b)
  end.

(** A run of digits that may be empty. *)
Definition digits_value_opt (l : list ascii) : option Z :=
  match l with
  | [] => Some 0
  | _ => digits_value l 0 false
  end.

Definition count_digits (l : list ascii) : Z :=
  Z.of_nat (List.length (filter is_digit l)).

(** [float(s)] for a text without letters: white space around, a sign,
    digits with an optional point.  The exponent part and the words [inf],
    [infinity] and [nan] all need a letter; [get_data] calls [float] only on
    text that has none. *)
Definition py_float (s : string) : result Float.float :=
  match strip_number (chars s) with
  | [] => Raise ValueError
  | c :: l =>
      let '(neg, body) :=
        if code c =? 45 then (true, l)
        else if code c =? 43 then (false, l)
        else (false, c :: l) in
      let '(ip, fp) := split_point body in
      let frac := match fp with Some f => f | None => [] end in
      match ip, frac with
      | [], [] => Raise ValueError
      | _, _ =>
          match digits_value_opt ip, digits_value_opt frac with
          | Some iv, Some fv =>
              let scale := count_digits frac in
              Ok (Float.of_decimal neg (iv * 10 ^ scale + fv) scale)
          | _, _ => Raise ValueError
          end
      end
  end.

(* ================================================================== *)
(** * The recording on disk *)

(** What [open(csv_file_name).readline()] and [csv.reader] give for the
    file: the first line as text, and the cells of every row, the first row
    included; a blank line is a row without cells. *)
Record csv_file : Type := mkCsv {
  first_line : string;
  csv_rows : list (list string)
}.

(** [s.split(",")]. *)
Fixpoint split_comma (l : list ascii) (cur : list ascii) : list string :=
  match l with
  | [] => [string_of_list_ascii (rev cur)]
  | c :: l' =>
      if code c =? 44 then string_of_list_ascii (rev cur) :: split_comma l' []
      else split_comma l' (c :: cur)
  end.

(** [headr.strip().replace('\n','').replace('\r','').replace(' ','')]. *)
Definition clean_header (s : string) : list ascii :=
  filter (fun c => negb ((code c =? 10) || (code c =? 13) || (code c =? 32)))
         (strip (chars s)).

(** [dict(zip(fieldnames, row))]. *)
Definition dict_zip (names : list string) (row : list string) : line :=
  fold_left (fun d kv => dict_update d (fst kv) (Text (snd kv)))
            (combine names row) [].

(** The dict [csv.DictReader] makes of a row: the zip of the field names
    and the cells; then, for a row longer than the field names, the cells
    left over as a list under the key [None] (returned here beside the
    dict, where it comes last), and for a shorter one [None] under each
    field name left over. *)
Definition dict_row (names : list string) (row : list string)
  : line * option (list string) :=
  let d := dict_zip names row in
  let lf := List.length names in
  let lr := List.length row in
  if Nat.ltb lf lr then (d, Some (skipn lf row))
  else (fold_left (fun d k => dict_update d k NoText) (skipn lr names) d, None).

(** A row with cells: [csv.DictReader] skips the others. *)
Definition not_blank (row : list string) : bool :=
  negb (Nat.eqb (List.length row) 0).

(* ================================================================== *)
(** * class Producer *)

Module Producer.

(** The generator object [get_data()] returns: created and not yet run,
    suspended at its [yield] with the field names and the rows still to
    read, or finished (exhausted, or left by an exception). *)
Inductive generator : Type :=
| GenCreated
| GenRunning (names : list string) (rows : list (list string))
| GenFinished.

(** The attributes of a Producer. *)
Record t : Type := mk {
  self_handle : handle;
  period : Float.float;
  iter_sensor_data : generator;
  reading_cols : list (string * string);
  prv_readings_ts : option Z
}.

Definition set_iter (p : t) (g : generator) : t :=
  mk (self_handle p) (period p) g (reading_cols p) (prv_readings_ts p).

Definition set_reading_cols (p : t) (rc : list (string * string)) : t :=
  mk (self_handle p) (period p) (iter_sensor_data p) rc (prv_readings_ts p).

Definition set_prv_readings_ts (p : t) (ts : option Z) : t :=
  mk (self_handle p) (period p) (iter_sensor_data p) (reading_cols p) ts.

(** ** __init__ *)

Definition lit_1000 : Float.float := Float.of_decimal false 10000 1.
Definition lit_1 : Float.float := Float.of_decimal false 10 1.

(** The [try] of [__init__] that sets [self.period].  [int()] may raise
    [ValueError] and the conversion of a huge integer [OverflowError]; only
    [ZeroDivisionError] is handled. *)
Definition init_period (h : handle) : result Float.float :=
  let body :=
    if String.eqb (ingestMode h) "burst" then
      burst_interval <- py_int (burstInterval h) ;;
      x <- Float.of_int burst_interval ;;
      q <- Float.truediv x lit_1000 ;;
      Float.round_digits q (len_str burst_interval + 1)
    else
      recs <- py_int (sampleRate h) ;;
      x <- Float.of_int recs ;;
      q <- Float.truediv lit_1 x ;;
      Float.round_digits q (len_str recs + 1) in
  match body with
  | Raise ZeroDivisionError => Ok lit_1
  | r => r
  end.

Definition __init__ (h : handle) : result t :=
  p <- init_period h ;;
  Ok (mk h p GenCreated (readingCols h) None).

(** ** get_data *)

(** The character class of the regular expression: a text with one of these
    characters stays a string. *)
Definition regex_class : string :=
  " `~!@#$%^&*()_=+}{][|;:" ++ dquote ++
  "<>,?/'ABCDEFGHIJKLMNOPQRSTUVWXYZabcdefghijklmnopqrstuvwxyz".

Definition regex_search (v : string) : bool :=
  existsb (fun c => existsb (Ascii.eqb c) (chars regex_class)) (chars v).

Section WithEnv.

Variable env : Env.
Variable file : csv_file.

(** The body of the inner [for k, v in line.items()]: the coerced value, or
    the exception that leaves the [try] ([except ValueError] alone is
    handled). *)
Definition coerce (v : string) : result value :=
  if regex_search v then Ok (VStr v)
  else
    let body :=
      lit <- Ast.literal_eval env v ;;
      match lit with
      | LInt _ => n <- py_int v ;; Ok (VInt n)
      | LFloat _ => x <- py_float v ;; Ok (VFloat x)
      | LEllipsis => Ok (VStr v)
      end in
    match body with
    | Raise ValueError => Ok (VStr v)
    | r => r
    end.

(** The same on what the dict of [csv.DictReader] holds under a field
    name: on [None], [regex.search] raises [TypeError]. *)
Definition coerce_cell (c : cell) : result value :=
  match c with
  | Text v => coerce v
  | NoText => Raise TypeError
  end.

(** The body of [for line in reader] up to the [yield], on the entries
    under field names. *)
Fixpoint coerce_items (items : line) (new_line : record) : result record :=
  match items with
  | [] => Ok new_line
  | (k, v) :: rest =>
      nv <- coerce_cell v ;;
      coerce_items rest (dict_update new_line k nv)
  end.

(** The body of [for line in reader] for a row: the entries under field
    names, then the cells left over under the key [None], a list on which
    [regex.search] raises [TypeError]. *)
Definition get_data_line (names : list string) (row : list string) : result record :=
  let '(d, rest) := dict_row names row in
  new_line <- coerce_items d [] ;;
  match rest with
  | Some _ => Raise TypeError
  | None => Ok new_line
  end.

(** The part of [get_data] before the loop, run by the first [next()]:
    header and field names, the update of [self.reading_cols], the reader
    and the skip of the header row; the result is the field names of the
    reader and the rows it will yield.  [csv.DictReader] skips the blank
    rows; without field names it takes them from the first row of the
    file, blank or not.  [StopIteration] raised inside a generator by
    [next(reader)] reaches the caller as [RuntimeError]. *)
Definition get_data_start (p : t) : result (list string * list (list string)) * t :=
  let h := self_handle p in
  let has_header := String.eqb (headerRow h) "true" in
  let field_names :=
    if has_header then Some (split_comma (clean_header (first_line file)) [])
    else if String.eqb (fieldNames h) "None" then None
    else Some (split_comma (chars (fieldNames h)) []) in
  let ts_col := timestampCol h in
  let new_cols : result (list (string * string)) :=
    if String.eqb (timestampFromFile h) "true" then
      if 0 <? Z.of_nat (List.length (reading_cols p)) then
        Ok (fold_left (fun n kv => if String.eqb ts_col (fst kv) then n
                                   else dict_update n (fst kv) (snd kv))
                      (reading_cols p) (reading_cols p))
      else
        match field_names with
        | None => Raise TypeError
        | Some fs =>
            Ok (fold_left (fun n i => if String.eqb ts_col i then n
                                      else dict_update n i i)
                          fs (reading_cols p))
        end
    else Ok (reading_cols p) in
  match new_cols with
  | Raise e => (Raise e, p)
  | Ok rc =>
      let p := set_reading_cols p rc in
      match field_names with
      | Some names =>
          let rows := filter not_blank (csv_rows file) in
          if has_header then
            match rows with
            | [] => (Raise RuntimeError, p)
            | _ :: rows' => (Ok (names, rows'), p)
            end
          else (Ok (names, rows), p)
      | None =>
          match csv_rows file with
          | [] => (Ok ([], []), p)
          | names :: rows' => (Ok (names, filter not_blank rows'), p)
          end
      end
  end.

(** One pass of the loop of the generator, from the rows still to read. *)
Definition get_data_resume (names : list string) (rows : list (list string))
  : result record * generator :=
  match rows with
  | [] => (Raise StopIteration, GenFinished)
  | row :: rows' =>
      match get_data_line names row with
      | Ok r => (Ok r, GenRunning names rows')
      | Raise e => (Raise e, GenFinished)
      end
  end.

(** [next(self.iter_sensor_data)]. *)
Definition next_sensor_data (p : t) : result record * t :=
  match iter_sensor_data p with
  | GenCreated =>
      match get_data_start p with
      | (Ok (names, rows), p') =>
          let '(r, g) := get_data_resume names rows in (r, set_iter p' g)
      | (Raise e, p') => (Raise e, set_iter p' GenFinished)
      end
  | GenRunning names rows =>
      let '(r, g) := get_data_resume names rows in (r, set_iter p g)
  | GenFinished => (Raise StopIteration, p)
  end.

(** ** get_time_stamp_diff *)

(** [timedelta.total_seconds()]: the microseconds divided by 10**6, as a
    float. *)
Definition total_seconds (microseconds : Z) : Float.float :=
  Float.of_Q (Qmake microseconds 1000000).

(** [get_time_stamp_diff(readings)]: the delay [c] and the Producer with
    [prv_readings_ts] updated.  [c = 0] is returned as the float zero it
    becomes in the subtraction of the caller.  Whatever the [try] raises
    (a missing column, a value that is not text, a text that does not parse)
    is raised again as [RuntimeError]. *)
Definition get_time_stamp_diff (p : t) (readings : record)
  : result Float.float * t :=
  let h := self_handle p in
  let body : result (Float.float * t) :=
    match dict_get readings (timestampCol h) with
    | None => Raise KeyError
    | Some (VStr s) =>
        readings_ts <- strptime env s (timestampFormat h) ;;
        let c := match prv_readings_ts p with
                 | Some prv => total_seconds (readings_ts - prv)
                 | None => S754_zero false
                 end in
        Ok (c, set_prv_readings_ts p (Some readings_ts))
    | Some _ => Raise TypeError
    end in
  match body with
  | Ok (c, p') => (Ok c, p')
  | Raise _ => (Raise RuntimeError, p)
  end.

(** ** run *)

(** The dict [sensor_data]: the readings of one record (empty at the start
    of a tick), or [{"data": burst_data_points}]. *)
Inductive sensor_data : Type :=
| Readings (r : record)
| Data (burst_data_points : list record).

Definition len_sensor_data (sd : sensor_data) : Z :=
  match sd with
  | Readings r => Z.of_nat (List.length r)
  | Data _ => 1
  end.

(** What [_LOGGER.warning] is called with. *)
Inductive warning : Type :=
| EOF_reached
| producer_exception (e : exn).

(** The Producer together with the locals of [run] that live from one pass
    of the loop to the next; [next_iteration_secs] is unbound ([None]) until
    a pass assigns it. *)
Record state : Type := mkState {
  self : t;
  eof_reached : bool;
  next_iteration_secs : option Float.float
}.

(** The cherry-pick of columns: into [target], for every [k: v] of
    [reading_cols] with [k] in [readings], [target.update({v: readings[k]})];
    with no [reading_cols], the readings themselves. *)
Definition select (p : t) (readings : record) (target : record) : record :=
  if 0 <? Z.of_nat (List.length (reading_cols p)) then
    fold_left (fun d kv =>
                 match dict_get readings (fst kv) with
                 | Some x => dict_update d (snd kv) x
                 | None => d
                 end) (reading_cols p) target
  else fold_left (fun d kv => dict_update d (fst kv) (snd kv)) readings target.

(** [for i in range(n)] of the burst: the exception that left the loop if
    any, the points collected and the Producer. *)
Fixpoint burst_loop (n : nat) (p : t) (burst_data_points : list record)
  : option exn * list record * t :=
  match n with
  | O => (None, burst_data_points, p)
  | S n' =>
      match next_sensor_data p with
      | (Ok readings, p') =>
          burst_loop n' p' (burst_data_points ++ [select p' readings []])%list
      | (Raise e, p') => (Some e, burst_data_points, p')
      end
  end.

(** The [try] statement of the loop with its two handlers: the state after
    it, [sensor_data], and the warnings logged. *)
Definition run_try (st : state) : state * sensor_data * list warning :=
  let p := self st in
  let h := self_handle p in
  let eof := eof_reached st in
  let nis := next_iteration_secs st in
  if String.eqb (ingestMode h) "burst" then
    match py_int (burstSize h) with
    | Raise e => (st, Readings [], [producer_exception e])
    | Ok n =>
        match burst_loop (Z.to_nat n) p [] with
        | (None, points, p') =>
            (mkState p' eof (Some (period p')), Data points, [])
        | (Some StopIteration, points, p') =>
            (mkState p' true nis,
             if 0 <? Z.of_nat (List.length points) then Data points
             else Readings [],
             [EOF_reached])
        | (Some e, _, p') =>
            (mkState p' eof nis, Readings [], [producer_exception e])
        end
    end
  else
    match next_sensor_data p with
    | (Raise StopIteration, p') =>
        (mkState p' true nis, Readings [], [EOF_reached])
    | (Raise e, p') =>
        (mkState p' eof nis, Readings [], [producer_exception e])
    | (Ok readings, p') =>
        let sd := Readings (select p' readings []) in
        if String.eqb (timestampFromFile h) "true" then
          match get_time_stamp_diff p' readings with
          | (Ok c, p'') => (mkState p'' eof (Some c), sd, [])
          | (Raise e, p'') =>
              (mkState p'' eof nis, sd, [producer_exception e])
          end
        else (mkState p' eof (Some (period p')), sd, [])
    end.

(** The argument of [wait_event.wait]: [next_iteration_secs] minus the time
    the pass has taken so far; reading the local while it is unbound raises
    [UnboundLocalError], outside any [try]. *)
Definition wait_timeout (st : state) (elapsed : Float.float) : result Float.float :=
  match next_iteration_secs st with
  | None => Raise UnboundLocalError
  | Some n => Ok (Float.sub n elapsed)
  end.

(** The last statement of the loop: [None] when [run] returns. *)
Definition run_eof (st : state) : option state :=
  if eof_reached st then
    if String.eqb (repeatLoop (self_handle (self st))) "true" then
      Some (mkState (set_iter (self st) GenCreated) false (next_iteration_secs st))
    else None
  else Some st.

End WithEnv.
End Producer.

(* ================================================================== *)
(** * threading and queue *)

Module Threading.

(** How long [Event.wait(timeout)] may block: not at all when the flag is
    set or the timeout is not positive ([Condition.wait] then only polls),
    else until the flag is set or [timeout] seconds have passed. *)
Inductive waited : Type :=
| Immediately
| UpTo (seconds : Q).

(** What the lock of the interpreter makes of a positive timeout
    ([lock.acquire], CPython 3.11 on a 64-bit machine): the seconds are
    turned into nanoseconds, a float product; beyond 2^63 the timeout is
    refused with [OverflowError] (so from about 292 years on,
    [threading.TIMEOUT_MAX]); at 2^63 itself the conversion to 64 bits gives
    a negative number, refused with [ValueError]. *)
Definition timeout_refused (timeout : Float.float) : option exn :=
  match Float.of_Q (Float.to_Q timeout * 1000000000)%Q with
  | S754_finite false m e =>
      let ns := Float.to_Q (S754_finite false m e) in
      if Qle_bool (inject_Z (2 ^ 63)) ns then
        if Qle_bool ns (inject_Z (2 ^ 63)) then Some ValueError
        else Some OverflowError
      else None
  | S754_infinity false => Some OverflowError
  | _ => None
  end.

(** [Event.wait(timeout)]: with the flag clear and a positive timeout,
    [Condition.wait] acquires a lock with that timeout, which raises when
    the timeout is infinite or too large. *)
Definition Event_wait (flag : bool) (timeout : Float.float) : result waited :=
  if flag then Ok Immediately
  else if Float.is_positive timeout then
    match timeout with
    | S754_finite _ _ _ =>
        match timeout_refused timeout with
        | Some e => Raise e
        | None => Ok (UpTo (Float.to_Q timeout))
        end
    | _ => Raise OverflowError
    end
  else Ok Immediately.

(** [queue.Queue(maxsize)]: a FIFO; a [maxsize] of zero or less means no
    bound. *)
Record Queue (A : Type) : Type := mkQueue {
  maxsize : Z;
  items : list A
}.
Arguments mkQueue {A} maxsize items.
Arguments maxsize {A} q.
Arguments items {A} q.

Definition qsize {A} (q : Queue A) : Z := Z.of_nat (List.length (items q)).

Definition full {A} (q : Queue A) : bool :=
  (0 <? maxsize q) && (maxsize q <=? qsize q).

(** [put] blocks while the queue is full: [None]. *)
Definition put {A} (q : Queue A) (x : A) : option (Queue A) :=
  if full q then None else Some (mkQueue (maxsize q) (items q ++ [x])).

(** [get] blocks while the queue is empty: [None]. *)
Definition get {A} (q : Queue A) : option (A * Queue A) :=
  match items q with
  | [] => None
  | x :: l => Some (x, mkQueue (maxsize q) l)
  end.

(** The two threads of a session. *)
Inductive thread : Type :=
| ProducerThread
| ConsumerThread.

End Threading.

(* ================================================================== *)
(** * A session: the two threads and what they share *)

Module Session.
Import Threading.

(** The value [Producer.run] puts in the queue. *)
Record envelope : Type := mkEnvelope {
  data : Producer.sensor_data;
  ts : string
}.

(** Where [Producer.run] stands. *)
Inductive producer_pc : Type :=
| PLoop
| PAcquire (sd : Producer.sensor_data) (time_stamp : string)
| PPut (sd : Producer.sensor_data) (time_stamp : string)
| PSignal
| PEof
| PReturned
| PRaised (e : exn).

(** Where [Consumer.run] stands. *)
Inductive consumer_pc : Type :=
| CAcquire
| CDrain
| CRelease.

(** The objects of a session.  [condition_owner] is the thread that holds
    the lock of [condition]; the [is_stopped] flags are the bookkeeping of
    the two [Thread] objects; [put_log], [dispatched], [notified] and
    [warnings] record what the threads have done: the envelopes put, the
    envelopes handed to [save_data], the thread of each [notify()], and the
    warnings logged; [waits] records what each [wait_event.wait] of the
    Producer amounted to. *)
Record t : Type := mk {
  condition_owner : option thread;
  bucket : Queue envelope;
  producer : Producer.state;
  producer_at : producer_pc;
  producer_is_stopped : bool;
  consumer_at : consumer_pc;
  consumer_is_stopped : bool;
  put_log : list envelope;
  dispatched : list envelope;
  notified : list thread;
  warnings : list Producer.warning;
  waits : list waited
}.

Section WithEnv.

Variable env : Env.
Variable file : csv_file.

(** One step of [Producer.run]; [flag] is [wait_event], [elapsed] the time
    the pass has taken when the wait is reached and [now] what
    [utils.local_timestamp()] returns.  [None]: the thread is blocked or has
    ended. *)
Definition producer_step (flag : bool) (elapsed : Float.float) (now : string)
  (s : t) : option t :=
  match producer_at s with
  | PLoop =>
      let '(st, sd, w) := Producer.run_try env file (producer s) in
      let '(pc, ws) :=
        match timeout <- Producer.wait_timeout st elapsed ;;
              Event_wait flag timeout with
        | Raise e => (PRaised e, waits s)
        | Ok w => (PAcquire sd now, (waits s ++ [w])%list)
        end in
      Some (mk (condition_owner s) (bucket s) st pc (producer_is_stopped s)
               (consumer_at s) (consumer_is_stopped s) (put_log s)
               (dispatched s) (notified s) (warnings s ++ w)%list ws)
  | PAcquire sd time_stamp =>
      match condition_owner s with
      | Some ConsumerThread => None
      | _ =>
          Some (mk (Some ProducerThread) (bucket s) (producer s)
                   (PPut sd time_stamp) (producer_is_stopped s)
                   (consumer_at s) (consumer_is_stopped s) (put_log s)
                   (dispatched s) (notified s) (warnings s) (waits s))
      end
  | PPut sd time_stamp =>
      if 0 <? Producer.len_sensor_data sd then
        let value := mkEnvelope sd time_stamp in
        match put (bucket s) value with
        | None => None
        | Some q =>
            Some (mk (condition_owner s) q (producer s) PSignal
                     (producer_is_stopped s) (consumer_at s)
                     (consumer_is_stopped s) (put_log s ++ [value])%list
                     (dispatched s) (notified s) (warnings s) (waits s))
        end
      else
        Some (mk (condition_owner s) (bucket s) (producer s) PSignal
                 (producer_is_stopped s) (consumer_at s)
                 (consumer_is_stopped s) (put_log s) (dispatched s)
                 (notified s) (warnings s) (waits s))
  | PSignal =>
      if full (bucket s) || Producer.eof_reached (producer s) then
        Some (mk None (bucket s) (producer s) PEof (producer_is_stopped s)
                 (consumer_at s) (consumer_is_stopped s) (put_log s)
                 (dispatched s) (notified s ++ [ProducerThread])%list
                 (warnings s) (waits s))
      else
        Some (mk (condition_owner s) (bucket s) (producer s) PEof
                 (producer_is_stopped s) (consumer_at s)
                 (consumer_is_stopped s) (put_log s) (dispatched s)
                 (notified s) (warnings s) (waits s))
  | PEof =>
      match Producer.run_eof (producer s) with
      | Some st =>
          Some (mk (condition_owner s) (bucket s) st PLoop
                   (producer_is_stopped s) (consumer_at s)
                   (consumer_is_stopped s) (put_log s) (dispatched s)
                   (notified s) (warnings s) (waits s))
      | None =>
          Some (mk (condition_owner s) (bucket s) (producer s) PReturned
                   (producer_is_stopped s) (consumer_at s)
                   (consumer_is_stopped s) (put_log s) (dispatched s)
                   (notified s) (warnings s) (waits s))
      end
  | PReturned => None
  | PRaised _ => None
  end.

(** One step of [Consumer.run]: the acquire, one pass of the inner [while]
    (a [get] and the [ensure_future] of [save_data]), or the notify and
    release. *)
Definition consumer_step (s : t) : option t :=
  match consumer_at s with
  | CAcquire =>
      match condition_owner s with
      | None =>
          Some (mk (Some ConsumerThread) (bucket s) (producer s)
                   (producer_at s) (producer_is_stopped s) CDrain
                   (consumer_is_stopped s) (put_log s) (dispatched s)
                   (notified s) (warnings s) (waits s))
      | Some _ => None
      end
  | CDrain =>
      match get (bucket s) with
      | Some (d, q) =>
          Some (mk (condition_owner s) q (producer s) (producer_at s)
                   (producer_is_stopped s) CDrain (consumer_is_stopped s)
                   (put_log s) (dispatched s ++ [d])%list (notified s)
                   (warnings s) (waits s))
      | None =>
          Some (mk (condition_owner s) (bucket s) (producer s) (producer_at s)
                   (producer_is_stopped s) CRelease (consumer_is_stopped s)
                   (put_log s) (dispatched s) (notified s) (warnings s) (waits s))
      end
  | CRelease =>
      Some (mk None (bucket s) (producer s) (producer_at s)
               (producer_is_stopped s) CAcquire (consumer_is_stopped s)
               (put_log s) (dispatched s)
               (notified s ++ [ConsumerThread])%list (warnings s) (waits s))
  end.

(** The interleavings: at each step either thread moves, if it can.  The
    flag is the value of [wait_event] at that moment. *)
Inductive step (flag : bool) : t -> t -> Prop :=
| step_producer : forall elapsed now s s',
    producer_step flag elapsed now s = Some s' -> step flag s s'
| step_consumer : forall s s',
    consumer_step s = Some s' -> step flag s s'.

Inductive steps (flag : bool) : t -> t -> Prop :=
| steps_refl : forall s, steps flag s s
| steps_cons : forall s s' s'',
    step flag s s' -> steps flag s' s'' -> steps flag s s''.

(** No thread can move. *)
Definition stuck (flag : bool) (s : t) : Prop :=
  forall s', ~ step flag s s'.

End WithEnv.

(** The session [plugin_start] sets up: a free lock, an empty queue, both
    threads at the top of [run]. *)
Definition start (maxsize : Z) (p : Producer.t) : t :=
  mk None (mkQueue maxsize []) (Producer.mkState p false None) PLoop false
     CAcquire false [] [] [] [] [].

End Session.

(* ================================================================== *)
(** * The module-level globals, plugin_start and plugin_shutdown *)

Module Plugin.

(** The globals of the module.  [producer] and [consumer] are [None] or
    refer to the thread objects of the session in [threads]; the globals
    [bucket] and [condition] are the queue and the lock of that session and
    are kept with it. *)
Record globals : Type := mkGlobals {
  producer : option Threading.thread;
  consumer : option Threading.thread;
  BUCKET_SIZE : Z;
  wait_event : bool
}.

(** The values the module is loaded with. *)
Definition loaded : globals := mkGlobals None None 1 false.

(** The process: the globals, and the threads of the session started last
    with the objects they share (one session is followed at a time). *)
Record process : Type := mkProcess {
  glob : globals;
  threads : option Session.t
}.

(** [plugin_start(handle)] up to the start of the two threads (the final
    [bucket.join()] of the caller is not followed).  An exception of [int()]
    or of [Producer.__init__] leaves the globals as they are at that
    point. *)
Definition plugin_start (w : process) (h : handle) : result unit * process :=
  let g := glob w in
  let size : result Z :=
    if String.eqb (timestampFromFile h) "false" then py_int (sampleRate h)
    else Ok (BUCKET_SIZE g) in
  match size with
  | Raise e => (Raise e, w)
  | Ok n =>
      let g := mkGlobals (producer g) (consumer g) n (wait_event g) in
      match Producer.__init__ h with
      | Raise e => (Raise e, mkProcess g (threads w))
      | Ok p =>
          (Ok tt,
           mkProcess (mkGlobals (Some Threading.ProducerThread)
                                (Some Threading.ConsumerThread) n false)
                     (Some (Session.start n p)))
      end
  end.

(** [thread._tstate_lock = None; thread._stop()]: the thread object is
    marked as stopped; the thread itself is not touched. *)
Definition mark_stopped (which : Threading.thread) (s : Session.t) : Session.t :=
  match which with
  | Threading.ProducerThread =>
      Session.mk (Session.condition_owner s) (Session.bucket s)
        (Session.producer s) (Session.producer_at s) true
        (Session.consumer_at s) (Session.consumer_is_stopped s)
        (Session.put_log s) (Session.dispatched s) (Session.notified s)
        (Session.warnings s) (Session.waits s)
  | Threading.ConsumerThread =>
      Session.mk (Session.condition_owner s) (Session.bucket s)
        (Session.producer s) (Session.producer_at s)
        (Session.producer_is_stopped s) (Session.consumer_at s) true
        (Session.put_log s) (Session.dispatched s) (Session.notified s)
        (Session.warnings s) (Session.waits s)
  end.

Definition stop_if_set (ref : option Threading.thread) (s : option Session.t)
  : option Session.t :=
  match ref with
  | Some which => option_map (mark_stopped which) s
  | None => s
  end.

(** [plugin_shutdown(handle)]. *)
Definition plugin_shutdown (w : process) : process :=
  let g := glob w in
  let s := stop_if_set (producer g) (threads w) in
  let s := stop_if_set (consumer g) s in
  mkProcess (mkGlobals None None (BUCKET_SIZE g) true) s.

Section WithEnv.

Variable env : Env.
Variable file : csv_file.

(** The threads of the process run on, each step under the current value
    of [wait_event]. *)
Inductive run : process -> process -> Prop :=
| run_refl : forall w, run w w
| run_step : forall g s s' w,
    Session.step env file (wait_event g) s s' ->
    run (mkProcess g (Some s')) w ->
    run (mkProcess g (Some s)) w.

End WithEnv.

(** The capacity the data model of the specification gives the queue of a
    session started with [h]. *)
Definition expected_capacity (h : handle) : result Z :=
  if String.eqb (timestampFromFile h) "true" then Ok 1
  else py_int (sampleRate h).

End Plugin.

(* ================================================================== *)
(** * The conditions of an initialization error *)

Module InitSpec.
Section WithFileSystem.

Variable FOGLAMP_DATA : string.
Variable isfile : string -> bool.

(** The tests of [plugin_init] on a handle whose three numbers are [sr],
    [bs] and [bi], each with its message, in the order of the code. *)
Definition violations (h : handle) (sr bs bi : Z) : list (bool * string) :=
  [ (negb (isfile (Init.csv_file_name FOGLAMP_DATA h)),
     Init.msg_not_found FOGLAMP_DATA h);
    (String.eqb (csvFilename h) EmptyString, Init.msg_empty);
    ((sr <? 1) || (sr >? 1000000), Init.msg_sampleRate);
    (bs <? 1, Init.msg_burstSize);
    (bi <? 1, Init.msg_burstInterval);
    (negb (str_in (ingestMode h) ["burst"; "realtime"; "batch"]),
     Init.msg_ingestMode) ].

(** The condition in the words of the specification, which documents the
    two ingest modes [batch] and [burst]. *)
Definition specified_error (h : handle) (sr bs bi : Z) : Prop :=
  isfile (Init.csv_file_name FOGLAMP_DATA h) = false \/
  csvFilename h = EmptyString \/
  sr < 1 \/ 1000000 < sr \/ bs < 1 \/ bi < 1 \/
  ~ In (ingestMode h) ["batch"; "burst"].

(** The condition of the code, which also accepts [realtime]. *)
Definition coded_error (h : handle) (sr bs bi : Z) : Prop :=
  isfile (Init.csv_file_name FOGLAMP_DATA h) = false \/
  csvFilename h = EmptyString \/
  sr < 1 \/ 1000000 < sr \/ bs < 1 \/ bi < 1 \/
  ~ In (ingestMode h) ["burst"; "realtime"; "batch"].

End WithFileSystem.
End InitSpec.

(** Handles that differ from the defaults in one item. *)
Definition with_ingestMode (h : handle) (v : string) : handle :=
  mkHandle (assetName h) (csvFilename h) (headerRow h) (fieldNames h)
    (readingCols h) (timestampFromFile h) (timestampCol h) (timestampFormat h)
    v (sampleRate h) (burstInterval h) (burstSize h) (repeatLoop h).

Definition with_timestampFromFile (h : handle) (v : string) : handle :=
  mkHandle (assetName h) (csvFilename h) (headerRow h) (fieldNames h)
    (readingCols h) v (timestampCol h) (timestampFormat h)
    (ingestMode h) (sampleRate h) (burstInterval h) (burstSize h) (repeatLoop h).

Definition with_sampleRate (h : handle) (v : string) : handle :=
  mkHandle (assetName h) (csvFilename h) (headerRow h) (fieldNames h)
    (readingCols h) (timestampFromFile h) (timestampCol h) (timestampFormat h)
    (ingestMode h) v (burstInterval h) (burstSize h) (repeatLoop h).

Definition with_burstInterval (h : handle) (v : string) : handle :=
  mkHandle (assetName h) (csvFilename h) (headerRow h) (fieldNames h)
    (readingCols h) (timestampFromFile h) (timestampCol h) (timestampFormat h)
    (ingestMode h) (sampleRate h) v (burstSize h) (repeatLoop h).

Definition with_burstSize (h : handle) (v : string) : handle :=
  mkHandle (assetName h) (csvFilename h) (headerRow h) (fieldNames h)
    (readingCols h) (timestampFromFile h) (timestampCol h) (timestampFormat h)
    (ingestMode h) (sampleRate h) (burstInterval h) v (repeatLoop h).

(* ================================================================== *)
(** * Schedules, and an instance of the environment *)

Module Schedule.

(** A move of one of the two threads; the Producer's comes with the two
    clock readings of its pass. *)
Inductive move : Type :=
| P (elapsed : Float.float) (now : string)
| C.

(** Runs a schedule; [None] when a thread is asked to move and cannot. *)
Fixpoint exec (env : Env) (file : csv_file) (flag : bool) (ms : list move)
  (s : Session.t) : option Session.t :=
  match ms with
  | [] => Some s
  | P elapsed now :: ms' =>
      match Session.producer_step env file flag elapsed now s with
      | Some s' => exec env file flag ms' s'
      | None => None
      end
  | C :: ms' =>
      match Session.consumer_step s with
      | Some s' => exec env file flag ms' s'
      | None => None
      end
  end.

(** [n] moves of the Producer, with no time spent in the pass. *)
Definition producer_moves (n : nat) (now : string) : list move :=
  repeat (P (S754_zero false) now) n.

End Schedule.

(** Two decimal digits as a number. *)
Definition two_digits (a b : ascii) : option Z :=
  if is_digit a && is_digit b then Some (10 * digit_val a + digit_val b)
  else None.

(** [strptime] for the format [%H:%M:%S] on a text [HH:MM:SS] of two-digit
    fields: the microseconds since the midnight of the default date.  Any
    other text or format is answered with [ValueError] here. *)
Definition strptime_hms (text format : string) : result Z :=
  if String.eqb format "%H:%M:%S" then
    match chars text with
    | [h1; h2; c1; m1; m2; c2; s1; s2] =>
        match two_digits h1 h2, two_digits m1 m2, two_digits s1 s2 with
        | Some h, Some m, Some sec =>
            if (code c1 =? 58) && (code c2 =? 58) &&
               (h <? 24) && (m <? 60) && (sec <? 62)
            then Ok (((h * 60 + m) * 60 + sec) * 1000000)
            else Raise ValueError
        | _, _, _ => Raise ValueError
        end
    | _ => Raise ValueError
    end
  else Raise ValueError.

(** An environment for the examples: the interpreter refuses the texts
    outside the numeric alphabet with [SyntaxError], and [strptime] is
    [strptime_hms]. *)
Definition example_env : Env :=
  mkEnv (fun _ => Raise SyntaxError) strptime_hms.

(** A handle for replay from the column [ts] in the format [%H:%M:%S]. *)
Definition replay_handle : handle :=
  mkHandle "sample" "some.csv" "true" "None" [] "true" "ts" "%H:%M:%S"
    "batch" "100" "1000" "1" "false".

(* ================================================================== *)
(** * States along a schedule *)

(** The states a schedule goes through, the first one included, up to the
    first move that cannot be made. *)
Fixpoint trace (env : Env) (file : csv_file) (flag : bool)
  (ms : list Schedule.move) (s : Session.t) : list Session.t :=
  match ms with
  | [] => [s]
  | Schedule.P elapsed now :: ms' =>
      match Session.producer_step env file flag elapsed now s with
      | Some s' => s :: trace env file flag ms' s'
      | None => [s]
      end
  | Schedule.C :: ms' =>
      match Session.consumer_step s with
      | Some s' => s :: trace env file flag ms' s'
      | None => [s]
      end
  end.

(** The Producer signals at this step: it stands at the last [if] of its
    pass, with the queue full or the end of the data reached. *)
Definition signals_now (s : Session.t) : bool :=
  match Session.producer_at s with
  | Session.PSignal =>
      Threading.full (Session.bucket s) ||
      Producer.eof_reached (Session.producer s)
  | _ => false
  end.

(** The lock protects the queue: a thread that stands between its acquire
    and its release owns the lock. *)
Definition lock_inv (s : Session.t) : Prop :=
  (match Session.producer_at s with
   | Session.PPut _ _ | Session.PSignal =>
       Session.condition_owner s = Some Threading.ProducerThread
   | _ => True
   end) /\
  (match Session.consumer_at s with
   | Session.CDrain | Session.CRelease =>
       Session.condition_owner s = Some Threading.ConsumerThread
   | Session.CAcquire =>
       Session.condition_owner s <> Some Threading.ConsumerThread
   end).

(** What was handed over and what is still queued make up what was put, in
    order. *)
Definition fifo_inv (s : Session.t) : Prop :=
  (Session.dispatched s ++ Threading.items (Session.bucket s))%list
  = Session.put_log s.

(** A bounded queue holds no more than its capacity. *)
Definition bounded_inv (s : Session.t) : Prop :=
  0 < Threading.maxsize (Session.bucket s) ->
  Threading.qsize (Session.bucket s) <= Threading.maxsize (Session.bucket s).

(** A recording of three records with one and the same timestamp. *)
Definition same_time_file : csv_file :=
  mkCsv "ts,v" [["ts"; "v"]; ["10:00:00"; "1"]; ["10:00:00"; "2"];
                ["10:00:00"; "3"]].

(** A recording of three records of two fields. *)
Definition three_rows_file : csv_file :=
  mkCsv "a,b" [["a"; "b"]; ["1"; "2"]; ["3"; "4"]; ["5"; "6"]].

(** The session [plugin_start] sets up in a process that has just loaded
    the module, when it succeeds. *)
Definition first_session (h : handle) : option Session.t :=
  Plugin.threads (snd (Plugin.plugin_start (Plugin.mkProcess Plugin.loaded None) h)).

(** The session of the default configuration (batch, sampleRate 100): a
    queue of 100 and a period of 0.01 s. *)
Definition batch_session : Session.t :=
  Session.start 100
    (Producer.mk default_handle (Float.of_decimal false 1 2)
       Producer.GenCreated [] None).

(** The state a schedule leads to (the state itself when a thread is asked
    to move and cannot). *)
Definition after (env : Env) (file : csv_file) (flag : bool)
  (ms : list Schedule.move) (s : Session.t) : Session.t :=
  match Schedule.exec env file flag ms s with
  | Some s' => s'
  | None => s
  end.

(** A float that is finite and not negative, as the time a pass has taken
    is on a clock that does not go back. *)
Definition nonnegative (x : Float.float) : bool :=
  match x with
  | S754_zero _ | S754_finite false _ _ => true
  | _ => false
  end.

(** A delay that is zero or negative. *)
Definition nonpositive (x : Float.float) : bool :=
  match x with
  | S754_zero _ | S754_finite true _ _ | S754_infinity true => true
  | _ => false
  end.

(** A Producer in the middle of a replay: the previous record carried the
    time 10:00:00. *)
Definition replay_producer : Producer.t :=
  Producer.mk replay_handle (Float.of_decimal false 1 2) Producer.GenCreated []
    (Some 36000000000).

(** A recording with the three timestamps of the specification. *)
Definition spaced_file : csv_file :=
  mkCsv "ts,v" [["ts"; "v"]; ["10:00:00"; "1"]; ["10:00:30"; "2"];
                ["10:01:00"; "3"]].

(** A pass of the Producer that puts one envelope, then a pass of the
    Consumer that takes it. *)
Definition one_pass_each : list Schedule.move :=
  (Schedule.producer_moves 5 "t" ++
   [Schedule.C; Schedule.C; Schedule.C; Schedule.C])%list.

(** The delays [next_iteration_secs] of the first [n] passes of a session,
    the Consumer draining the queue after each pass. *)
Definition delays (env : Env) (file : csv_file) (n : nat) (s : Session.t)
  : list (option Float.float) :=
  map (fun k => Producer.next_iteration_secs
                  (Session.producer
                     (after env file false
                        (List.concat (repeat one_pass_each k) ++
                         Schedule.producer_moves 1 "t")%list s)))
      (seq 0 n).

(** The burst configuration with the flag of timestamp replay set. *)
Definition burst_handle (burst_interval burst_size : string) : handle :=
  mkHandle "sample" "some.csv" "true" "None" [] "true" "ts" "%H:%M:%S"
    "burst" "100" burst_interval burst_size "false".

(** Powers of two as rationals, and the share of the binary roundings in
    the error of a quotient rounded to decimal places: three roundings to
    53 bits and two underflows. *)
Definition pow2 (e : Z) : Q := ((2 # 1) ^ e)%Q.

Definition binary_slack (v : Q) : Q :=
  ((3 * v + 1) * pow2 (-53) + pow2 (-1074))%Q.

(** The integer nearest to a rational, ties to even. *)
Definition Qround_half_even (x : Q) : Z :=
  Float.round_half_even (Qnum x) (Zpos (Qden x)).

(** A float rounded to [k] decimal places: the numeral with [k] places
    nearest to the exact value of the float, read as a float. *)
Definition rounded_to_places (x : Float.float) (k : Z) : Float.float :=
  Float.of_decimal false
    (Qround_half_even (Float.to_Q x * inject_Z (10 ^ k))) k.

(** A recording whose second record has a timestamp that does not parse. *)
Definition bad_time_file : csv_file :=
  mkCsv "ts,v" [["ts"; "v"]; ["10:00:00"; "1"]; ["bad"; "2"];
                ["10:00:30"; "3"]].

(** Pairs of integers on which the rounding above is compared with the
    division of the standard library's specification of floats. *)
Definition sample_pairs : list (Z * Z) :=
  (list_prod (map Z.of_nat (seq 1 40)) (map Z.of_nat (seq 1 40)) ++
   [(2 ^ 70 + 12345, 7); (1, 10 ^ 20 + 1); (10 ^ 300, 3); (3, 10 ^ 300);
    (1, 2 ^ 1000); (2 ^ 53 + 1, 1); (2 ^ 53 + 3, 1)])%list.

Definition float_of_int (n : Z) : Float.float :=
  match Float.of_int n with
  | Ok x => x
  | Raise _ => S754_nan
  end.

(* ================================================================== *)
(** * Further definitions: ended threads, the generator over several calls,
      dicts with distinct keys, plugin_reconfigure *)

(** [Producer.run] has ended: it has returned or an exception has left
    it. *)
Definition producer_ended (s : Session.t) : bool :=
  match Session.producer_at s with
  | Session.PReturned | Session.PRaised _ => true
  | _ => false
  end.

(** [Producer.run] was left by the exception of a wait that refused its
    timeout. *)
Definition wait_refused (s : Session.t) : bool :=
  match Session.producer_at s with
  | Session.PRaised OverflowError | Session.PRaised ValueError => true
  | _ => false
  end.

(** What holds of the Producer's delay and of an ended Producer: while
    [next_iteration_secs] is unbound the Producer stands at the top of its
    loop or has been left by the exception, it does not own the lock and
    nothing has been put; the exceptions that leave [run] are the one of
    the unbound local and those of a wait that refuses its timeout; a
    Producer at the
    end of a pass that reached the end of the data, or returned, does not
    own the lock. *)
Definition ended_inv (s : Session.t) : Prop :=
  (Producer.next_iteration_secs (Session.producer s) = None ->
     (Session.producer_at s = Session.PLoop \/
      Session.producer_at s = Session.PRaised UnboundLocalError) /\
     Session.condition_owner s <> Some Threading.ProducerThread /\
     Session.put_log s = []) /\
  (forall e, Session.producer_at s = Session.PRaised e ->
     (e = UnboundLocalError /\
      Producer.next_iteration_secs (Session.producer s) = None) \/
     e = OverflowError \/ e = ValueError) /\
  (Session.producer_at s = Session.PReturned ->
     Session.condition_owner s <> Some Threading.ProducerThread) /\
  (Session.producer_at s = Session.PEof ->
     Producer.eof_reached (Session.producer s) = true ->
     Session.condition_owner s <> Some Threading.ProducerThread).

(** [n] moves of the Consumer. *)
Definition consumer_moves (n : nat) : list Schedule.move :=
  repeat Schedule.C n.

(** The Producer of the default configuration, as [__init__] leaves it. *)
Definition default_producer : Producer.t :=
  Producer.mk default_handle (Float.of_decimal false 1 2)
    Producer.GenCreated [] None.

(** What the threads of a session have done and where they stand: all of
    the session but the bookkeeping of the two [Thread] objects and the
    record of the waits. *)
Definition observable (s : Session.t) :=
  (Session.condition_owner s, Session.bucket s, Session.producer s,
   Session.producer_at s, Session.consumer_at s, Session.put_log s,
   Session.dispatched s, Session.notified s, Session.warnings s).

(** The value of a run of decimal digits, most significant first. *)
Definition decimal_value (ds : list ascii) : Z :=
  fold_left (fun acc c => 10 * acc + digit_val c) ds 0.

Definition is_zero_digit (c : ascii) : bool := code c =? 48.

(** A decimal integer literal of Python: digits, the first of which is not
    0 unless all are. *)
Definition is_decimal_literal (ds : list ascii) : bool :=
  match ds with
  | [] => false
  | c :: r =>
      forallb is_digit ds && (negb (is_zero_digit c) || forallb is_zero_digit r)
  end.

(** Digits that start with 0 and are not all 0, as in ["007"]. *)
Definition has_leading_zero (ds : list ascii) : bool :=
  match ds with
  | [] => false
  | c :: r =>
      forallb is_digit ds && is_zero_digit c && negb (forallb is_zero_digit r)
  end.

Definition minus_sign : ascii := "-"%char.

(** [n] calls of [next(self.iter_sensor_data)] in a row: what each of them
    gave, and the Producer after the last. *)
Fixpoint next_n (env : Env) (file : csv_file) (n : nat) (p : Producer.t)
  : list (result record) * Producer.t :=
  match n with
  | O => ([], p)
  | S n' =>
      let '(r, p1) := Producer.next_sensor_data env file p in
      let '(rs, p2) := next_n env file n' p1 in
      (r :: rs, p2)
  end.

(** A recording whose second record has a field that is no literal. *)
Definition bad_field_file : csv_file :=
  mkCsv "a,b" [["a"; "b"]; ["1"; "2"]; ["1.2.3"; "4"]; ["5"; "6"]].

(** The keys of a dict are distinct. *)
Fixpoint distinct {V : Type} (d : list (string * V)) : bool :=
  match d with
  | [] => true
  | (k, _) :: d' => negb (existsb (String.eqb k) (map fst d')) && distinct d'
  end.

(** [field_names] of [get_data]: the names of the header row, or those of
    the configuration, or [None]. *)
Definition field_names (file : csv_file) (h : handle) : option (list string) :=
  if String.eqb (headerRow h) "true" then
    Some (split_comma (clean_header (first_line file)) [])
  else if String.eqb (fieldNames h) "None" then None
  else Some (split_comma (chars (fieldNames h)) []).

(** The character is one that [get_data] removes from the header line, or
    the comma at which it splits the line. *)
Definition removed_from_header (c : ascii) : bool :=
  (code c =? 10) || (code c =? 13) || (code c =? 32) || (code c =? 44).

(** A handle that selects and renames two columns. *)
Definition renaming_producer : Producer.t :=
  Producer.mk default_handle (Float.of_decimal false 1 2) Producer.GenCreated
    [("a", "first"); ("b", "second")] None.

(** The wait did not block. *)
Definition is_immediate (w : Threading.waited) : bool :=
  match w with
  | Threading.Immediately => true
  | Threading.UpTo _ => false
  end.

(** The Producer of the default configuration with repeatLoop set. *)
Definition repeating_producer : Producer.t :=
  Producer.mk
    (mkHandle (assetName default_handle) (csvFilename default_handle)
       (headerRow default_handle) (fieldNames default_handle)
       (readingCols default_handle) (timestampFromFile default_handle)
       (timestampCol default_handle) (timestampFormat default_handle)
       (ingestMode default_handle) (sampleRate default_handle)
       (burstInterval default_handle) (burstSize default_handle) "true")
    (Float.of_decimal false 1 2) Producer.GenCreated [] None.

Module Reconfigure.
Section WithFileSystem.

Variable FOGLAMP_DATA : string.
Variable isfile : string -> bool.

(** The keys whose change makes the plugin restart, in the order of the
    test of [plugin_reconfigure]. *)
Definition restart_keys : list string :=
  ["assetName"; "csvFilename"; "headerRow"; "fieldNames"; "readingCols";
   "timestampFromFile"; "timestampCol"; "timestampFormat"; "sampleRate";
   "ingestMode"; "burstSize"; "burstInterval"; "repeatLoop"].

(** [plugin_reconfigure(handle, new_config)].  [diff] is what
    [utils.get_diff(handle, new_config)] returns; the result is the new
    handle with its ['restart'] entry, then the log and the process.  The
    old handle is not read ([plugin_shutdown] ignores its argument), and
    the [info] messages are not recorded. *)
Definition plugin_reconfigure (diff : list string) (w : Plugin.process)
  (new_config : handle) (log : list string)
  : result (handle * string) * list string * Plugin.process :=
  if existsb (fun k => str_in k diff) restart_keys then
    let w := Plugin.plugin_shutdown w in
    match Init.plugin_init FOGLAMP_DATA isfile new_config log with
    | (Ok new_handle, log) => (Ok (new_handle, "yes"), log, w)
    | (Raise e, log) => (Raise e, log, w)
    end
  else (Ok (new_config, "no"), log, w).

End WithFileSystem.
End Reconfigure.

(** A process in which [plugin_start] has started the default session. *)
Definition started_process : Plugin.process :=
  snd (Plugin.plugin_start (Plugin.mkProcess Plugin.loaded None) default_handle).

Definition point : ascii := "."%char.

(** The text of a decimal number: the digits before the point, the point,
    the digits after it. *)
Definition decimal_text (ip fp : list ascii) : list ascii :=
  (ip ++ point :: fp)%list.

(** A replay whose timestamps are written with digits only. *)
Definition digits_time_handle : handle :=
  mkHandle "sample" "some.csv" "true" "None" [] "true" "ts" "%H%M%S"
    "batch" "100" "1000" "1" "false".

Definition digits_time_producer : Producer.t :=
  Producer.mk digits_time_handle (Float.of_decimal false 1 2)
    Producer.GenCreated [] None.

Definition digits_time_file : csv_file :=
  mkCsv "ts,v" [["ts"; "v"]; ["100000"; "1"]; ["100030"; "2"]].

(* ================================================================== *)
(** * Theorems *)


(* ------------------------------------------------------------------ *)
(** ** plugin_init *)

Section InitTheorems.

Variable FOGLAMP_DATA : string.
Variable isfile : string -> bool.

Lemma str_in_spec : forall s l, str_in s l = true <-> In s l.
Proof.
  intros s l. unfold str_in. rewrite existsb_exists. split.
  - intros [x [Hin Heq]]. apply String.eqb_eq in Heq. now subst.
  - intros Hin. exists s. split; [assumption | apply String.eqb_refl].
Qed.

(** On a handle whose numbers parse, [plugin_init] is decided by the list of
    tests: it raises when one of them holds, after logging the message of
    every one that holds, and returns the handle otherwise. *)
Lemma plugin_init_by_tests : forall h sr bs bi,
  py_int (sampleRate h) = Ok sr ->
  py_int (burstSize h) = Ok bs ->
  py_int (burstInterval h) = Ok bi ->
  Init.plugin_init FOGLAMP_DATA isfile h [] =
    (if existsb fst (InitSpec.violations FOGLAMP_DATA isfile h sr bs bi)
     then Raise RuntimeError else Ok h,
     map snd (filter fst (InitSpec.violations FOGLAMP_DATA isfile h sr bs bi))).
Proof.
  intros h sr bs bi Hsr Hbs Hbi.
  unfold Init.plugin_init, Init.plugin_init_checks, Init.lbind, Init.lift,
    Init.check, Init.LOGGER_exception, Init.ret, InitSpec.violations.
  rewrite Hsr, Hbs, Hbi. cbn [existsb filter map fst snd].
  destruct (negb (isfile (Init.csv_file_name FOGLAMP_DATA h)));
  destruct (String.eqb (csvFilename h) EmptyString);
  destruct ((sr <? 1) || (sr >? 1000000));
  destruct (bs <? 1); destruct (bi <? 1);
  destruct (negb (str_in (ingestMode h) ["burst"; "realtime"; "batch"]));
  reflexivity.
Qed.

Lemma violations_coded_error : forall h sr bs bi,
  existsb fst (InitSpec.violations FOGLAMP_DATA isfile h sr bs bi) = true <->
  InitSpec.coded_error FOGLAMP_DATA isfile h sr bs bi.
Proof.
  intros h sr bs bi. unfold InitSpec.violations, InitSpec.coded_error.
  cbn [existsb fst]. rewrite orb_false_r, !orb_true_iff.
  rewrite !negb_true_iff, String.eqb_eq, !Z.ltb_lt, Z.gtb_lt.
  rewrite <- (str_in_spec (ingestMode h)).
  destruct (str_in (ingestMode h) ["burst"; "realtime"; "batch"]); intuition congruence.
Qed.

(** C7 (amended): on a handle whose three numbers parse, [plugin_init]
    raises its error exactly when the file is missing, the file name is
    empty, sampleRate is outside 1..1000000, burstSize or burstInterval is
    below 1, or ingestMode is none of burst, realtime and batch; the message
    of every violation present is logged before the one error is raised;
    otherwise the handle is returned unchanged and nothing is logged. *)
Theorem plugin_init_raises_iff : forall h sr bs bi,
  py_int (sampleRate h) = Ok sr ->
  py_int (burstSize h) = Ok bs ->
  py_int (burstInterval h) = Ok bi ->
  let r := Init.plugin_init FOGLAMP_DATA isfile h [] in
  (fst r = Raise RuntimeError <->
     InitSpec.coded_error FOGLAMP_DATA isfile h sr bs bi) /\
  (forall test msg,
     In (test, msg) (InitSpec.violations FOGLAMP_DATA isfile h sr bs bi) ->
     test = true -> In msg (snd r)) /\
  (~ InitSpec.coded_error FOGLAMP_DATA isfile h sr bs bi -> r = (Ok h, [])).
Proof.
  intros h sr bs bi Hsr Hbs Hbi r. subst r.
  rewrite (plugin_init_by_tests h sr bs bi Hsr Hbs Hbi).
  rewrite <- violations_coded_error.
  set (v := InitSpec.violations FOGLAMP_DATA isfile h sr bs bi).
  cbn [fst snd]. split; [|split].
  - destruct (existsb fst v); split; congruence.
  - intros test msg Hin Ht.
    apply in_map_iff. exists (test, msg). split; [reflexivity|].
    apply filter_In. split; [assumption | exact Ht].
  - intros Hno. destruct (existsb fst v) eqn:E; [tauto|].
    f_equal. replace (filter fst v) with (@nil (bool * string)); [reflexivity|].
    symmetry. clear -E. induction v as [|[b m] v IH]; [reflexivity|].
    cbn in *. apply orb_false_iff in E. destruct E as [-> E]. auto.
Qed.

End InitTheorems.

Lemma plugin_init_raises_iff_witness :
  let r := Init.plugin_init "/usr/local/foglamp/data" (fun _ => true)
             default_handle [] in
  (fst r = Raise RuntimeError <->
     InitSpec.coded_error "/usr/local/foglamp/data" (fun _ => true)
       default_handle 100 1 1000) /\
  (forall test msg,
     In (test, msg) (InitSpec.violations "/usr/local/foglamp/data"
                       (fun _ => true) default_handle 100 1 1000) ->
     test = true -> In msg (snd r)) /\
  (~ InitSpec.coded_error "/usr/local/foglamp/data" (fun _ => true)
       default_handle 100 1 1000 -> r = (Ok default_handle, [])).
Proof.
  apply (plugin_init_raises_iff "/usr/local/foglamp/data" (fun _ => true)
           default_handle 100 1 1000); reflexivity.
Defined.

(** C7 as stated fails: with ingestMode [realtime] and everything else in
    order, the condition of the specification holds and [plugin_init]
    returns the handle. *)
Lemma plugin_init_accepts_realtime :
  let h := with_ingestMode default_handle "realtime" in
  ~ (fst (Init.plugin_init "/usr/local/foglamp/data" (fun _ => true) h [])
       = Raise RuntimeError <->
     InitSpec.specified_error "/usr/local/foglamp/data" (fun _ => true)
       h 100 1 1000).
Proof.
  intros h [_ H].
  assert (E : fst (Init.plugin_init "/usr/local/foglamp/data" (fun _ => true) h [])
              = Ok h) by reflexivity.
  rewrite E in H. discriminate H.
  unfold InitSpec.specified_error. do 6 right.
  intros [Hin | [Hin | []]]; discriminate Hin.
Qed.

(* ------------------------------------------------------------------ *)
(** ** plugin_start and the size of the queue *)

(** The queue of a session has the size of the global [BUCKET_SIZE]:
    [int(sampleRate)] when timestampFromFile is [false], else whatever the
    global held before the call. *)
Lemma plugin_start_bucket_size : forall w h w' s,
  Plugin.plugin_start w h = (Ok tt, w') ->
  Plugin.threads w' = Some s ->
  Ok (Threading.maxsize (Session.bucket s)) =
    (if String.eqb (timestampFromFile h) "false" then py_int (sampleRate h)
     else Ok (Plugin.BUCKET_SIZE (Plugin.glob w))).
Proof.
  intros w h w' s. unfold Plugin.plugin_start.
  destruct (String.eqb (timestampFromFile h) "false").
  - destruct (py_int (sampleRate h)) as [n|e]; [|discriminate].
    destruct (Producer.__init__ h); [|discriminate].
    intros H Hs. inversion H; subst w'. cbn in Hs. inversion Hs. reflexivity.
  - destruct (Producer.__init__ h); [|discriminate].
    intros H Hs. inversion H; subst w'. cbn in Hs. inversion Hs. reflexivity.
Qed.

(** In a process that has started no session before, the queue has the
    capacity the data model gives. *)
Lemma plugin_start_first_session_capacity : forall h w' s,
  Plugin.plugin_start (Plugin.mkProcess Plugin.loaded None) h = (Ok tt, w') ->
  Plugin.threads w' = Some s ->
  timestampFromFile h = "true" \/ timestampFromFile h = "false" ->
  Ok (Threading.maxsize (Session.bucket s)) = Plugin.expected_capacity h.
Proof.
  intros h w' s H Hs Hts.
  rewrite (plugin_start_bucket_size _ _ _ _ H Hs).
  unfold Plugin.expected_capacity.
  destruct Hts as [-> | ->]; reflexivity.
Qed.

(** C5 at a failing input: a session with timestampFromFile [false] and
    sampleRate 100, a shutdown, then a session with timestampFromFile
    [true]: the queue of the second session has capacity 100, where the data
    model gives 1. *)
Theorem plugin_start_keeps_previous_bucket_size :
  let first := default_handle in
  let second := with_timestampFromFile default_handle "true" in
  exists w1 w2 s,
    Plugin.plugin_start (Plugin.mkProcess Plugin.loaded None) first = (Ok tt, w1) /\
    Plugin.plugin_start (Plugin.plugin_shutdown w1) second = (Ok tt, w2) /\
    Plugin.threads w2 = Some s /\
    Threading.maxsize (Session.bucket s) = 100 /\
    Plugin.expected_capacity second = Ok 1.
Proof.
  cbv zeta.
  destruct (Plugin.plugin_start (Plugin.mkProcess Plugin.loaded None) default_handle)
    as [r w1] eqn:E1.
  vm_compute in E1. inversion E1; subst r w1; clear E1.
  eexists. 
  destruct (Plugin.plugin_start (Plugin.plugin_shutdown _)
              (with_timestampFromFile default_handle "true")) as [r w2] eqn:E2 in |- *.
  vm_compute in E2. inversion E2; subst r w2; clear E2.
  eexists. eexists.
  split; [reflexivity|]. split; [reflexivity|]. split; [reflexivity|].
  split; reflexivity.
Qed.

(* ------------------------------------------------------------------ *)
(** ** Field coercion *)

Section CoercionTheorems.

Variable env : Env.

(** The five values of the specification. *)
Lemma coerce_examples :
  Producer.coerce env "123" = Ok (VInt 123) /\
  Producer.coerce env "1.50" = Ok (VFloat (S754_finite false 6755399441055744 (-52))) /\
  Float.to_Q (S754_finite false 6755399441055744 (-52)) == 3 # 2 /\
  Producer.coerce env "abc" = Ok (VStr "abc") /\
  Producer.coerce env "12a" = Ok (VStr "12a") /\
  Producer.coerce env "-3" = Ok (VInt (-3)).
Proof. repeat (split; [vm_compute; reflexivity|]). vm_compute; reflexivity. Qed.

(** Texts that [ast.literal_eval] accepts but that are no numeral stay
    strings through [except ValueError]. *)
Lemma coerce_falls_back_on_ValueError :
  Producer.coerce env "--3" = Ok (VStr "--3") /\
  Producer.coerce env "1-2" = Ok (VStr "1-2") /\
  Producer.coerce env "..." = Ok (VStr "...").
Proof. repeat (split; [vm_compute; reflexivity|]). vm_compute; reflexivity. Qed.

(** C1 at a failing input: an empty field.  [ast.literal_eval] raises
    [SyntaxError], which [except ValueError] does not catch: the exception
    leaves the generator, which is finished by it, and the row is not
    produced.  The same happens for a lone minus sign, a numeral with a
    leading zero and a numeral with two points. *)
Theorem coerce_empty_field_escapes :
  Producer.coerce env EmptyString = Raise SyntaxError /\
  Producer.coerce env "-" = Raise SyntaxError /\
  Producer.coerce env "007" = Raise SyntaxError /\
  Producer.coerce env "1.2.3" = Raise SyntaxError /\
  let file := mkCsv "a,b" [["a"; "b"]; ["1"; EmptyString]; ["2"; "3"]] in
  exists p p',
    Producer.__init__ default_handle = Ok p /\
    Producer.next_sensor_data env file p = (Raise SyntaxError, p') /\
    Producer.iter_sensor_data p' = Producer.GenFinished /\
    Producer.next_sensor_data env file p' = (Raise StopIteration, p').
Proof.
  repeat (split; [vm_compute; reflexivity|]).
  cbv zeta.
  destruct (Producer.__init__ default_handle) as [p|e] eqn:E.
  2: { vm_compute in E. discriminate E. }
  vm_compute in E. inversion E; subst p; clear E.
  eexists. eexists. split; [reflexivity|].
  split; [vm_compute; reflexivity|].
  split; vm_compute; reflexivity.
Qed.

End CoercionTheorems.

(* ------------------------------------------------------------------ *)
(** ** Schedules are interleavings *)

Lemma exec_steps : forall env file flag ms s s',
  Schedule.exec env file flag ms s = Some s' ->
  Session.steps env file flag s s'.
Proof.
  intros env file flag ms. induction ms as [|m ms IH]; intros s s' H.
  - cbn in H. inversion H. apply Session.steps_refl.
  - destruct m as [elapsed now|]; cbn in H.
    + destruct (Session.producer_step env file flag elapsed now s) as [s1|] eqn:E;
        [|discriminate].
      eapply Session.steps_cons; [|apply IH; exact H].
      eapply Session.step_producer; exact E.
    + destruct (Session.consumer_step s) as [s1|] eqn:E; [|discriminate].
      eapply Session.steps_cons; [|apply IH; exact H].
      apply Session.step_consumer; exact E.
Qed.

Lemma steps_run : forall env file g s s',
  Session.steps env file (Plugin.wait_event g) s s' ->
  Plugin.run env file (Plugin.mkProcess g (Some s)) (Plugin.mkProcess g (Some s')).
Proof.
  intros env file g s s' H. induction H.
  - apply Plugin.run_refl.
  - eapply Plugin.run_step; eassumption.
Qed.

(* ------------------------------------------------------------------ *)
(** ** Errors in a pass of Producer.run *)

(** C3 at a failing input: the first data row has an empty field.  The
    first pass catches the [SyntaxError] and logs it, but
    [next_iteration_secs] has never been assigned: the wait raises
    [UnboundLocalError] outside the [try], and [run] ends with nothing put
    in the queue and the second row never read. *)
Theorem first_tick_error_ends_producer : forall env elapsed now,
  let file := mkCsv "a,b" [["a"; "b"]; ["1"; EmptyString]; ["2"; "3"]] in
  exists p s',
    Producer.__init__ default_handle = Ok p /\
    Session.producer_step env file false elapsed now (Session.start 100 p) = Some s' /\
    Session.warnings s' = [Producer.producer_exception SyntaxError] /\
    Session.producer_at s' = Session.PRaised UnboundLocalError /\
    Session.put_log s' = [] /\
    forall flag elapsed' now',
      Session.producer_step env file flag elapsed' now' s' = None.
Proof.
  intros env elapsed now. cbv zeta.
  destruct (Producer.__init__ default_handle) as [p|e] eqn:E.
  2: { vm_compute in E. discriminate E. }
  vm_compute in E. inversion E; subst p; clear E.
  eexists. eexists. split; [reflexivity|].
  split; [vm_compute; reflexivity|].
  split; [reflexivity|]. split; [reflexivity|]. split; [reflexivity|].
  intros flag elapsed' now'. reflexivity.
Qed.

(** A malformed timestamp in a later pass does not skip the pass either:
    the readings were already in [sensor_data] when
    [get_time_stamp_diff] raised, so the record is put in the queue and
    handed over, with the delay of the pass before. *)
Lemma malformed_timestamp_record_is_emitted :
  match first_session replay_handle with
  | Some s0 =>
      let s := after example_env bad_time_file false
                 (one_pass_each ++ one_pass_each)%list s0 in
      Session.warnings s = [Producer.producer_exception RuntimeError] /\
      map Session.data (Session.dispatched s) =
        [Producer.Readings [("v", VInt 1)]; Producer.Readings [("v", VInt 2)]]
  | None => False
  end.
Proof. vm_compute. split; reflexivity. Qed.

(* ------------------------------------------------------------------ *)
(** ** plugin_shutdown *)

(** What the specification says of shutdown and holds: the cancellation
    signal is set and the globals are cleared; a second call changes
    nothing more; with no session the call only sets the signal. *)
Lemma plugin_shutdown_sets_signal : forall w,
  Plugin.glob (Plugin.plugin_shutdown w) =
    Plugin.mkGlobals None None (Plugin.BUCKET_SIZE (Plugin.glob w)) true.
Proof. reflexivity. Qed.

Lemma plugin_shutdown_idempotent : forall w,
  Plugin.plugin_shutdown (Plugin.plugin_shutdown w) = Plugin.plugin_shutdown w.
Proof. reflexivity. Qed.

Lemma plugin_shutdown_without_session :
  Plugin.plugin_shutdown (Plugin.mkProcess Plugin.loaded None) =
  Plugin.mkProcess (Plugin.mkGlobals None None 1 true) None.
Proof. reflexivity. Qed.

(** With the signal set the wait of the Producer does not block. *)
Lemma Event_wait_set : forall timeout,
  Threading.Event_wait true timeout = Ok Threading.Immediately.
Proof. reflexivity. Qed.

(** The steps of the two threads do not read the bookkeeping that
    [plugin_shutdown] changes. *)
Lemma producer_step_mark_stopped : forall env file flag elapsed now which s,
  Session.producer_step env file flag elapsed now (Plugin.mark_stopped which s) =
  option_map (Plugin.mark_stopped which)
    (Session.producer_step env file flag elapsed now s).
Proof.
  intros env file flag elapsed now which s.
  destruct s as [o b p pc ps cc cs pl d n w ws].
  unfold Session.producer_step.
  destruct which; cbn [Plugin.mark_stopped Session.producer_at Session.producer
    Session.condition_owner Session.bucket Session.producer_is_stopped
    Session.consumer_at Session.consumer_is_stopped Session.put_log
    Session.dispatched Session.notified Session.warnings Session.waits].
  all: destruct pc as [|sd t|sd t| | | |e]; cbn [option_map]; try reflexivity.
  all: try (destruct (Producer.run_try env file p) as [[st sd'] w'];
            destruct (bind (Producer.wait_timeout st elapsed) _); reflexivity).
  all: try (destruct o as [[|]|]; reflexivity).
  all: try (destruct (0 <? Producer.len_sensor_data sd); [|reflexivity];
            destruct (Threading.put b _); reflexivity).
  all: try (destruct (Threading.full b || Producer.eof_reached p); reflexivity).
  all: destruct (Producer.run_eof p); reflexivity.
Qed.

(** C9 at a failing input: a session on a recording of three rows, shut
    down while the Producer waits with its first record.  The shutdown sets
    the signal and clears the globals, and the Producer goes on: it puts the
    first record in the queue, reads the second, does not wait (the signal
    is set) and puts it too. *)
Theorem shutdown_does_not_stop_producer : forall env,
  let file := mkCsv "a,b" [["a"; "b"]; ["1"; "2"]; ["3"; "4"]; ["5"; "6"]] in
  exists w0 g s1 s2,
    Plugin.plugin_start (Plugin.mkProcess Plugin.loaded None) default_handle
      = (Ok tt, w0) /\
    Plugin.run env file w0 (Plugin.mkProcess g (Some s1)) /\
    Session.put_log s1 = [] /\
    Plugin.glob (Plugin.plugin_shutdown (Plugin.mkProcess g (Some s1)))
      = Plugin.mkGlobals None None 100 true /\
    Plugin.run env file (Plugin.plugin_shutdown (Plugin.mkProcess g (Some s1)))
      (Plugin.mkProcess (Plugin.mkGlobals None None 100 true) (Some s2)) /\
    Session.producer_is_stopped s2 = true /\
    map Session.data (Session.put_log s2) =
      [Producer.Readings [("a", VInt 1); ("b", VInt 2)];
       Producer.Readings [("a", VInt 3); ("b", VInt 4)]] /\
    skipn 1 (Session.waits s2) = [Threading.Immediately].
Proof.
  intros env. cbv zeta.
  destruct (Plugin.plugin_start (Plugin.mkProcess Plugin.loaded None) default_handle)
    as [r w0] eqn:E0.
  vm_compute in E0. inversion E0; subst r w0; clear E0.
  match goal with
  | |- context [Plugin.mkProcess ?g0 (Some ?s0)] =>
      destruct (Schedule.exec env
                  (mkCsv "a,b" [["a"; "b"]; ["1"; "2"]; ["3"; "4"]; ["5"; "6"]])
                  false (Schedule.producer_moves 1 "t0") s0) as [s1|] eqn:E1;
      [|vm_compute in E1; discriminate E1];
      pose (g := g0)
  end.
  destruct (Schedule.exec env
              (mkCsv "a,b" [["a"; "b"]; ["1"; "2"]; ["3"; "4"]; ["5"; "6"]])
              true (Schedule.producer_moves 7 "t1")
              (Plugin.mark_stopped Threading.ConsumerThread
                 (Plugin.mark_stopped Threading.ProducerThread s1)))
    as [s2|] eqn:E2.
  2: { vm_compute in E1. inversion E1; subst s1. vm_compute in E2. discriminate E2. }
  eexists. exists g, s1, s2.
  split; [reflexivity|].
  split. { apply steps_run. eapply exec_steps. exact E1. }
  split. { vm_compute in E1. inversion E1. reflexivity. }
  split; [reflexivity|].
  split. { apply (steps_run env _ (Plugin.mkGlobals None None 100 true)).
           eapply exec_steps. exact E2. }
  vm_compute in E1. inversion E1; subst s1; clear E1.
  vm_compute in E2. inversion E2; subst s2; clear E2.
  split; [reflexivity|]. split; reflexivity.
Qed.

(* ------------------------------------------------------------------ *)
(** ** The hand-off: order, bound and the lock *)

Section HandoffTheorems.

Variable env : Env.
Variable file : csv_file.

Ltac session_fields :=
  cbn [Session.condition_owner Session.bucket Session.producer
       Session.producer_at Session.producer_is_stopped Session.consumer_at
       Session.consumer_is_stopped Session.put_log Session.dispatched
       Session.notified Session.warnings Session.waits] in *.

(** The cases of a step of the Producer. *)
Ltac producer_cases s H :=
  destruct s as [o b p pc ps cc cs pl d n w ws];
  unfold Session.producer_step in H; session_fields;
  destruct pc as [|sd t|sd t| | | |e];
  [ destruct (Producer.run_try env file p) as [[st sd'] w'];
    destruct (bind (Producer.wait_timeout st _) _)
  | destruct o as [[|]|]
  | destruct (0 <? Producer.len_sensor_data sd);
    [destruct (Threading.put b _) as [q|] eqn:Eput|]
  | destruct (Threading.full b || Producer.eof_reached p) eqn:Esig
  | destruct (Producer.run_eof p)
  | | ];
  try discriminate H; inversion H; subst; clear H; session_fields.

(** The cases of a step of the Consumer. *)
Ltac consumer_cases s H :=
  destruct s as [o b p pc ps cc cs pl d n w ws];
  unfold Session.consumer_step in H; session_fields;
  destruct cc;
  [ destruct o
  | destruct (Threading.get b) as [[x q]|] eqn:Eget
  | ];
  try discriminate H; inversion H; subst; clear H; session_fields.

Lemma put_items : forall (q q' : Threading.Queue Session.envelope) x,
  Threading.put q x = Some q' ->
  Threading.items q' = (Threading.items q ++ [x])%list /\
  Threading.maxsize q' = Threading.maxsize q /\
  Threading.full q = false.
Proof.
  intros q q' x H. unfold Threading.put in H.
  destruct (Threading.full q); [discriminate|].
  inversion H. auto.
Qed.

Lemma get_items : forall (q q' : Threading.Queue Session.envelope) x,
  Threading.get q = Some (x, q') ->
  Threading.items q = x :: Threading.items q' /\
  Threading.maxsize q' = Threading.maxsize q.
Proof.
  intros q q' x H. unfold Threading.get in H.
  destruct (Threading.items q) eqn:E; [discriminate|].
  inversion H. auto.
Qed.

Lemma step_fifo : forall flag s s',
  Session.step env file flag s s' -> fifo_inv s -> fifo_inv s'.
Proof.
  intros flag s s' H. unfold fifo_inv.
  destruct H as [elapsed now s s' H | s s' H].
  - producer_cases s H; intros I; try exact I.
    apply put_items in Eput. destruct Eput as [-> _].
    rewrite app_assoc. now rewrite I.
  - consumer_cases s H; intros I; try exact I.
    apply get_items in Eget. destruct Eget as [E _].
    rewrite <- app_assoc. cbn. now rewrite <- E.
Qed.

Lemma step_bounded : forall flag s s',
  Session.step env file flag s s' -> bounded_inv s -> bounded_inv s'.
Proof.
  intros flag s s' H. unfold bounded_inv.
  destruct H as [elapsed now s s' H | s s' H].
  - producer_cases s H; intros I; try exact I.
    apply put_items in Eput. destruct Eput as (Ei & Em & Ef).
    unfold Threading.qsize in *. rewrite Ei, Em. intros Hpos.
    unfold Threading.full, Threading.qsize in Ef.
    rewrite length_app. cbn [List.length].
    apply andb_false_iff in Ef. destruct Ef as [Ef|Ef].
    + apply Z.ltb_ge in Ef. lia.
    + apply Z.leb_gt in Ef. lia.
  - consumer_cases s H; intros I; try exact I.
    apply get_items in Eget. destruct Eget as [Ei Em].
    unfold Threading.qsize in *. rewrite Em. intros Hpos.
    specialize (I Hpos). rewrite Ei in I. cbn [List.length] in I. lia.
Qed.

Lemma step_maxsize : forall flag s s',
  Session.step env file flag s s' ->
  Threading.maxsize (Session.bucket s') = Threading.maxsize (Session.bucket s).
Proof.
  intros flag s s' H.
  destruct H as [elapsed now s s' H | s s' H].
  - producer_cases s H; try reflexivity.
    apply put_items in Eput. tauto.
  - consumer_cases s H; try reflexivity.
    apply get_items in Eget. tauto.
Qed.

Lemma step_lock : forall flag s s',
  Session.step env file flag s s' -> lock_inv s -> lock_inv s'.
Proof.
  intros flag s s' H. unfold lock_inv.
  destruct H as [elapsed now s s' H | s s' H].
  - producer_cases s H; intros [Ip Ic]; split; try exact I; try exact Ip;
      try exact Ic; try reflexivity; try exact Logic.I;
      destruct cc; try congruence; try discriminate.
  - consumer_cases s H; intros [Ip Ic]; split; try exact Ip; try exact Ic;
      try reflexivity; try discriminate;
      destruct pc; try exact Logic.I; congruence.
Qed.

(** In every state a session reaches, under any interleaving: the envelopes
    handed to [save_data] followed by those still queued are the envelopes
    put, in the order they were put; a bounded queue holds no more than its
    capacity, which does not change; and whoever touches the queue owns the
    lock. *)
Lemma handoff_invariants : forall flag maxsize p s,
  Session.steps env file flag (Session.start maxsize p) s ->
  fifo_inv s /\ bounded_inv s /\ lock_inv s /\
  Threading.maxsize (Session.bucket s) = maxsize.
Proof.
  intros flag maxsize p s H.
  remember (Session.start maxsize p) as s0 eqn:E0.
  assert (I0 : fifo_inv s0 /\ bounded_inv s0 /\ lock_inv s0 /\
               Threading.maxsize (Session.bucket s0) = maxsize).
  { subst s0. unfold fifo_inv, bounded_inv, lock_inv, Threading.qsize. cbn.
    repeat split; try lia; discriminate. }
  clear E0. induction H as [s | s s' s'' Hst Hsts IH]; [exact I0|].
  apply IH. destruct I0 as (If & Ib & Il & Im).
  repeat split.
  - eapply step_fifo; eassumption.
  - eapply step_bounded; eassumption.
  - eapply step_lock; eassumption.
  - eapply step_lock; eassumption.
  - rewrite (step_maxsize _ _ _ Hst). exact Im.
Qed.

End HandoffTheorems.

(** C4 at a failing schedule: replay (capacity 1) of records with equal
    timestamps.  The Producer puts the first record, signals and releases;
    before the Consumer has taken the lock the Producer has read the second
    record and taken the lock again; its [put] blocks on the full queue
    while it owns the lock the Consumer is waiting for.  No thread can move
    any more, and the record that was put is never handed over. *)
Theorem handoff_can_deadlock :
  exists s0 s e,
    first_session replay_handle = Some s0 /\
    Threading.maxsize (Session.bucket s0) = 1 /\
    Session.steps example_env same_time_file false s0 s /\
    Session.stuck example_env same_time_file false s /\
    Session.put_log s = [e] /\
    Threading.items (Session.bucket s) = [e] /\
    Session.dispatched s = [].
Proof.
  destruct (first_session replay_handle) as [s0|] eqn:E0.
  2: { vm_compute in E0. discriminate E0. }
  destruct (Schedule.exec example_env same_time_file false
              (Schedule.producer_moves 7 "t") s0) as [s|] eqn:E.
  2: { vm_compute in E0. inversion E0; subst s0. vm_compute in E. discriminate E. }
  exists s0, s. eexists.
  split; [reflexivity|].
  split. { vm_compute in E0. inversion E0. reflexivity. }
  split. { eapply exec_steps. exact E. }
  vm_compute in E0. inversion E0; subst s0; clear E0.
  vm_compute in E. inversion E; subst s; clear E.
  split.
  { intros s' H. inversion H as [elapsed now a b Hp | a b Hc]; subst.
    - vm_compute in Hp. discriminate Hp.
    - vm_compute in Hc. discriminate Hc. }
  split; [reflexivity|]. split; reflexivity.
Qed.

(* ------------------------------------------------------------------ *)
(** ** When the Producer signals and how long it keeps the lock *)

(** C6 (amended): at every step of [Producer.run], the Producer calls
    [notify] exactly when it stands at the last [if] of its pass with the
    queue full or the end of the data reached, and it releases the lock at
    that step and at no other: a push that leaves the queue below capacity
    is followed by no signal and the lock stays with the Producer.  The
    lock is taken before the push only when the Producer does not own it
    already. *)
Theorem producer_signals_iff_full_or_eof :
  forall env file flag elapsed now s s',
  Session.producer_step env file flag elapsed now s = Some s' ->
  (signals_now s = true ->
     Session.notified s' = (Session.notified s ++ [Threading.ProducerThread])%list /\
     Session.condition_owner s' = None) /\
  (signals_now s = false ->
     Session.notified s' = Session.notified s /\
     (Session.condition_owner s = Some Threading.ProducerThread ->
      Session.condition_owner s' = Some Threading.ProducerThread)) /\
  (Session.condition_owner s' <> Session.condition_owner s ->
     signals_now s = true \/
     (exists sd t, Session.producer_at s = Session.PAcquire sd t) /\
     Session.condition_owner s = None /\
     Session.condition_owner s' = Some Threading.ProducerThread).
Proof.
  intros env file flag elapsed now s s' H.
  destruct s as [o b p pc ps cc cs pl d n w ws].
  unfold Session.producer_step in H. unfold signals_now.
  cbn [Session.condition_owner Session.bucket Session.producer
       Session.producer_at Session.producer_is_stopped Session.consumer_at
       Session.consumer_is_stopped Session.put_log Session.dispatched
       Session.notified Session.warnings Session.waits] in *.
  destruct pc as [|sd t|sd t| | | |e].
  - destruct (Producer.run_try env file p) as [[st sd'] w'].
    destruct (bind (Producer.wait_timeout st elapsed) _);
      inversion H; subst; cbn; repeat split; try discriminate; tauto.
  - destruct o as [[|]|]; try discriminate H;
      inversion H; subst; cbn; repeat split; try discriminate; try tauto.
    intros _. right. repeat split. eauto.
  - destruct (0 <? Producer.len_sensor_data sd).
    + destruct (Threading.put b _); try discriminate H.
      inversion H; subst; cbn; repeat split; try discriminate; tauto.
    + inversion H; subst; cbn; repeat split; try discriminate; tauto.
  - destruct (Threading.full b || Producer.eof_reached p);
      inversion H; subst; cbn; repeat split; try discriminate; tauto.
  - destruct (Producer.run_eof p);
      inversion H; subst; cbn; repeat split; try discriminate; tauto.
  - discriminate H.
  - discriminate H.
Qed.

Lemma first_session_default :
  first_session default_handle = Some batch_session.
Proof. vm_compute. reflexivity. Qed.

Lemma producer_signals_iff_full_or_eof_witness :
  let s := after example_env three_rows_file false
             (Schedule.producer_moves 3 "t") batch_session in
  let s' := after example_env three_rows_file false
              (Schedule.producer_moves 4 "t") batch_session in
  (signals_now s = true ->
     Session.notified s' = (Session.notified s ++ [Threading.ProducerThread])%list /\
     Session.condition_owner s' = None) /\
  (signals_now s = false ->
     Session.notified s' = Session.notified s /\
     (Session.condition_owner s = Some Threading.ProducerThread ->
      Session.condition_owner s' = Some Threading.ProducerThread)) /\
  (Session.condition_owner s' <> Session.condition_owner s ->
     signals_now s = true \/
     (exists sd t, Session.producer_at s = Session.PAcquire sd t) /\
     Session.condition_owner s = None /\
     Session.condition_owner s' = Some Threading.ProducerThread).
Proof.
  apply (producer_signals_iff_full_or_eof example_env three_rows_file false
           (S754_zero false) "t").
  vm_compute. reflexivity.
Defined.

(** C6 as stated fails: in the default session the first pass leaves the
    queue below capacity, so the Producer keeps the lock; it owns it at the
    start of the second pass and in every state of that pass, through the
    read, the wait and the push, up to the start of the third, and the
    Consumer cannot move in any of them. *)
Lemma lock_held_across_whole_tick :
  let states := trace example_env three_rows_file false
                  (Schedule.producer_moves 10 "t") batch_session in
  let second_pass := skipn 5 states in
  map Session.producer_at (firstn 1 second_pass) = [Session.PLoop] /\
  map Session.producer_at (skipn 5 second_pass) = [Session.PLoop] /\
  List.length second_pass = 6%nat /\
  Forall (fun s => Session.condition_owner s = Some Threading.ProducerThread /\
                   Session.consumer_step s = None) second_pass.
Proof.
  cbv zeta.
  split; [vm_compute; reflexivity|].
  split; [vm_compute; reflexivity|].
  split; [vm_compute; reflexivity|].
  vm_compute. repeat constructor.
Qed.

(* ------------------------------------------------------------------ *)
(** ** The rounding agrees with the standard library's *)

(** On the sample pairs, the conversion of an integer is
    [binary_normalize] and the quotient is [SFdiv]. *)
Lemma rounding_agrees_with_SpecFloat :
  map (fun ab => float_of_int (fst ab)) sample_pairs =
    map (fun ab => binary_normalize Float.prec Float.emax (fst ab) 0 false)
        sample_pairs /\
  map (fun ab => Float.truediv (float_of_int (fst ab)) (float_of_int (snd ab)))
      sample_pairs =
    map (fun ab => Ok (SFdiv Float.prec Float.emax (float_of_int (fst ab))
                         (float_of_int (snd ab))))
        sample_pairs.
Proof. split; vm_compute; reflexivity. Qed.

(* ------------------------------------------------------------------ *)
(** ** Signs of rounded values *)

Lemma round_ratio_sign : forall s n d,
  Float.sign_of (Float.round_ratio s n d) = s.
Proof.
  intros s n d. unfold Float.round_ratio.
  set (e := Z.max (Float.floor_log2_ratio n d - 52) Float.emin).
  set (m := if e <? 0 then Float.round_half_even (n * 2 ^ (- e)) d
            else Float.round_half_even n (d * 2 ^ e)).
  destruct (m =? 2 ^ 53).
  - destruct (2 ^ 52 =? 0); [reflexivity|].
    destruct (Float.etop <? e + 1); reflexivity.
  - destruct (m =? 0); [reflexivity|].
    destruct (Float.etop <? e); reflexivity.
Qed.

Lemma negative_not_positive : forall x,
  Float.sign_of x = true -> Float.is_positive x = false.
Proof. intros [s|s| |s m e]; cbn; intros H; try subst s; congruence. Qed.

Lemma of_Q_nonpositive : forall q,
  (Qnum q <= 0)%Z -> Float.is_positive (Float.of_Q q) = false.
Proof.
  intros [n d] H. unfold Float.of_Q. cbn [Qnum Qden] in *.
  destruct n as [|n|n]; [reflexivity | lia |].
  apply negative_not_positive, round_ratio_sign.
Qed.

(** The numerator of the exact value of a finite float has its sign. *)
Lemma to_Q_num_sign : forall s m e,
  (s = true -> Qnum (Float.to_Q (S754_finite s m e)) < 0)%Z /\
  (s = false -> 0 < Qnum (Float.to_Q (S754_finite s m e)))%Z.
Proof.
  intros s m e. unfold Float.to_Q.
  destruct (0 <=? e) eqn:E.
  - apply Z.leb_le in E. cbn [inject_Z Qnum].
    assert (0 < 2 ^ e)%Z by (apply Z.pow_pos_nonneg; lia).
    destruct s; cbn [cond_Zopp]; split; intros; try discriminate; nia.
  - cbn [Qnum]. destruct s; cbn [cond_Zopp]; split; intros; try discriminate; lia.
Qed.

(** A delay that is zero or negative, less a time that is not negative, is
    not positive. *)

Lemma sub_not_positive : forall c elapsed,
  nonpositive c = true -> nonnegative elapsed = true ->
  Float.is_positive (Float.sub c elapsed) = false.
Proof.
  intros c elapsed Hc He.
  destruct c as [sc|sc| |sc mc ec]; try discriminate Hc;
  destruct elapsed as [se|se| |se me ee]; try discriminate He.
  - destruct sc, se; reflexivity.
  - destruct se; [discriminate He|]. unfold Float.sub.
    apply of_Q_nonpositive.
    destruct (to_Q_num_sign false me ee) as [_ H]. specialize (H eq_refl).
    destruct (Float.to_Q (S754_finite false me ee)) as [qn qd].
    cbn in *. lia.
  - destruct sc; [|discriminate Hc]. reflexivity.
  - destruct sc; [|discriminate Hc]. reflexivity.
  - destruct sc; [|discriminate Hc]. unfold Float.sub.
    apply of_Q_nonpositive.
    destruct (to_Q_num_sign true mc ec) as [H _]. specialize (H eq_refl).
    destruct (Float.to_Q (S754_finite true mc ec)) as [qn qd].
    cbn in *. lia.
  - destruct sc; [|discriminate Hc]. destruct se; [discriminate He|].
    unfold Float.sub. apply of_Q_nonpositive.
    destruct (to_Q_num_sign true mc ec) as [H1 _]. specialize (H1 eq_refl).
    destruct (to_Q_num_sign false me ee) as [_ H2]. specialize (H2 eq_refl).
    destruct (Float.to_Q (S754_finite true mc ec)) as [qn qd].
    destruct (Float.to_Q (S754_finite false me ee)) as [rn rd].
    cbn in *. nia.
Qed.

Lemma total_seconds_nonpositive : forall us,
  (us <= 0)%Z -> nonpositive (Producer.total_seconds us) = true.
Proof.
  intros us H. unfold Producer.total_seconds, Float.of_Q. cbn [Qnum Qden].
  destruct us as [|n|n]; [reflexivity | lia |].
  pose proof (round_ratio_sign true (Z.pos n) 1000000) as Hs.
  destruct (Float.round_ratio true (Z.pos n) 1000000) as [s|s| |s m e];
    cbn in *; try subst s; try reflexivity; discriminate.
Qed.

(* ------------------------------------------------------------------ *)
(** ** The error of the rounded operations *)

Lemma round_half_even_spec : forall N D,
  0 <= N -> 0 < D ->
  0 <= Float.round_half_even N D /\
  2 * Z.abs (Float.round_half_even N D * D - N) <= D.
Proof.
  intros N D HN HD. unfold Float.round_half_even.
  pose proof (Z.div_mod N D ltac:(lia)) as E.
  pose proof (Z.mod_pos_bound N D HD) as B.
  assert (0 <= N / D) by (apply Z.div_pos; lia).
  destruct (2 * (N mod D) <? D) eqn:E1; [apply Z.ltb_lt in E1; split; nia|].
  apply Z.ltb_ge in E1.
  destruct (D <? 2 * (N mod D)) eqn:E2; [apply Z.ltb_lt in E2; split; nia|].
  apply Z.ltb_ge in E2.
  destruct (Z.even (N / D)); split; nia.
Qed.

Lemma round_half_even_exact : forall N D,
  0 < D -> Float.round_half_even (N * D) D = N.
Proof.
  intros N D HD. unfold Float.round_half_even.
  rewrite Z.mod_mul, Z.div_mul by lia.
  replace (2 * 0 <? D) with true; [reflexivity|].
  symmetry. apply Z.ltb_lt. lia.
Qed.

Lemma pow2_pos : forall e, (0 < pow2 e)%Q.
Proof. intros e. apply Qpower_0_lt. reflexivity. Qed.

Lemma pow2_plus : forall a b, (pow2 (a + b) == pow2 a * pow2 b)%Q.
Proof. intros a b. apply Qpower_plus. discriminate. Qed.

Lemma pow2_Z : forall e, 0 <= e -> (inject_Z (2 ^ e) == pow2 e)%Q.
Proof. intros e H. apply (Zpower_Qpower 2 e H). Qed.

Lemma pow2_le : forall a b, a <= b -> (pow2 a <= pow2 b)%Q.
Proof. intros a b H. apply Qpower_le_compat_l; [exact H | discriminate]. Qed.

Lemma pow2_lt_inv : forall a b, (pow2 a < pow2 b)%Q -> a < b.
Proof. intros a b H. apply (Qpower_lt_compat_l_inv (2#1)); [exact H | reflexivity]. Qed.

Lemma pow2_succ : forall a, (pow2 (a + 1) == 2 * pow2 a)%Q.
Proof. intros a. rewrite pow2_plus. unfold pow2 at 2. cbn. ring. Qed.

Lemma pow2_pred : forall a, (2 * pow2 (a - 1) == pow2 a)%Q.
Proof. intros a. rewrite <- pow2_succ. now replace (a - 1 + 1) with a by ring. Qed.

Lemma log2_bounds_Q : forall n, 0 < n ->
  (pow2 (Z.log2 n) <= inject_Z n /\ inject_Z n < 2 * pow2 (Z.log2 n))%Q.
Proof.
  intros n H. destruct (Z.log2_spec n H) as [L U].
  pose proof (Z.log2_nonneg n) as Hnn.
  split.
  - rewrite <- pow2_Z by exact Hnn. rewrite <- Zle_Qle. exact L.
  - rewrite <- pow2_succ. rewrite <- pow2_Z by lia. rewrite <- Zlt_Qlt.
    exact U.
Qed.

(** [floor_log2_ratio] brackets the quotient between two powers of two. *)
Lemma floor_log2_ratio_spec : forall n d, 0 < n -> 0 < d ->
  (pow2 (Float.floor_log2_ratio n d) * inject_Z d <= inject_Z n /\
   inject_Z n < 2 * pow2 (Float.floor_log2_ratio n d) * inject_Z d)%Q.
Proof.
  intros n d Hn Hd. unfold Float.floor_log2_ratio.
  destruct (log2_bounds_Q n Hn) as [Ln Un].
  destruct (log2_bounds_Q d Hd) as [Ld Ud].
  set (a := Z.log2 n) in *. set (b := Z.log2 d) in *.
  set (l := a - b).
  assert (Ha : (pow2 a == pow2 l * pow2 b)%Q).
  { rewrite <- pow2_plus. now replace (l + b) with a by (unfold l; ring). }
  assert (Hv : (pow2 (Z.max 0 l) == pow2 l * pow2 (Z.max 0 (- l)))%Q).
  { rewrite <- pow2_plus. now replace (l + Z.max 0 (- l)) with (Z.max 0 l) by lia. }
  pose proof (pow2_pos l) as Pl. pose proof (pow2_pos b) as Pb.
  pose proof (pow2_pos a) as Pa.
  pose proof (pow2_pos (Z.max 0 (- l))) as Pu.
  pose proof (pow2_pred l) as Hpred. pose proof (pow2_pos (l - 1)) as Pl1.
  assert (Qd : (0 < inject_Z d)%Q) by (unfold Qlt; cbn; lia).
  destruct (n * 2 ^ Z.max 0 (- l) <? d * 2 ^ Z.max 0 l) eqn:T.
  - apply Z.ltb_lt in T. rewrite Zlt_Qlt, !inject_Z_mult in T.
    rewrite !pow2_Z in T by lia. rewrite Hv in T.
    assert (T' : (inject_Z n < inject_Z d * pow2 l)%Q).
    { apply (Qmult_lt_r _ _ (pow2 (Z.max 0 (- l)))); [exact Pu|].
      rewrite <- Qmult_assoc. exact T. }
    split.
    + (* 2^(l-1) * d <= n *)
      setoid_replace (pow2 (l - 1) * inject_Z d)%Q
        with ((1 # 2) * (pow2 l * inject_Z d))%Q
        by (rewrite <- Hpred; ring).
      assert ((pow2 l * inject_Z d < 2 * pow2 a)%Q).
      { rewrite Ha. 
        setoid_replace (2 * (pow2 l * pow2 b))%Q with (pow2 l * (2 * pow2 b))%Q by ring.
        apply Qmult_lt_l; assumption. }
      lra.
    + rewrite Hpred. lra.
  - apply Z.ltb_ge in T. rewrite Zle_Qle, !inject_Z_mult in T.
    rewrite !pow2_Z in T by lia. rewrite Hv in T.
    assert (T' : (inject_Z d * pow2 l <= inject_Z n)%Q).
    { apply (Qmult_le_r _ _ (pow2 (Z.max 0 (- l)))); [exact Pu|].
      rewrite <- Qmult_assoc. exact T. }
    split.
    + lra.
    + assert ((2 * pow2 a <= 2 * pow2 l * inject_Z d)%Q).
      { rewrite Ha.
        setoid_replace (2 * (pow2 l * pow2 b))%Q with ((2 * pow2 l) * pow2 b)%Q by ring.
        apply Qmult_le_l; lra. }
      lra.
Qed.

Lemma to_Q_finite : forall s m e,
  (Float.to_Q (S754_finite s m e) == inject_Z (cond_Zopp s (Zpos m)) * pow2 e)%Q.
Proof.
  intros s m e. unfold Float.to_Q.
  destruct (0 <=? e) eqn:E.
  - apply Z.leb_le in E. rewrite inject_Z_mult, pow2_Z by exact E. reflexivity.
  - apply Z.leb_gt in E.
    assert (H2 : 0 < 2 ^ (- e)) by (apply Z.pow_pos_nonneg; lia).
    rewrite Qmake_Qdiv. rewrite Z2Pos.id by exact H2.
    rewrite pow2_Z by lia.
    assert (Hinv : (pow2 e * pow2 (- e) == 1)%Q).
    { rewrite <- pow2_plus. replace (e + - e) with 0 by ring. reflexivity. }
    pose proof (pow2_pos (- e)) as P.
    field_simplify_eq; [|lra].
    setoid_replace (inject_Z (cond_Zopp s (Z.pos m)) * pow2 (- e) * pow2 e)%Q
      with (inject_Z (cond_Zopp s (Z.pos m)) * (pow2 e * pow2 (- e)))%Q by ring.
    rewrite Hinv. ring.
Qed.

Lemma Zabs_le_Q : forall a b c : Z,
  2 * Z.abs (a - b) <= c ->
  (Qabs (inject_Z a - inject_Z b) <= (1 # 2) * inject_Z c)%Q.
Proof.
  intros a b c H. apply Qabs_Qle_condition.
  unfold Qle, Qminus, Qplus, Qopp, Qmult, inject_Z. cbn [Qnum Qden Pos.mul]. lia.
Qed.

(** The scaled quotient that [round_ratio] rounds to an integer. *)
Lemma scaled_round_error : forall n d e,
  0 < n -> 0 < d ->
  let m := if e <? 0 then Float.round_half_even (n * 2 ^ (- e)) d
           else Float.round_half_even n (d * 2 ^ e) in
  0 <= m /\
  (Qabs (inject_Z m * pow2 e * inject_Z d - inject_Z n)
     <= (1 # 2) * pow2 e * inject_Z d)%Q.
Proof.
  intros n d e Hn Hd m. subst m.
  pose proof (pow2_pos e) as P.
  assert (Qd : (0 < inject_Z d)%Q) by (unfold Qlt; cbn; lia).
  destruct (e <? 0) eqn:E.
  - apply Z.ltb_lt in E.
    assert (H2 : 0 < 2 ^ (- e)) by (apply Z.pow_pos_nonneg; lia).
    destruct (round_half_even_spec (n * 2 ^ (- e)) d ltac:(nia) Hd) as [M0 M].
    split; [exact M0|].
    set (m := Float.round_half_even (n * 2 ^ (- e)) d) in *.
    assert (Hinv : (pow2 e * pow2 (- e) == 1)%Q).
    { rewrite <- pow2_plus. replace (e + - e) with 0 by ring. reflexivity. }
    apply Zabs_le_Q in M. rewrite !inject_Z_mult, pow2_Z in M by lia.
    setoid_replace (inject_Z m * pow2 e * inject_Z d - inject_Z n)%Q
      with (pow2 e * (inject_Z m * inject_Z d - inject_Z n * pow2 (- e)))%Q.
    2: { setoid_replace (inject_Z n) with (inject_Z n * (pow2 e * pow2 (- e)))%Q at 1
           by (rewrite Hinv; ring). ring. }
    rewrite Qabs_Qmult, (Qabs_pos (pow2 e)) by lra.
    setoid_replace ((1 # 2) * pow2 e * inject_Z d)%Q
      with (pow2 e * ((1 # 2) * inject_Z d))%Q by ring.
    apply Qmult_le_l; assumption.
  - apply Z.ltb_ge in E.
    assert (H2 : 0 < 2 ^ e) by (apply Z.pow_pos_nonneg; lia).
    destruct (round_half_even_spec n (d * 2 ^ e) ltac:(lia) ltac:(nia)) as [M0 M].
    split; [exact M0|].
    set (m := Float.round_half_even n (d * 2 ^ e)) in *.
    apply Zabs_le_Q in M. rewrite !inject_Z_mult, pow2_Z in M by lia.
    setoid_replace (inject_Z m * pow2 e * inject_Z d)%Q
      with (inject_Z m * (inject_Z d * pow2 e))%Q by ring.
    setoid_replace ((1 # 2) * pow2 e * inject_Z d)%Q
      with ((1 # 2) * (inject_Z d * pow2 e))%Q by ring.
    exact M.
Qed.

Lemma Qpos_inject : forall z, 0 < z -> (0 < inject_Z z)%Q.
Proof. intros z H. unfold Qlt. cbn. lia. Qed.

Lemma floor_log2_ratio_lt : forall n d k, 0 < n -> 0 < d ->
  (inject_Z n < pow2 k * inject_Z d)%Q -> Float.floor_log2_ratio n d < k.
Proof.
  intros n d k Hn Hd H.
  destruct (floor_log2_ratio_spec n d Hn Hd) as [L _].
  apply pow2_lt_inv. apply (Qmult_lt_r _ _ (inject_Z d)); [apply Qpos_inject; exact Hd|].
  eapply Qle_lt_trans; eassumption.
Qed.

Lemma floor_log2_ratio_ge : forall n d k, 0 < n -> 0 < d ->
  (pow2 k * inject_Z d <= inject_Z n)%Q -> k <= Float.floor_log2_ratio n d.
Proof.
  intros n d k Hn Hd H.
  destruct (floor_log2_ratio_spec n d Hn Hd) as [_ U].
  assert (k < Float.floor_log2_ratio n d + 1); [|lia].
  apply pow2_lt_inv. rewrite pow2_succ.
  apply (Qmult_lt_r _ _ (inject_Z d)); [apply Qpos_inject; exact Hd|].
  eapply Qle_lt_trans; eassumption.
Qed.

(** The value of [round_ratio] below the overflow threshold. *)
Lemma round_ratio_value : forall n d, 0 < n -> 0 < d ->
  (inject_Z n < pow2 1023 * inject_Z d)%Q ->
  let e := Z.max (Float.floor_log2_ratio n d - 52) Float.emin in
  let m := if e <? 0 then Float.round_half_even (n * 2 ^ (- e)) d
           else Float.round_half_even n (d * 2 ^ e) in
  Float.is_finite (Float.round_ratio false n d) = true /\
  (Float.to_Q (Float.round_ratio false n d) == inject_Z m * pow2 e)%Q.
Proof.
  intros n d Hn Hd Hov e m.
  pose proof (floor_log2_ratio_lt n d 1023 Hn Hd Hov) as Hfl.
  assert (He : e <= 970) by (unfold e, Float.emin; lia).
  destruct (scaled_round_error n d e Hn Hd) as [M0 _]. fold m in M0.
  unfold Float.round_ratio. fold e. fold m.
  destruct (m =? 2 ^ 53) eqn:E53.
  - apply Z.eqb_eq in E53.
    replace (2 ^ 52 =? 0) with false by reflexivity.
    replace (Float.etop <? e + 1) with false
      by (symmetry; apply Z.ltb_ge; unfold Float.etop; lia).
    split; [reflexivity|].
    rewrite to_Q_finite, pow2_succ, E53. cbn [cond_Zopp].
    replace (Z.pos (Z.to_pos (2 ^ 52))) with (2 ^ 52) by reflexivity.
    setoid_replace (inject_Z (2 ^ 53)) with (2 * inject_Z (2 ^ 52))%Q
      by reflexivity.
    ring.
  - apply Z.eqb_neq in E53.
    destruct (m =? 0) eqn:E0.
    + apply Z.eqb_eq in E0. split; [reflexivity|]. rewrite E0.
      cbn [Float.to_Q]. ring.
    + apply Z.eqb_neq in E0.
      replace (Float.etop <? e) with false
        by (symmetry; apply Z.ltb_ge; unfold Float.etop; lia).
      split; [reflexivity|].
      rewrite to_Q_finite. cbn [cond_Zopp].
      rewrite Z2Pos.id by lia. reflexivity.
Qed.

Lemma pow2_max_le : forall a b, (pow2 (Z.max a b) <= pow2 a + pow2 b)%Q.
Proof.
  intros a b. pose proof (pow2_pos a). pose proof (pow2_pos b).
  destruct (Z.max_spec a b) as [[_ ->] | [_ ->]]; lra.
Qed.

(** The error of [round_ratio]: half a unit in the last place, which is at
    most 2^-53 of the quotient, or half the least subnormal. *)
Lemma round_ratio_error : forall n d, 0 < n -> 0 < d ->
  (inject_Z n < pow2 1023 * inject_Z d)%Q ->
  Float.is_finite (Float.round_ratio false n d) = true /\
  (Qabs (Float.to_Q (Float.round_ratio false n d) - inject_Z n / inject_Z d)
     <= inject_Z n / inject_Z d * pow2 (-53) + pow2 (-1075))%Q.
Proof.
  intros n d Hn Hd Hov.
  destruct (round_ratio_value n d Hn Hd Hov) as [Hfin Hval].
  split; [exact Hfin|].
  set (e := Z.max (Float.floor_log2_ratio n d - 52) Float.emin) in *.
  destruct (scaled_round_error n d e Hn Hd) as [_ Herr].
  cbv zeta in Hval, Herr. rewrite <- Hval in Herr.
  set (V := Float.to_Q (Float.round_ratio false n d)) in *.
  clear Hval.
  pose proof (Qpos_inject d Hd) as Qd. pose proof (Qpos_inject n Hn) as Qn.
  destruct (floor_log2_ratio_spec n d Hn Hd) as [L _].
  set (fl := Float.floor_log2_ratio n d) in *.
  assert (Hp : ((1 # 2) * pow2 e <= pow2 fl * pow2 (-53) + pow2 (-1075))%Q).
  { pose proof (pow2_max_le (fl - 52) Float.emin) as Hm. fold e in Hm.
    assert (E1 : ((1 # 2) * pow2 (fl - 52) == pow2 fl * pow2 (-53))%Q).
    { rewrite <- pow2_plus. rewrite <- (pow2_pred (fl - 52)).
      replace (fl - 52 - 1) with (fl + -53) by ring. field. }
    assert (E2 : ((1 # 2) * pow2 Float.emin == pow2 (-1075))%Q).
    { unfold Float.emin. rewrite <- (pow2_pred (-1074)).
      replace (-1074 - 1) with (-1075) by ring. field. }
    rewrite <- E1, <- E2. lra. }
  pose proof (pow2_pos (-53)) as P53. pose proof (pow2_pos (-1075)) as P1075.
  pose proof (pow2_pos e) as Pe. pose proof (pow2_pos fl) as Pfl.
  (* divide by d *)
  setoid_replace (V - inject_Z n / inject_Z d)%Q
    with ((V * inject_Z d - inject_Z n) * / inject_Z d)%Q by (field; lra).
  rewrite Qabs_Qmult. rewrite (Qabs_pos (/ inject_Z d)).
  2: { apply Qlt_le_weak, Qinv_lt_0_compat; exact Qd. }
  apply Qle_shift_div_r; [exact Qd|].
  eapply Qle_trans; [exact Herr|].
  setoid_replace ((inject_Z n / inject_Z d * pow2 (-53) + pow2 (-1075)) * inject_Z d)%Q
    with (inject_Z n * pow2 (-53) + pow2 (-1075) * inject_Z d)%Q by (field; lra).
  assert (H1 : ((1 # 2) * pow2 e * inject_Z d
                <= (pow2 fl * pow2 (-53) + pow2 (-1075)) * inject_Z d)%Q).
  { apply Qmult_le_r; assumption. }
  assert (H2 : (pow2 fl * inject_Z d * pow2 (-53) <= inject_Z n * pow2 (-53))%Q).
  { apply Qmult_le_r; assumption. }
  lra.
Qed.

(** An integer below 2^53 converts exactly. *)
Lemma round_ratio_int_exact : forall n, 0 < n < 2 ^ 53 ->
  Float.is_finite (Float.round_ratio false n 1) = true /\
  (Float.to_Q (Float.round_ratio false n 1) == inject_Z n)%Q.
Proof.
  intros n [Hn Hb].
  assert (Hov : (inject_Z n < pow2 1023 * inject_Z 1)%Q).
  { rewrite <- pow2_Z, <- inject_Z_mult, <- Zlt_Qlt by lia.
    assert (2 ^ 53 < 2 ^ 1023) by (apply Z.pow_lt_mono_r; lia). lia. }
  destruct (round_ratio_value n 1 Hn ltac:(lia) Hov) as [Hfin Hval].
  split; [exact Hfin|]. rewrite Hval. clear Hval Hfin.
  assert (Hfl : Float.floor_log2_ratio n 1 < 53).
  { apply floor_log2_ratio_lt; try lia.
    rewrite <- pow2_Z, <- inject_Z_mult, <- Zlt_Qlt by lia. lia. }
  assert (Hfl0 : 0 <= Float.floor_log2_ratio n 1).
  { apply floor_log2_ratio_ge; try lia.
    change (pow2 0) with (1%Q). rewrite Qmult_1_l.
    rewrite <- Zle_Qle. lia. }
  set (fl := Float.floor_log2_ratio n 1) in *.
  replace (Z.max (fl - 52) Float.emin) with (fl - 52)
    by (unfold Float.emin; lia).
  destruct (fl - 52 <? 0) eqn:E.
  - apply Z.ltb_lt in E.
    rewrite <- (Z.mul_1_r (n * 2 ^ (- (fl - 52)))).
    rewrite round_half_even_exact by lia.
    rewrite inject_Z_mult, pow2_Z by lia.
    setoid_replace (inject_Z n * pow2 (- (fl - 52)) * pow2 (fl - 52))%Q
      with (inject_Z n * (pow2 (- (fl - 52)) * pow2 (fl - 52)))%Q by ring.
    rewrite <- pow2_plus. replace (- (fl - 52) + (fl - 52)) with 0 by ring.
    change (pow2 0) with (1%Q). ring.
  - apply Z.ltb_ge in E. replace (fl - 52) with 0 by lia.
    replace (1 * 2 ^ 0) with 1 by reflexivity.
    rewrite <- (Z.mul_1_r n) at 1. rewrite round_half_even_exact by lia.
    change (pow2 0) with (1%Q). ring.
Qed.

(** The quotient that [truediv] rounds, for two positive finite floats. *)
Lemma truediv_finite : forall mx ex my ey,
  exists n d, 0 < n /\ 0 < d /\
    Float.truediv (S754_finite false mx ex) (S754_finite false my ey)
      = Ok (Float.round_ratio false n d) /\
    (inject_Z n / inject_Z d ==
     Float.to_Q (S754_finite false mx ex) / Float.to_Q (S754_finite false my ey))%Q.
Proof.
  intros mx ex my ey. unfold Float.truediv. cbn [Float.is_zero xorb].
  pose proof (pow2_pos ex) as Px. pose proof (pow2_pos ey) as Py.
  assert (Qx : (0 < inject_Z (Z.pos mx))%Q) by (apply Qpos_inject; lia).
  assert (Qy : (0 < inject_Z (Z.pos my))%Q) by (apply Qpos_inject; lia).
  destruct (ex - ey <? 0) eqn:E.
  - apply Z.ltb_lt in E.
    assert (H2 : 0 < 2 ^ (ey - ex)) by (apply Z.pow_pos_nonneg; lia).
    exists (Z.pos mx), (Z.pos my * 2 ^ (ey - ex)).
    split; [lia|]. split; [nia|]. split; [reflexivity|].
    rewrite !to_Q_finite. cbn [cond_Zopp].
    rewrite inject_Z_mult, pow2_Z by lia.
    assert (Hy : (pow2 ey == pow2 ex * pow2 (ey - ex))%Q).
    { rewrite <- pow2_plus. now replace (ex + (ey - ex)) with ey by ring. }
    pose proof (pow2_pos (ey - ex)) as Pd.
    rewrite Hy. field. repeat split; lra.
  - apply Z.ltb_ge in E.
    assert (H2 : 0 < 2 ^ (ex - ey)) by (apply Z.pow_pos_nonneg; lia).
    exists (Z.pos mx * 2 ^ (ex - ey)), (Z.pos my).
    split; [nia|]. split; [lia|]. split; [reflexivity|].
    rewrite !to_Q_finite. cbn [cond_Zopp].
    rewrite inject_Z_mult, pow2_Z by lia.
    assert (Hx : (pow2 ex == pow2 ey * pow2 (ex - ey))%Q).
    { rewrite <- pow2_plus. now replace (ey + (ex - ey)) with ex by ring. }
    rewrite Hx. field. repeat split; lra.
Qed.

Lemma pow10_pos : forall k, 0 <= k -> 0 < 10 ^ k.
Proof. intros k H. apply Z.pow_pos_nonneg; lia. Qed.

(** The integer of [round_digits]: the float times 10^ndigits, rounded. *)
Lemma round_digits_finite : forall m e nd, 0 <= nd <= 323 ->
  exists k, 0 <= k /\
    (Qabs (inject_Z k -
           Float.to_Q (S754_finite false m e) * inject_Z (10 ^ nd)) <= 1 # 2)%Q /\
    Float.round_digits (S754_finite false m e) nd =
      if k =? 0 then Ok (S754_zero false)
      else if Float.is_finite (Float.round_ratio false k (10 ^ nd))
           then Ok (Float.round_ratio false k (10 ^ nd))
           else Raise OverflowError.
Proof.
  intros m e nd [H0 H323]. unfold Float.round_digits.
  replace (323 <? nd) with false by (symmetry; apply Z.ltb_ge; lia).
  replace (nd <? -308) with false by (symmetry; apply Z.ltb_ge; lia).
  replace (nd <? 0) with false by (symmetry; apply Z.ltb_ge; lia).
  pose proof (pow10_pos nd H0) as HT.
  pose proof (to_Q_finite false m e) as HQ. cbn [cond_Zopp] in HQ.
  destruct (e <? 0) eqn:E.
  - apply Z.ltb_lt in E.
    assert (H2 : 0 < 2 ^ (- e)) by (apply Z.pow_pos_nonneg; lia).
    destruct (round_half_even_spec (Z.pos m * 10 ^ nd) (2 ^ (- e))
                ltac:(nia) H2) as [K0 K].
    exists (Float.round_half_even (Z.pos m * 10 ^ nd) (2 ^ (- e))).
    split; [exact K0|]. split; [|reflexivity].
    rewrite HQ.
    set (k := Float.round_half_even (Z.pos m * 10 ^ nd) (2 ^ (- e))) in *.
    apply Zabs_le_Q in K. rewrite !inject_Z_mult, pow2_Z in K by lia.
    assert (Hinv : (pow2 e * pow2 (- e) == 1)%Q).
    { rewrite <- pow2_plus. replace (e + - e) with 0 by ring. reflexivity. }
    pose proof (pow2_pos e) as Pe. pose proof (pow2_pos (- e)) as Pn.
    (* multiply the goal by 2^-e *)
    apply (Qmult_le_r _ _ (pow2 (- e))); [exact Pn|].
    rewrite <- (Qabs_pos (pow2 (- e))) at 1 by lra.
    rewrite <- Qabs_Qmult.
    setoid_replace ((inject_Z k - inject_Z (Z.pos m) * pow2 e * inject_Z (10 ^ nd))
                    * pow2 (- e))%Q
      with (inject_Z k * pow2 (- e)
            - inject_Z (Z.pos m) * inject_Z (10 ^ nd) * (pow2 e * pow2 (- e)))%Q by ring.
    rewrite Hinv, Qmult_1_r. exact K.
  - apply Z.ltb_ge in E.
    assert (H2 : 0 < 2 ^ e) by (apply Z.pow_pos_nonneg; lia).
    exists (Float.round_half_even (Z.pos m * 2 ^ e * 10 ^ nd) 1).
    rewrite <- (Z.mul_1_r (Z.pos m * 2 ^ e * 10 ^ nd)).
    rewrite round_half_even_exact by lia.
    split; [nia|]. split; [|reflexivity].
    rewrite HQ.
    rewrite !inject_Z_mult, pow2_Z by lia.
    setoid_replace (inject_Z (Z.pos m) * pow2 e * inject_Z (10 ^ nd)
                    - inject_Z (Z.pos m) * pow2 e * inject_Z (10 ^ nd))%Q
      with 0%Q by ring.
    discriminate.
Qed.

(** A finite float of positive sign is a zero or a positive number. *)
Lemma finite_nonnegative_cases : forall x,
  Float.is_finite x = true -> Float.sign_of x = false ->
  x = S754_zero false \/ exists m e, x = S754_finite false m e.
Proof.
  intros [s|s| |s m e] Hf Hs; try discriminate Hf; cbn in Hs; subst s.
  - now left.
  - right. eauto.
Qed.



Lemma Qdiv_lt_mul : forall a b c, (0 < b -> a / b < c -> a < c * b)%Q.
Proof.
  intros a b c Hb H.
  setoid_replace a with (a / b * b)%Q by (field; lra).
  apply Qmult_lt_r; assumption.
Qed.

Lemma Qabs_div_le : forall a x b c,
  (0 < b -> Qabs (a - x * b) <= c -> Qabs (a / b - x) <= c / b)%Q.
Proof.
  intros a x b c Hb H.
  setoid_replace (a / b - x)%Q with ((a - x * b) * / b)%Q by (field; lra).
  rewrite Qabs_Qmult, (Qabs_pos (/ b)).
  2: { apply Qlt_le_weak, Qinv_lt_0_compat; exact Hb. }
  unfold Qdiv. apply Qmult_le_r; [apply Qinv_lt_0_compat; exact Hb | exact H].
Qed.

(** The error of a quotient of two positive floats rounded to [nd]
    decimal places: half a unit of the last place kept, and the three
    binary roundings on the way. *)
Lemma quotient_rounded : forall mx ex my ey nd v,
  0 <= nd <= 323 ->
  (Float.to_Q (S754_finite false mx ex) / Float.to_Q (S754_finite false my ey)
     == v)%Q ->
  (v <= pow2 60)%Q ->
  exists p,
    (q <- Float.truediv (S754_finite false mx ex) (S754_finite false my ey) ;;
     Float.round_digits q nd) = Ok p /\
    Float.is_finite p = true /\
    (Qabs (Float.to_Q p - v)
       <= (1 # 2) / inject_Z (10 ^ nd) + (3 * v + 1) * pow2 (-53) + pow2 (-1074))%Q.
Proof.
  intros mx ex my ey nd v Hnd Hv Hv60.
  destruct (truediv_finite mx ex my ey) as (n & d & Hn & Hd & E & Hq).
  rewrite E. cbn [bind]. rewrite Hv in Hq. clear E Hv.
  pose proof (Qpos_inject n Hn) as Qn. pose proof (Qpos_inject d Hd) as Qd.
  assert (Hvpos : (0 < v)%Q).
  { rewrite <- Hq. apply Qlt_shift_div_l; [exact Qd|]. lra. }
  assert (H60 : (2 * pow2 60 + 1 < pow2 1023)%Q) by (vm_compute; reflexivity).
  assert (Hu : (0 < pow2 (-53) <= 1)%Q)
    by (split; vm_compute; [reflexivity|discriminate]).
  assert (Ht : (0 < pow2 (-1075) <= 1 # 2)%Q)
    by (split; vm_compute; [reflexivity|discriminate]).
  assert (Ht2 : (pow2 (-1074) == 2 * pow2 (-1075))%Q).
  { rewrite <- (pow2_pred (-1074)). reflexivity. }
  pose proof (pow2_pos 60) as P60.
  assert (Hov : (inject_Z n < pow2 1023 * inject_Z d)%Q).
  { apply Qdiv_lt_mul; [exact Qd|]. rewrite Hq. lra. }
  destruct (round_ratio_error n d Hn Hd Hov) as [Hfin Herr].
  rewrite Hq in Herr.
  pose proof (round_ratio_sign false n d) as Hsign.
  set (q1 := Float.round_ratio false n d) in *.
  set (u := pow2 (-53)) in *. set (t := pow2 (-1075)) in *.
  pose proof (pow10_pos nd ltac:(lia)) as HT.
  pose proof (Qpos_inject _ HT) as QT.
  assert (HT1 : (1 <= inject_Z (10 ^ nd))%Q).
  { change 1%Q with (inject_Z 1). rewrite <- Zle_Qle. lia. }
  set (T := inject_Z (10 ^ nd)) in *.
  assert (HhT : (0 < (1 # 2) / T <= 1 # 2)%Q).
  { split.
    - apply Qlt_shift_div_l; [exact QT|]. lra.
    - apply Qle_shift_div_r; [exact QT|]. lra. }
  set (hT := ((1 # 2) / T)%Q) in *.
  set (A := (v * u)%Q) in *.
  assert (HA : (0 <= A <= v)%Q).
  { unfold A. split.
    - apply Qmult_le_0_compat; lra.
    - rewrite <- (Qmult_1_r v) at 2. apply Qmult_le_l; lra. }
  setoid_replace ((3 * v + 1) * u)%Q with (3 * A + u)%Q by (unfold A; ring).
  setoid_rewrite Ht2.
  apply Qabs_Qle_condition in Herr.
  destruct (finite_nonnegative_cases q1 Hfin Hsign) as [Hz | (m & e & Hm)].
  - rewrite Hz in *. cbn [Float.round_digits Float.to_Q] in *.
    exists (S754_zero false). split; [reflexivity|]. split; [reflexivity|].
    cbn [Float.to_Q]. apply Qabs_Qle_condition. lra.
  - rewrite Hm in *.
    destruct (round_digits_finite m e nd Hnd) as (k & K0 & HK & Eq).
    rewrite Eq. clear Eq.
    set (Q1 := Float.to_Q (S754_finite false m e)) in *.
    apply Qabs_div_le with (b := T) in HK; [|exact QT].
    fold hT in HK. apply Qabs_Qle_condition in HK.
    destruct (k =? 0) eqn:Ek.
    + apply Z.eqb_eq in Ek. subst k.
      exists (S754_zero false). split; [reflexivity|]. split; [reflexivity|].
      cbn [Float.to_Q]. apply Qabs_Qle_condition.
      setoid_replace (inject_Z 0 / T)%Q with 0%Q in HK by (field; lra).
      lra.
    + apply Z.eqb_neq in Ek.
      assert (Hk : 0 < k) by lia.
      set (K := (inject_Z k / T)%Q) in *.
      assert (HKv : (K <= 2 * v + 1)%Q) by lra.
      assert (Hov2 : (inject_Z k < pow2 1023 * inject_Z (10 ^ nd))%Q).
      { fold T. apply Qdiv_lt_mul; [exact QT|]. fold K. lra. }
      destruct (round_ratio_error k (10 ^ nd) Hk HT Hov2) as [Hfin2 Herr2].
      rewrite Hfin2. fold T in Herr2. fold K in Herr2. fold u t in Herr2.
      exists (Float.round_ratio false k (10 ^ nd)).
      split; [reflexivity|]. split; [exact Hfin2|].
      assert (HB : (K * u <= 2 * A + u)%Q).
      { setoid_replace (2 * A + u)%Q with ((2 * v + 1) * u)%Q by (unfold A; ring).
        apply Qmult_le_r; lra. }
      apply Qabs_Qle_condition in Herr2.
      apply Qabs_Qle_condition. lra.
Qed.

(* ------------------------------------------------------------------ *)
(** ** The delay of timestamp replay *)

(** [total_seconds] of a positive difference is the difference in seconds,
    rounded to the nearest float. *)
Lemma total_seconds_value : forall us, 0 < us < 2 ^ 1000 ->
  Float.is_finite (Producer.total_seconds us) = true /\
  (Qabs (Float.to_Q (Producer.total_seconds us) - inject_Z us / 1000000)
     <= inject_Z us / 1000000 * pow2 (-53) + pow2 (-1075))%Q.
Proof.
  intros us [Hpos Hb]. unfold Producer.total_seconds, Float.of_Q.
  cbn [Qnum Qden]. destruct us as [|q|q]; try lia.
  apply (round_ratio_error (Z.pos q) 1000000); try lia.
  assert (H1 : (inject_Z (Z.pos q) < inject_Z (2 ^ 1000))%Q)
    by (rewrite <- Zlt_Qlt; exact Hb).
  rewrite pow2_Z in H1 by lia.
  pose proof (pow2_le 1000 1023 ltac:(lia)) as Hle.
  pose proof (pow2_pos 1023) as Hp.
  assert (H2 : (pow2 1023 * 1 <= pow2 1023 * inject_Z 1000000)%Q).
  { apply Qmult_le_l; [exact Hp|]. discriminate. }
  lra.
Qed.

(** When the timestamp column of the record holds a text that parses,
    [get_time_stamp_diff] returns, without raising, a delay [c] and stores
    the parsed timestamp as the previous one.  With no previous timestamp
    stored [c] is 0; otherwise [c] is the difference of the parsed timestamp
    and the previous one, in seconds: [total_seconds] of it, which for a
    positive difference is the quotient by 10^6 rounded to the nearest
    float.  When that difference is zero or negative, as for the first
    record, the wait of the pass does not block. *)
Lemma get_time_stamp_diff_parsed : forall env p readings text t,
  dict_get readings (timestampCol (Producer.self_handle p)) = Some (VStr text) ->
  strptime env text (timestampFormat (Producer.self_handle p)) = Ok t ->
  exists c,
    Producer.get_time_stamp_diff env p readings =
      (Ok c, Producer.set_prv_readings_ts p (Some t)) /\
    (Producer.prv_readings_ts p = None -> c = S754_zero false) /\
    (forall prv, Producer.prv_readings_ts p = Some prv ->
       c = Producer.total_seconds (t - prv)) /\
    (forall prv, Producer.prv_readings_ts p = Some prv ->
       prv < t < prv + 2 ^ 1000 ->
       Float.is_finite c = true /\
       (Qabs (Float.to_Q c - inject_Z (t - prv) / 1000000)
          <= inject_Z (t - prv) / 1000000 * pow2 (-53) + pow2 (-1075))%Q) /\
    (forall flag elapsed,
       nonnegative elapsed = true ->
       (Producer.prv_readings_ts p = None \/
        exists prv, Producer.prv_readings_ts p = Some prv /\ t <= prv) ->
       Threading.Event_wait flag (Float.sub c elapsed) = Ok Threading.Immediately).
Proof.
  intros env p readings text t Hget Hparse.
  unfold Producer.get_time_stamp_diff. rewrite Hget, Hparse. cbn [bind].
  eexists. split; [reflexivity|].
  split. { intros ->. reflexivity. }
  split. { intros prv ->. reflexivity. }
  split. { intros prv -> Hr. apply total_seconds_value. lia. }
  intros flag elapsed He Hcase. unfold Threading.Event_wait.
  destruct flag; [reflexivity|].
  rewrite sub_not_positive; [reflexivity | | exact He].
  destruct Hcase as [-> | [prv [-> Hle]]]; [reflexivity|].
  apply total_seconds_nonpositive. lia.
Qed.

(** A timestamp that is all digits is an integer by the time it is to be
    parsed: [get_data] has coerced it, [strptime] refuses what is no text
    and [get_time_stamp_diff] raises [RuntimeError], whatever is stored as
    the previous timestamp. *)
Lemma get_time_stamp_diff_of_integer : forall env p readings n,
  dict_get readings (timestampCol (Producer.self_handle p)) = Some (VInt n) ->
  Producer.get_time_stamp_diff env p readings = (Raise RuntimeError, p).
Proof.
  intros env p readings n H. unfold Producer.get_time_stamp_diff.
  now rewrite H.
Qed.

(** C2 at a failing input: a recording whose timestamps are written with
    digits only, [100000] and [100030] in the format [%H%M%S].  The first
    record comes out of [get_data] with the integer 100000 under the
    timestamp column; [get_time_stamp_diff] raises [RuntimeError] on it, and
    on the second record as well, so that no delay is computed: not the 0 of
    the first record and not the 30 seconds of the second.  In the session
    the first pass logs the exception and [run] ends at its wait, with
    nothing put. *)
Theorem digit_timestamps_are_not_replayed : forall env elapsed now,
  exists r1 p1 r2 p2 s,
    Producer.next_sensor_data env digits_time_file digits_time_producer
      = (Ok r1, p1) /\
    r1 = [("ts", VInt 100000); ("v", VInt 1)] /\
    Producer.get_time_stamp_diff env p1 r1 = (Raise RuntimeError, p1) /\
    Producer.next_sensor_data env digits_time_file p1 = (Ok r2, p2) /\
    r2 = [("ts", VInt 100030); ("v", VInt 2)] /\
    Producer.get_time_stamp_diff env p2 r2 = (Raise RuntimeError, p2) /\
    Session.producer_step env digits_time_file false elapsed now
      (Session.start 1 digits_time_producer) = Some s /\
    Session.producer_at s = Session.PRaised UnboundLocalError /\
    Session.warnings s = [Producer.producer_exception RuntimeError] /\
    Session.put_log s = [].
Proof.
  intros env elapsed now.
  do 5 eexists.
  split; [vm_compute; reflexivity|].
  split; [reflexivity|].
  split; [reflexivity|].
  split; [vm_compute; reflexivity|].
  split; [reflexivity|].
  split; [reflexivity|].
  split; [vm_compute; reflexivity|].
  split; [reflexivity|]. split; reflexivity.
Qed.

(** The timestamps 10:00:00, 10:00:30 and 10:01:00 of the specification:
    the delays are 0, 30 and 30 seconds, whatever the sample rate. *)
Lemma replay_delays_of_specification : forall rate,
  match first_session (with_sampleRate replay_handle rate) with
  | Some s =>
      delays example_env spaced_file 3 s =
        [Some (S754_zero false);
         Some (S754_finite false 8444249301319680 (-48));
         Some (S754_finite false 8444249301319680 (-48))]
  | None => True
  end /\
  Float.to_Q (S754_finite false 8444249301319680 (-48)) == 30.
Proof.
  intros rate. split; [|vm_compute; reflexivity].
  unfold first_session, Plugin.plugin_start.
  cbn [timestampFromFile with_sampleRate replay_handle String.eqb Ascii.eqb
       Bool.eqb Plugin.glob Plugin.BUCKET_SIZE Plugin.loaded].
  destruct (Producer.__init__ _) as [p|e] eqn:E; [|exact I].
  unfold Producer.__init__ in E.
  destruct (Producer.init_period _) as [x|e]; [|discriminate E].
  cbn in E. inversion E; subst p; clear E.
  cbn [snd Plugin.threads].
  vm_compute. reflexivity.
Qed.

(* ------------------------------------------------------------------ *)
(** ** Burst ticks and the timestamp flag *)

Section BurstTheorems.

Variable file : csv_file.



(** The start of [get_data] changes nothing of the Producer but
    [reading_cols]. *)
Lemma get_data_start_keeps : forall p,
  let p' := snd (Producer.get_data_start file p) in
  Producer.self_handle p' = Producer.self_handle p /\
  Producer.period p' = Producer.period p /\
  Producer.iter_sensor_data p' = Producer.iter_sensor_data p /\
  Producer.prv_readings_ts p' = Producer.prv_readings_ts p.
Proof.
  intros p. unfold Producer.get_data_start. cbv zeta.
  destruct (String.eqb (timestampFromFile (Producer.self_handle p)) "true");
    destruct (0 <? Z.of_nat (List.length (Producer.reading_cols p)));
    destruct (String.eqb (headerRow (Producer.self_handle p)) "true");
    destruct (String.eqb (fieldNames (Producer.self_handle p)) "None");
    try destruct (filter not_blank (csv_rows file));
    try destruct (csv_rows file); cbn; auto.
Qed.

(** [next()] leaves the handle, the period and the previous timestamp of
    the Producer as they are. *)
Lemma next_sensor_data_keeps : forall env p r p',
  Producer.next_sensor_data env file p = (r, p') ->
  Producer.self_handle p' = Producer.self_handle p /\
  Producer.period p' = Producer.period p /\
  Producer.prv_readings_ts p' = Producer.prv_readings_ts p.
Proof.
  intros env p r p'. unfold Producer.next_sensor_data.
  destruct (Producer.iter_sensor_data p).
  - destruct (get_data_start_keeps p) as (K1 & K2 & _ & K3).
    destruct (Producer.get_data_start file p) as [[[names rows]|e] p1];
      cbn [snd] in *.
    + destruct (Producer.get_data_resume env names rows) as [r1 g].
      intros H; inversion H; subst; cbn; auto.
    + intros H; inversion H; subst; cbn; auto.
  - destruct (Producer.get_data_resume env names rows) as [r1 g].
    intros H; inversion H; subst; cbn; auto.
  - intros H; inversion H; subst; auto.
Qed.

Lemma burst_loop_keeps : forall env n p acc o pts p',
  Producer.burst_loop env file n p acc = (o, pts, p') ->
  Producer.self_handle p' = Producer.self_handle p /\
  Producer.period p' = Producer.period p /\
  Producer.prv_readings_ts p' = Producer.prv_readings_ts p.
Proof.
  intros env n. induction n as [|n IH]; intros p acc o pts p' H.
  - cbn in H. inversion H; subst. auto.
  - cbn [Producer.burst_loop] in H.
    destruct (Producer.next_sensor_data env file p) as [[r|e] p1] eqn:E;
      apply next_sensor_data_keeps in E; destruct E as (E1 & E2 & E3).
    + apply IH in H. destruct H as (H1 & H2 & H3).
      rewrite H1, H2, H3. auto.
    + inversion H; subst. auto.
Qed.



End BurstTheorems.

(** The period of a burst session does not depend on timestampFromFile. *)
Lemma init_period_ignores_timestamp_flag : forall h v,
  Producer.init_period (with_timestampFromFile h v) = Producer.init_period h.
Proof. intros h v. reflexivity. Qed.


(** C10 at a failing input: ingestMode [burst] with burstInterval 1, the
    least value the setting allows, and timestampFromFile set.  [__init__]
    rounds 1/1000.0 to two decimal places, so the period is the float 0.0
    and not a thousandth of a second.  The delay after a completed burst is
    that 0.0, and the wait of the pass does not block, whatever time the
    pass has taken: bursts follow one another without a pause.  With
    burstInterval 5 the period is 0.01, twice the 5/1000 of the setting. *)
Theorem burst_delay_of_one_millisecond_is_zero :
  exists p st' sd,
    Producer.__init__ (burst_handle "1" "2") = Ok p /\
    Producer.period p = S754_zero false /\
    Producer.run_try example_env three_rows_file (Producer.mkState p false None)
      = (st', sd, []) /\
    Producer.next_iteration_secs st' = Some (S754_zero false) /\
    (forall flag elapsed, nonnegative elapsed = true ->
       (timeout <- Producer.wait_timeout st' elapsed ;;
        Threading.Event_wait flag timeout) = Ok Threading.Immediately) /\
    Float.of_Q (1 # 1000) <> S754_zero false /\
    ~ Float.to_Q (S754_zero false) == 1 # 1000 /\
    Producer.init_period (burst_handle "5" "2") = Ok (Float.of_decimal false 1 2) /\
    Float.of_decimal false 1 2 <> Float.of_Q (5 # 1000) /\
    (9 # 1000 < Float.to_Q (Float.of_decimal false 1 2))%Q.
Proof.
  destruct (Producer.__init__ (burst_handle "1" "2")) as [p|e] eqn:E.
  2: { vm_compute in E. discriminate E. }
  vm_compute in E. inversion E; subst p; clear E.
  eexists. eexists. eexists.
  split; [reflexivity|].
  split; [reflexivity|].
  split; [vm_compute; reflexivity|].
  split; [reflexivity|].
  split.
  { intros flag elapsed He. cbn [Producer.wait_timeout Producer.next_iteration_secs bind].
    unfold Threading.Event_wait. destruct flag; [reflexivity|].
    rewrite sub_not_positive; [reflexivity | reflexivity | exact He]. }
  split; [vm_compute; discriminate|].
  split; [vm_compute; discriminate|].
  split; [vm_compute; reflexivity|].
  split; [vm_compute; discriminate|].
  vm_compute. reflexivity.
Qed.

(* ------------------------------------------------------------------ *)
(** ** The period of a session *)

(** C8 as stated fails: at sampleRate 3 the period is the float 0.33, which
    is neither the float nearest to 1/3 nor within 0.003 of 1/3. *)
Lemma period_of_sampleRate_3 :
  Producer.init_period (with_sampleRate default_handle "3")
    = Ok (Float.of_decimal false 33 2) /\
  Float.of_decimal false 33 2 <> Float.of_Q (1 # 3) /\
  (3 # 1000 < (1 # 3) - Float.to_Q (Float.of_decimal false 33 2))%Q.
Proof.
  split; [vm_compute; reflexivity|].
  split; [vm_compute; discriminate|].
  vm_compute. reflexivity.
Qed.

(** An integer below 2^53 becomes the positive float of the same value. *)
Lemma of_int_exact : forall n, 0 < n < 2 ^ 53 ->
  exists m e, Float.of_int n = Ok (S754_finite false m e) /\
              (Float.to_Q (S754_finite false m e) == inject_Z n)%Q.
Proof.
  intros n Hn. unfold Float.of_int, Float.of_Q. cbn [inject_Z Qnum Qden].
  destruct n as [|q|q]; try lia.
  destruct (round_ratio_int_exact (Z.pos q) Hn) as [Hfin Hval].
  rewrite Hfin.
  destruct (finite_nonnegative_cases _ Hfin (round_ratio_sign false (Z.pos q) 1))
    as [Hz | (m & e & Hm)].
  - rewrite Hz in Hval. cbn [Float.to_Q] in Hval.
    pose proof (Qpos_inject (Z.pos q) ltac:(lia)) as Hp. rewrite <- Hval in Hp.
    discriminate Hp.
  - exists m, e. rewrite <- Hm. split; [reflexivity | exact Hval].
Qed.

Lemma ndigits_fuel_bounds : forall f n,
  1 <= ndigits_fuel f n <= Z.of_nat f + 1.
Proof.
  induction f as [|f IH]; intros n; cbn [ndigits_fuel]; [lia|].
  destruct (n <? 10); [lia|]. specialize (IH (n / 10)). lia.
Qed.

(** [len(str(n))] is the number of decimal digits of a positive [n]. *)
Lemma ndigits_fuel_spec : forall f n,
  0 < n < 2 ^ (Z.of_nat f + 1) ->
  10 ^ (ndigits_fuel f n - 1) <= n < 10 ^ ndigits_fuel f n.
Proof.
  induction f as [|f IH]; intros n [Hn Hb].
  - cbn in Hb. cbn [ndigits_fuel]. cbn. lia.
  - cbn [ndigits_fuel]. destruct (n <? 10) eqn:E.
    + apply Z.ltb_lt in E. cbn. lia.
    + apply Z.ltb_ge in E.
      pose proof (ndigits_fuel_bounds f (n / 10)) as Hd.
      assert (Hq : 0 < n / 10 < 2 ^ (Z.of_nat f + 1)).
      { split; [apply Z.div_str_pos; lia|].
        apply Z.div_lt_upper_bound; [lia|].
        replace (Z.of_nat (S f) + 1) with (Z.succ (Z.of_nat f + 1)) in Hb by lia.
        rewrite Z.pow_succ_r in Hb by lia. lia. }
      specialize (IH (n / 10) Hq).
      set (r := ndigits_fuel f (n / 10)) in *.
      replace (1 + r - 1) with (Z.succ (r - 1)) by lia.
      replace (1 + r) with (Z.succ r) by lia.
      rewrite !Z.pow_succ_r by lia.
      pose proof (Z.div_mod n 10 ltac:(lia)) as Ed.
      pose proof (Z.mod_pos_bound n 10 ltac:(lia)) as Bd.
      lia.
Qed.

Lemma len_str_spec : forall n, 0 < n ->
  1 <= len_str n <= Z.log2 n + 1 /\
  10 ^ (len_str n - 1) <= n < 10 ^ len_str n.
Proof.
  intros n Hn. unfold len_str.
  replace (n <? 0) with false by (symmetry; apply Z.ltb_ge; lia).
  pose proof (Z.log2_nonneg n) as Hl.
  split.
  - pose proof (ndigits_fuel_bounds (Z.to_nat (Z.log2 n)) n). lia.
  - apply ndigits_fuel_spec. split; [exact Hn|].
    rewrite Z2Nat.id by exact Hl.
    destruct (Z.log2_spec n Hn) as [_ U].
    replace (Z.log2 n + 1) with (Z.succ (Z.log2 n)) by lia. exact U.
Qed.

Section PeriodTheorems.

Variable env : Env.
Variable file : csv_file.

(** The period is set by [__init__] and nothing in [run] changes it. *)
Lemma run_try_keeps_period : forall st st' sd w,
  Producer.run_try env file st = (st', sd, w) ->
  Producer.period (Producer.self st') = Producer.period (Producer.self st).
Proof.
  intros st st' sd w H. unfold Producer.run_try in H. cbv zeta in H.
  destruct (String.eqb (ingestMode _) "burst").
  - destruct (py_int _); [|inversion H; reflexivity].
    destruct (Producer.burst_loop env file _ _ _) as [[o pts] p'] eqn:E.
    apply burst_loop_keeps in E. destruct E as (_ & E & _).
    destruct o as [e|]; [destruct e|]; inversion H; subst; exact E.
  - destruct (Producer.next_sensor_data env file _) as [[r|e] p'] eqn:E;
      apply next_sensor_data_keeps in E; destruct E as (_ & E & _).
    + destruct (String.eqb (timestampFromFile _) "true").
      * unfold Producer.get_time_stamp_diff in H.
        destruct (dict_get r _) as [[n|x|s]|];
          try (inversion H; subst; exact E).
        destruct (strptime env s _); inversion H; subst; exact E.
      * inversion H; subst; exact E.
    + destruct e; inversion H; subst; exact E.
Qed.

End PeriodTheorems.

(** ** Rounding is a function of the quotient *)

Lemma round_half_even_scale : forall N D g, 0 < D -> 0 < g ->
  Float.round_half_even (N * g) (D * g) = Float.round_half_even N D.
Proof.
  intros N D g HD Hg. unfold Float.round_half_even.
  rewrite Z.div_mul_cancel_r by lia.
  rewrite Z.mul_mod_distr_r by lia.
  pose proof (Z.mod_pos_bound N D HD) as B.
  set (r := N mod D) in *. set (q := N / D).
  replace (2 * (r * g) <? D * g) with (2 * r <? D).
  2: { destruct (Z.ltb_spec (2 * r) D), (Z.ltb_spec (2 * (r * g)) (D * g));
       try reflexivity; nia. }
  replace (D * g <? 2 * (r * g)) with (D <? 2 * r).
  2: { destruct (Z.ltb_spec D (2 * r)), (Z.ltb_spec (D * g) (2 * (r * g)));
       try reflexivity; nia. }
  reflexivity.
Qed.

Lemma round_half_even_ratio : forall a b c d, 0 < b -> 0 < d ->
  a * d = c * b ->
  Float.round_half_even a b = Float.round_half_even c d.
Proof.
  intros a b c d Hb Hd H.
  rewrite <- (round_half_even_scale a b d Hb Hd).
  rewrite <- (round_half_even_scale c d b Hd Hb).
  rewrite H. f_equal. ring.
Qed.

(** The integer strictly within one half of a quotient is its rounding. *)
Lemma round_half_even_unique : forall N D m, 0 < D ->
  2 * Z.abs (m * D - N) < D -> Float.round_half_even N D = m.
Proof.
  intros N D m HD H. unfold Float.round_half_even.
  pose proof (Z.div_mod N D ltac:(lia)) as E.
  pose proof (Z.mod_pos_bound N D HD) as B.
  set (r := N mod D) in *. set (q := N / D) in *.
  assert (Hm : m = q \/ m = q + 1) by nia.
  destruct (Z.ltb_spec (2 * r) D).
  - destruct Hm; [congruence | nia].
  - destruct (Z.ltb_spec D (2 * r)).
    + destruct Hm; [nia | congruence].
    + nia.
Qed.

Lemma floor_log2_ratio_unique : forall n d k, 0 < n -> 0 < d ->
  (pow2 k * inject_Z d <= inject_Z n)%Q ->
  (inject_Z n < 2 * pow2 k * inject_Z d)%Q ->
  Float.floor_log2_ratio n d = k.
Proof.
  intros n d k Hn Hd L U.
  pose proof (floor_log2_ratio_ge n d k Hn Hd L).
  assert (Float.floor_log2_ratio n d < k + 1); [|lia].
  apply floor_log2_ratio_lt; try assumption.
  now rewrite pow2_succ.
Qed.

Lemma cross_Q : forall a b c d : Z,
  a * d = c * b -> (inject_Z a * inject_Z d == inject_Z c * inject_Z b)%Q.
Proof. intros a b c d H. rewrite <- !inject_Z_mult, H. reflexivity. Qed.

Lemma floor_log2_ratio_ratio : forall a b c d,
  0 < a -> 0 < b -> 0 < c -> 0 < d -> a * d = c * b ->
  Float.floor_log2_ratio a b = Float.floor_log2_ratio c d.
Proof.
  intros a b c d Ha Hb Hc Hd H. symmetry.
  destruct (floor_log2_ratio_spec a b Ha Hb) as [L U].
  set (k := Float.floor_log2_ratio a b) in *.
  pose proof (cross_Q a b c d H) as HQ.
  pose proof (Qpos_inject b Hb) as Qb. pose proof (Qpos_inject d Hd) as Qd.
  pose proof (pow2_pos k) as Pk.
  apply floor_log2_ratio_unique; try assumption.
  - apply (Qmult_le_r _ _ (inject_Z b)); [exact Qb|].
    rewrite <- HQ.
    setoid_replace (pow2 k * inject_Z d * inject_Z b)%Q
      with (pow2 k * inject_Z b * inject_Z d)%Q by ring.
    apply Qmult_le_r; assumption.
  - apply (Qmult_lt_r _ _ (inject_Z b)); [exact Qb|].
    rewrite <- HQ.
    setoid_replace (2 * pow2 k * inject_Z d * inject_Z b)%Q
      with (2 * pow2 k * inject_Z b * inject_Z d)%Q by ring.
    apply Qmult_lt_r; assumption.
Qed.

(** [round_ratio] depends on its two integers through their quotient
    only. *)
Lemma round_ratio_ratio : forall s a b c d,
  0 < a -> 0 < b -> 0 < c -> 0 < d -> a * d = c * b ->
  Float.round_ratio s a b = Float.round_ratio s c d.
Proof.
  intros s a b c d Ha Hb Hc Hd H. unfold Float.round_ratio.
  rewrite (floor_log2_ratio_ratio a b c d Ha Hb Hc Hd H).
  set (e := Z.max (Float.floor_log2_ratio c d - 52) Float.emin).
  assert (Hm : (if e <? 0 then Float.round_half_even (a * 2 ^ (- e)) b
                else Float.round_half_even a (b * 2 ^ e)) =
               (if e <? 0 then Float.round_half_even (c * 2 ^ (- e)) d
                else Float.round_half_even c (d * 2 ^ e))).
  { destruct (Z.ltb_spec e 0).
    - apply round_half_even_ratio; try assumption.
      replace (a * 2 ^ (- e) * d) with (a * d * 2 ^ (- e)) by ring.
      rewrite H. ring.
    - assert (0 < 2 ^ e) by (apply Z.pow_pos_nonneg; lia).
      apply round_half_even_ratio; nia. }
  rewrite Hm. reflexivity.
Qed.

Lemma Qlt_inject_Z : forall a b : Z, (inject_Z a < inject_Z b)%Q -> a < b.
Proof. intros a b H. rewrite Zlt_Qlt. exact H. Qed.

Lemma pow2_inv : forall e, (pow2 e * pow2 (- e) == 1)%Q.
Proof.
  intros e. rewrite <- pow2_plus. replace (e + - e) with 0 by ring. reflexivity.
Qed.

(** The converse of [scaled_round_error]: the integer strictly within one
    half of the scaled quotient is the one [round_ratio] takes. *)
Lemma scaled_round_unique : forall n d e M,
  0 < n -> 0 < d ->
  (Qabs (inject_Z M * pow2 e * inject_Z d - inject_Z n)
     < (1 # 2) * pow2 e * inject_Z d)%Q ->
  (if e <? 0 then Float.round_half_even (n * 2 ^ (- e)) d
   else Float.round_half_even n (d * 2 ^ e)) = M.
Proof.
  intros n d e M Hn Hd H.
  pose proof (pow2_pos e) as P. pose proof (pow2_pos (- e)) as Pn.
  pose proof (pow2_inv e) as Hinv.
  destruct (Z.ltb_spec e 0) as [E|E].
  - assert (H2 : 0 < 2 ^ (- e)) by (apply Z.pow_pos_nonneg; lia).
    apply round_half_even_unique; [exact Hd|].
    assert (HQ : (Qabs (inject_Z (M * d - n * 2 ^ (- e)))
                    < (1 # 2) * inject_Z d)%Q).
    { unfold Zminus. rewrite inject_Z_plus, inject_Z_opp, !inject_Z_mult.
      rewrite pow2_Z by lia.
      setoid_replace (inject_Z M * inject_Z d + - (inject_Z n * pow2 (- e)))%Q
        with ((inject_Z M * pow2 e * inject_Z d - inject_Z n) * pow2 (- e))%Q.
      2: { setoid_replace (inject_Z M * inject_Z d)%Q
             with (inject_Z M * inject_Z d * (pow2 e * pow2 (- e)))%Q
             by (rewrite Hinv; ring).
           ring. }
      rewrite Qabs_Qmult, (Qabs_pos (pow2 (- e))) by lra.
      setoid_replace ((1 # 2) * inject_Z d)%Q
        with ((1 # 2) * pow2 e * inject_Z d * pow2 (- e))%Q.
      2: { setoid_replace ((1 # 2) * pow2 e * inject_Z d * pow2 (- e))%Q
             with ((1 # 2) * inject_Z d * (pow2 e * pow2 (- e)))%Q by ring.
           rewrite Hinv. ring. }
      apply Qmult_lt_r; assumption. }
    apply Qabs_Qlt_condition in HQ. destruct HQ as [Q1 Q2].
    unfold Qlt, Qmult, Qopp, inject_Z in Q1, Q2. cbn [Qnum Qden Pos.mul] in Q1, Q2.
    lia.
  - assert (H2 : 0 < 2 ^ e) by (apply Z.pow_pos_nonneg; lia).
    apply round_half_even_unique; [nia|].
    assert (HQ : (Qabs (inject_Z (M * (d * 2 ^ e) - n))
                    < (1 # 2) * inject_Z (d * 2 ^ e))%Q).
    { unfold Zminus. rewrite inject_Z_plus, inject_Z_opp, !inject_Z_mult.
      rewrite pow2_Z by lia.
      setoid_replace (inject_Z M * (inject_Z d * pow2 e) + - inject_Z n)%Q
        with (inject_Z M * pow2 e * inject_Z d - inject_Z n)%Q by ring.
      setoid_replace ((1 # 2) * (inject_Z d * pow2 e))%Q
        with ((1 # 2) * pow2 e * inject_Z d)%Q by ring.
      exact H. }
    apply Qabs_Qlt_condition in HQ. destruct HQ as [Q1 Q2].
    unfold Qlt, Qmult, Qopp, inject_Z in Q1, Q2. cbn [Qnum Qden Pos.mul] in Q1, Q2.
    lia.
Qed.

(** A quotient in the range of the normal numbers rounds to a float with a
    53-bit significand, half a unit of its last place away at most. *)
Lemma round_ratio_normal : forall n d, 0 < n -> 0 < d ->
  (pow2 (-1022) * inject_Z d <= inject_Z n)%Q ->
  (inject_Z n < pow2 1023 * inject_Z d)%Q ->
  exists M E,
    Float.round_ratio false n d = S754_finite false M E /\
    2 ^ 52 <= Z.pos M < 2 ^ 53 /\ -1074 <= E <= 971 /\
    (Qabs (inject_Z (Z.pos M) * pow2 E * inject_Z d - inject_Z n)
       <= (1 # 2) * pow2 E * inject_Z d)%Q.
Proof.
  intros n d Hn Hd Hlo Hhi.
  pose proof (floor_log2_ratio_lt n d 1023 Hn Hd Hhi) as Hfl.
  pose proof (floor_log2_ratio_ge n d (-1022) Hn Hd Hlo) as Hfl'.
  destruct (floor_log2_ratio_spec n d Hn Hd) as [L U].
  set (fl := Float.floor_log2_ratio n d) in *.
  pose proof (Qpos_inject d Hd) as Qd.
  destruct (scaled_round_error n d (fl - 52) Hn Hd) as [M0 Herr].
  unfold Float.round_ratio. fold fl.
  replace (Z.max (fl - 52) Float.emin) with (fl - 52)
    by (unfold Float.emin; lia).
  set (e := fl - 52) in *.
  set (m := if e <? 0 then Float.round_half_even (n * 2 ^ (- e)) d
            else Float.round_half_even n (d * 2 ^ e)) in *.
  pose proof (pow2_pos e) as Pe.
  assert (Hfle : (pow2 fl == inject_Z (2 ^ 52) * pow2 e)%Q).
  { rewrite pow2_Z by lia. rewrite <- pow2_plus.
    now replace (52 + e) with fl by (unfold e; ring). }
  assert (Ped : (0 < pow2 e * inject_Z d)%Q).
  { apply Qmult_lt_0_compat; assumption. }
  apply Qabs_Qle_condition in Herr. destruct Herr as [E1 E2].
  assert (Hm1 : 2 ^ 52 - 1 < m).
  { apply Qlt_inject_Z.
    apply (Qmult_lt_r _ _ (pow2 e * inject_Z d)); [exact Ped|].
    unfold Zminus. rewrite inject_Z_plus, inject_Z_opp.
    rewrite Hfle in L.
    change (inject_Z 1) with 1%Q. lra. }
  assert (Hm2 : m < 2 ^ 53 + 1).
  { apply Qlt_inject_Z.
    apply (Qmult_lt_r _ _ (pow2 e * inject_Z d)); [exact Ped|].
    rewrite inject_Z_plus.
    rewrite Hfle in U.
    change (inject_Z (2 ^ 53)) with (2 * inject_Z (2 ^ 52))%Q.
    change (inject_Z 1) with 1%Q. lra. }
  destruct (Z.eqb_spec m (2 ^ 53)) as [E53|E53].
  - replace (2 ^ 52 =? 0) with false by reflexivity.
    replace (Float.etop <? e + 1) with false
      by (symmetry; apply Z.ltb_ge; unfold Float.etop, e; lia).
    exists (Z.to_pos (2 ^ 52)), (e + 1).
    split; [reflexivity|].
    split; [rewrite Z2Pos.id by lia; lia|].
    split; [unfold e; lia|].
    rewrite Z2Pos.id by lia. rewrite pow2_succ.
    apply Qabs_Qle_condition.
    rewrite E53 in E1, E2.
    change (inject_Z (2 ^ 53)) with (2 * inject_Z (2 ^ 52))%Q in E1, E2.
    split; lra.
  - destruct (Z.eqb_spec m 0) as [E0|E0]; [lia|].
    replace (Float.etop <? e) with false
      by (symmetry; apply Z.ltb_ge; unfold Float.etop, e; lia).
    exists (Z.to_pos m), e.
    split; [reflexivity|].
    rewrite Z2Pos.id by lia.
    split; [lia|]. split; [unfold e; lia|].
    apply Qabs_Qle_condition. split; assumption.
Qed.

(** The float strictly within half a unit of its last place of a quotient
    is the one the quotient rounds to, when the quotient does not lie
    under a power of two. *)
Lemma round_ratio_nearest : forall n d M E, 0 < n -> 0 < d ->
  2 ^ 52 <= Z.pos M < 2 ^ 53 -> -1074 <= E <= 971 ->
  (Qabs (inject_Z (Z.pos M) * pow2 E * inject_Z d - inject_Z n)
     < (1 # 2) * pow2 E * inject_Z d)%Q ->
  2 ^ 52 < Z.pos M \/
    (inject_Z (Z.pos M) * pow2 E * inject_Z d <= inject_Z n)%Q ->
  Float.round_ratio false n d = S754_finite false M E.
Proof.
  intros n d M E Hn Hd HM HE Herr Hside.
  pose proof (Qpos_inject d Hd) as Qd. pose proof (pow2_pos E) as PE.
  assert (Ped : (0 < pow2 E * inject_Z d)%Q).
  { apply Qmult_lt_0_compat; assumption. }
  assert (Hfle : (pow2 (E + 52) == inject_Z (2 ^ 52) * pow2 E)%Q).
  { rewrite pow2_Z by lia. rewrite <- pow2_plus.
    now replace (52 + E) with (E + 52) by ring. }
  assert (Herr' := Herr).
  apply Qabs_Qlt_condition in Herr'. destruct Herr' as [E1 E2].
  assert (HM1 : (inject_Z (2 ^ 52) <= inject_Z (Z.pos M))%Q)
    by (rewrite <- Zle_Qle; lia).
  assert (HM2 : (inject_Z (Z.pos M) <= inject_Z (2 ^ 53 - 1))%Q)
    by (rewrite <- Zle_Qle; lia).
  unfold Zminus in HM2. rewrite inject_Z_plus, inject_Z_opp in HM2.
  change (inject_Z (2 ^ 53)) with (2 * inject_Z (2 ^ 52))%Q in HM2.
  change (inject_Z 1) with 1%Q in HM2.
  assert (P52 : (0 < inject_Z (2 ^ 52))%Q) by reflexivity.
  assert (Hfl : Float.floor_log2_ratio n d = E + 52).
  { apply floor_log2_ratio_unique; try assumption.
    - rewrite Hfle. destruct Hside as [Hs|Hs].
      + assert (HM3 : (inject_Z (2 ^ 52 + 1) <= inject_Z (Z.pos M))%Q)
          by (rewrite <- Zle_Qle; lia).
        rewrite inject_Z_plus in HM3. change (inject_Z 1) with 1%Q in HM3.
        assert ((inject_Z (2 ^ 52) + 1) * (pow2 E * inject_Z d)
                <= inject_Z (Z.pos M) * (pow2 E * inject_Z d))%Q
          by (apply Qmult_le_r; assumption).
        lra.
      + assert (inject_Z (2 ^ 52) * (pow2 E * inject_Z d)
                <= inject_Z (Z.pos M) * (pow2 E * inject_Z d))%Q
          by (apply Qmult_le_r; assumption).
        lra.
    - rewrite Hfle.
      assert (inject_Z (Z.pos M) * (pow2 E * inject_Z d)
              <= (2 * inject_Z (2 ^ 52) + - 1%Q) * (pow2 E * inject_Z d))%Q
        by (apply Qmult_le_r; assumption).
      lra. }
  unfold Float.round_ratio. rewrite Hfl.
  replace (Z.max (E + 52 - 52) Float.emin) with E by (unfold Float.emin; lia).
  rewrite (scaled_round_unique n d E (Z.pos M) Hn Hd Herr).
  replace (Z.pos M =? 2 ^ 53) with false by (symmetry; apply Z.eqb_neq; lia).
  replace (Z.pos M =? 0) with false by reflexivity.
  replace (Float.etop <? E) with false
    by (symmetry; apply Z.ltb_ge; unfold Float.etop; lia).
  reflexivity.
Qed.

(** ** Rounding to decimal places *)

Lemma Qround_half_even_spec : forall x, (0 <= x)%Q ->
  0 <= Qround_half_even x /\
  (Qabs (inject_Z (Qround_half_even x) - x) <= 1 # 2)%Q.
Proof.
  intros [N D] Hx. unfold Qround_half_even. cbn [Qnum Qden].
  assert (HN : 0 <= N) by (unfold Qle in Hx; cbn in Hx; lia).
  destruct (round_half_even_spec N (Z.pos D) HN ltac:(lia)) as [K0 K].
  split; [exact K0|].
  set (k := Float.round_half_even N (Z.pos D)) in *.
  apply Qabs_Qle_condition.
  unfold Qle, Qminus, Qplus, Qopp, Qmult, inject_Z.
  cbn [Qnum Qden Pos.mul]. lia.
Qed.

Lemma Qabs_lt_1_eq : forall a b : Z,
  (Qabs (inject_Z a - inject_Z b) < 1)%Q -> a = b.
Proof.
  intros a b H. apply Qabs_Qlt_condition in H. destruct H as [H1 H2].
  unfold Qlt, Qminus, Qplus, Qopp, inject_Z in H1, H2.
  cbn [Qnum Qden Pos.mul] in H1, H2. lia.
Qed.

(** [round(x, nd)] on a finite float that is not negative is the float
    rounded to [nd] decimal places, or [OverflowError]. *)
Lemma round_digits_places : forall x nd,
  Float.is_finite x = true -> Float.sign_of x = false -> 0 <= nd <= 323 ->
  Float.round_digits x nd =
    if Float.is_finite (rounded_to_places x nd)
    then Ok (rounded_to_places x nd) else Raise OverflowError.
Proof.
  intros x nd Hf Hs Hnd.
  destruct (finite_nonnegative_cases x Hf Hs) as [-> | (m & e & ->)].
  - reflexivity.
  - unfold Float.round_digits, rounded_to_places, Float.of_decimal,
      Qround_half_even.
    replace (323 <? nd) with false by (symmetry; apply Z.ltb_ge; lia).
    replace (nd <? -308) with false by (symmetry; apply Z.ltb_ge; lia).
    replace (nd <? 0) with false by (symmetry; apply Z.ltb_ge; lia).
    assert (HK : Float.round_half_even
                   (Qnum (Float.to_Q (S754_finite false m e) * inject_Z (10 ^ nd)))
                   (Z.pos (Qden (Float.to_Q (S754_finite false m e)
                                 * inject_Z (10 ^ nd)))) =
                 (let '(n, d) :=
                    let '(n, d) := if e <? 0 then (Z.pos m, 2 ^ (- e))
                                   else (Z.pos m * 2 ^ e, 1) in
                    (n * 10 ^ nd, d) in
                  Float.round_half_even n d)).
    { unfold Float.to_Q. destruct (Z.ltb_spec e 0) as [E|E].
      - replace (0 <=? e) with false by (symmetry; apply Z.leb_gt; lia).
        assert (H2 : 0 < 2 ^ (- e)) by (apply Z.pow_pos_nonneg; lia).
        cbn [Qmult Qnum Qden inject_Z cond_Zopp].
        rewrite Pos.mul_1_r, Z2Pos.id by exact H2. reflexivity.
      - replace (0 <=? e) with true by (symmetry; apply Z.leb_le; lia).
        cbn [Qmult Qnum Qden inject_Z cond_Zopp Pos.mul]. reflexivity. }
    rewrite HK. clear HK.
    destruct (e <? 0); cbv beta iota zeta;
      match goal with |- context [?k =? 0] => destruct (k =? 0) end;
      reflexivity.
Qed.

(** A power of two is no power of ten. *)
Lemma pow2_mod_5 : forall a, 0 <= a -> (2 ^ a) mod 5 <> 0.
Proof.
  intros a Ha. pattern a. apply natlike_ind; [discriminate| |exact Ha].
  intros x Hx IH. rewrite Z.pow_succ_r by exact Hx.
  rewrite Z.mul_mod by lia.
  pose proof (Z.mod_pos_bound (2 ^ x) 5 ltac:(lia)) as B.
  set (r := 2 ^ x mod 5) in *.
  assert (Hr : r = 1 \/ r = 2 \/ r = 3 \/ r = 4) by lia.
  destruct Hr as [-> | [-> | [-> | ->]]]; discriminate.
Qed.

Lemma pow2_neq_pow10 : forall a k, 0 <= a -> 1 <= k -> 2 ^ a <> 10 ^ k.
Proof.
  intros a k Ha Hk H. apply (pow2_mod_5 a Ha). rewrite H.
  replace k with (Z.succ (k - 1)) by lia.
  rewrite Z.pow_succ_r by lia.
  replace (10 * 10 ^ (k - 1)) with (2 * 10 ^ (k - 1) * 5) by ring.
  apply Z.mod_mul. lia.
Qed.

Lemma pow10_split : forall k, 0 <= k -> 10 ^ k = 2 ^ k * 5 ^ k.
Proof. intros k Hk. now rewrite <- Z.pow_mul_l. Qed.

Lemma pow10_le_pow2 : forall k, 0 <= k <= 17 -> 10 ^ k <= 2 ^ (53 + k).
Proof.
  intros k Hk. rewrite pow10_split, Z.pow_add_r by lia.
  assert (H5 : 5 ^ k <= 5 ^ 17) by (apply Z.pow_le_mono_r; lia).
  assert (H17 : 5 ^ 17 < 2 ^ 53) by reflexivity.
  assert (H2 : 0 < 2 ^ k) by (apply Z.pow_pos_nonneg; lia).
  nia.
Qed.

Lemma len_str_range : forall n, 10 <= n < 2 ^ 53 -> 2 <= len_str n <= 16.
Proof.
  intros n Hn. destruct (len_str_spec n ltac:(lia)) as [[H1 _] [L U]].
  split.
  - destruct (Z.eq_dec (len_str n) 1) as [E|E]; [|lia].
    rewrite E in U. change (10 ^ 1) with 10 in U. lia.
  - assert (H : 10 ^ (len_str n - 1) < 10 ^ 16).
    { assert (2 ^ 53 < 10 ^ 16) by reflexivity. lia. }
    apply Z.pow_lt_mono_r_iff in H; lia.
Qed.

(** From 10 on, a number of thousandths rounded to one more decimal place
    than the number has digits is the number of thousandths itself: the
    float nearest to [n / 1000]. *)
Lemma thousandths_rounded_exact : forall n, 10 <= n < 2 ^ 53 ->
  rounded_to_places (Float.round_ratio false n 1000) (len_str n + 1)
    = Float.round_ratio false n 1000.
Proof.
  intros n Hn.
  pose proof (len_str_range n Hn) as Hlen.
  destruct (len_str_spec n ltac:(lia)) as [_ [Ln Un]].
  set (k := len_str n + 1) in *.
  assert (Hk : 3 <= k <= 17) by (unfold k; lia).
  pose proof (Qpos_inject n ltac:(lia)) as Qn.
  assert (Qn10 : (10 <= inject_Z n)%Q)
    by (change 10%Q with (inject_Z 10); rewrite <- Zle_Qle; lia).
  assert (Qn53 : (inject_Z n < inject_Z (2 ^ 53))%Q)
    by (rewrite <- Zlt_Qlt; lia).
  destruct (round_ratio_normal n 1000 ltac:(lia) ltac:(lia))
    as (M & E & Hq & HM & HE & Herr).
  { assert (H : (pow2 (-1022) * inject_Z 1000 <= 10)%Q)
      by (vm_compute; discriminate).
    lra. }
  { assert (H : (inject_Z (2 ^ 53) <= pow2 1023 * inject_Z 1000)%Q)
      by (vm_compute; discriminate).
    lra. }
  rewrite Hq. unfold rounded_to_places, Float.of_decimal.
  set (T := 10 ^ k).
  assert (HT : 0 < T) by (apply Z.pow_pos_nonneg; lia).
  set (c := 10 ^ (k - 3)).
  assert (Hc : 0 < c) by (apply Z.pow_pos_nonneg; lia).
  assert (HTc : T = c * 1000).
  { unfold T, c. replace k with (k - 3 + 3) at 1 by ring.
    rewrite Z.pow_add_r by lia. reflexivity. }
  pose proof (Qpos_inject T HT) as QT. pose proof (Qpos_inject c Hc) as Qc.
  assert (QTc : (inject_Z T == inject_Z c * 1000)%Q).
  { rewrite HTc, inject_Z_mult. reflexivity. }
  pose proof (pow2_pos E) as PE.
  set (x := (Float.to_Q (S754_finite false M E) * inject_Z T)%Q).
  assert (Hx : (x == inject_Z (Z.pos M) * pow2 E * inject_Z T)%Q).
  { unfold x. rewrite to_Q_finite. reflexivity. }
  assert (HM1 : (inject_Z (2 ^ 52) <= inject_Z (Z.pos M))%Q)
    by (rewrite <- Zle_Qle; lia).
  assert (P52 : (inject_Z (2 ^ 52) == 4503599627370496)%Q) by reflexivity.
  assert (Hu : (0 < pow2 E * inject_Z T)%Q)
    by (apply Qmult_lt_0_compat; assumption).
  assert (Hxu : (x == inject_Z (Z.pos M) * (pow2 E * inject_Z T))%Q)
    by (rewrite Hx; ring).
  assert (Hx0 : (0 <= x)%Q).
  { rewrite Hxu. apply Qmult_le_0_compat; lra. }
  destruct (Qround_half_even_spec x Hx0) as [K0 HK].
  set (K := Qround_half_even x) in *.
  (* the quotient scaled to T *)
  set (I := n * c).
  assert (HI : (Qabs (x - inject_Z I)
                  <= (1 # 2) * (pow2 E * inject_Z T))%Q).
  { unfold I. rewrite inject_Z_mult, Hx, QTc.
    change (inject_Z 1000) with 1000%Q in Herr.
    setoid_replace (inject_Z (Z.pos M) * pow2 E * (inject_Z c * 1000)
                    - inject_Z n * inject_Z c)%Q
      with ((inject_Z (Z.pos M) * pow2 E * 1000 - inject_Z n) * inject_Z c)%Q
      by ring.
    rewrite Qabs_Qmult, (Qabs_pos (inject_Z c)) by lra.
    setoid_replace ((1 # 2) * (pow2 E * (inject_Z c * 1000)))%Q
      with ((1 # 2) * pow2 E * 1000 * inject_Z c)%Q by ring.
    apply Qmult_le_r; assumption. }
  destruct (Qlt_le_dec (pow2 E * inject_Z T) 1) as [Hlt|Hge].
  - (* the rounding gives back the integer n * c *)
    assert (HKI : K = I).
    { apply Qabs_lt_1_eq.
      setoid_replace (inject_Z K - inject_Z I)%Q
        with ((inject_Z K - x) + (x - inject_Z I))%Q by ring.
      eapply Qle_lt_trans; [apply Qabs_triangle|]. lra. }
    rewrite HKI.
    replace (I =? 0) with false by (symmetry; apply Z.eqb_neq; unfold I; nia).
    rewrite <- Hq. apply round_ratio_ratio; try lia; unfold I; nia.
  - assert (Hgt : (1 < pow2 E * inject_Z T)%Q).
    { apply Qle_lt_or_eq in Hge. destruct Hge as [H|H]; [exact H|].
      exfalso. destruct (Z.ltb_spec E 0) as [E0|E0].
      - apply (pow2_neq_pow10 (- E) k); [lia | lia|].
        fold T. apply inject_Z_injective. 
        rewrite pow2_Z by lia.
        pose proof (pow2_inv E) as Hinv. pose proof (pow2_pos (- E)) as Pn.
        setoid_replace (pow2 (- E)) with ((pow2 E * inject_Z T) * pow2 (- E))%Q
          by (rewrite <- H; ring).
        setoid_replace (pow2 E * inject_Z T * pow2 (- E))%Q
          with (inject_Z T * (pow2 E * pow2 (- E)))%Q by ring.
        rewrite Hinv. ring.
      - pose proof (pow2_le 0 E E0) as Hle. change (pow2 0) with 1%Q in Hle.
        assert (H1000 : (1000 <= inject_Z T)%Q).
        { rewrite QTc.
          assert (1 <= inject_Z c)%Q
            by (change 1%Q with (inject_Z 1); rewrite <- Zle_Qle; lia).
          lra. }
        assert (1 * 1000 <= pow2 E * inject_Z T)%Q
          by (apply Qmult_le_compat_nonneg; split; lra).
        lra. }
    assert (HxM : (inject_Z (2 ^ 52) * 1 <= x)%Q).
    { rewrite Hxu. apply Qmult_le_compat_nonneg; split; lra. }
    assert (HKpos : 0 < K).
    { apply Qlt_inject_Z. apply Qabs_Qle_condition in HK.
      change (inject_Z 0) with 0%Q. lra. }
    replace (K =? 0) with false by (symmetry; apply Z.eqb_neq; lia).
    destruct (Z.eq_dec (Z.pos M) (2 ^ 52)) as [E52|E52].
    + (* the float is a power of two and x an integer *)
      assert (Hexp : 0 <= 52 + E + k).
      { destruct (Z.le_gt_cases 0 (52 + E + k)) as [H|H]; [exact H|]. exfalso.
        pose proof (pow2_le E (- (53 + k)) ltac:(lia)) as Hle.
        pose proof (pow10_le_pow2 k ltac:(lia)) as H10. fold T in H10.
        rewrite Zle_Qle, pow2_Z in H10 by lia.
        pose proof (pow2_inv (53 + k)) as Hinv.
        pose proof (pow2_pos (- (53 + k))) as Pn.
        assert (A1 : (pow2 E * inject_Z T
                      <= pow2 (- (53 + k)) * inject_Z T)%Q)
          by (apply Qmult_le_r; assumption).
        assert (A2 : (pow2 (- (53 + k)) * inject_Z T
                      <= pow2 (- (53 + k)) * pow2 (53 + k))%Q)
          by (apply Qmult_le_l; assumption).
        assert (A3 : (pow2 (- (53 + k)) * pow2 (53 + k) == 1)%Q)
          by (rewrite Qmult_comm; exact Hinv).
        rewrite A3 in A2. lra. }
      set (J := 2 ^ (52 + E + k) * 5 ^ k).
      assert (HJ : (x == inject_Z J)%Q).
      { rewrite Hx, E52. unfold J, T.
        rewrite inject_Z_mult, (pow10_split k), inject_Z_mult by lia.
        rewrite !pow2_Z by lia.
        rewrite !pow2_plus. ring. }
      assert (HKJ : K = J).
      { apply Qabs_lt_1_eq. rewrite <- HJ.
        eapply Qle_lt_trans; [exact HK|]. reflexivity. }
      apply round_ratio_nearest; try assumption.
      * rewrite HKJ, <- HJ, <- Hx.
        setoid_replace (x - x)%Q with 0%Q by ring.
        change (Qabs 0) with 0%Q. lra.
      * right. rewrite HKJ, <- HJ, <- Hx. apply Qle_refl.
    + apply round_ratio_nearest; try assumption.
      * rewrite <- Hx.
        setoid_replace (x - inject_Z K)%Q with (- (inject_Z K - x))%Q by ring.
        rewrite Qabs_opp.
        eapply Qle_lt_trans; [exact HK|]. lra.
      * left. lia.
Qed.

Lemma of_Q_thousandths : forall n, 0 < n ->
  Float.of_Q (inject_Z n / 1000) = Float.round_ratio false n 1000.
Proof.
  intros [|p|p] Hn; try lia. unfold Float.of_Q.
  cbn [Qnum Qden Qdiv Qmult Qinv inject_Z Z.mul Pos.mul].
  rewrite Pos.mul_1_r. reflexivity.
Qed.

Lemma of_Q_reciprocal : forall n, 0 < n ->
  Float.of_Q (1 / inject_Z n) = Float.round_ratio false 1 n.
Proof.
  intros [|p|p] Hn; try lia. reflexivity.
Qed.

Lemma ratio_cross : forall a b c d, 0 < b -> 0 < d ->
  (inject_Z a / inject_Z b == inject_Z c / inject_Z d)%Q -> a * d = c * b.
Proof.
  intros a b c d Hb Hd H.
  pose proof (Qpos_inject b Hb) as Qb. pose proof (Qpos_inject d Hd) as Qd.
  apply inject_Z_injective. rewrite !inject_Z_mult.
  setoid_replace (inject_Z a * inject_Z d)%Q
    with (inject_Z a / inject_Z b * inject_Z b * inject_Z d)%Q by (field; lra).
  rewrite H. field. lra.
Qed.

(** The period [__init__] computes from a setting [n] below 2^53: the
    quotient of the two floats, rounded to one more decimal place than [n]
    has digits; [OverflowError] would be raised were that not finite. *)
Lemma init_period_places : forall h n,
  (if String.eqb (ingestMode h) "burst" then py_int (burstInterval h)
   else py_int (sampleRate h)) = Ok n ->
  0 < n < 2 ^ 53 ->
  let nominal := if String.eqb (ingestMode h) "burst"
                 then (inject_Z n / 1000)%Q else (1 / inject_Z n)%Q in
  let r := rounded_to_places (Float.of_Q nominal) (len_str n + 1) in
  Producer.init_period h =
    if Float.is_finite r then Ok r else Raise OverflowError.
Proof.
  intros h n Hparse Hn nominal r.
  destruct (len_str_spec n ltac:(lia)) as [[Hl1 Hl2] _].
  assert (Hlog : Z.log2 n < 53) by (apply Z.log2_lt_pow2; lia).
  assert (Hnd : 0 <= len_str n + 1 <= 323) by lia.
  destruct (of_int_exact n Hn) as (m & e & Hof & Hval).
  pose proof (Qpos_inject n ltac:(lia)) as Qn.
  assert (Hq : forall N D, 0 < N -> 0 < D ->
            (inject_Z N < pow2 1023 * inject_Z D)%Q ->
            Float.round_digits (Float.round_ratio false N D) (len_str n + 1) =
              if Float.is_finite
                   (rounded_to_places (Float.round_ratio false N D) (len_str n + 1))
              then Ok (rounded_to_places (Float.round_ratio false N D)
                         (len_str n + 1))
              else Raise OverflowError).
  { intros N D HN HD Hov. apply round_digits_places.
    - apply (round_ratio_error N D HN HD Hov).
    - apply round_ratio_sign.
    - exact Hnd. }
  assert (H53 : (inject_Z n < inject_Z (2 ^ 53))%Q) by (rewrite <- Zlt_Qlt; lia).
  assert (H1 : (inject_Z 1 <= inject_Z n)%Q) by (rewrite <- Zle_Qle; lia).
  change (inject_Z 1) with 1%Q in H1.
  unfold Producer.init_period. subst r nominal.
  destruct (String.eqb (ingestMode h) "burst").
  - rewrite Hparse. cbn [bind]. rewrite Hof. cbn [bind].
    change Producer.lit_1000 with (S754_finite false 8796093022208000 (-43)).
    destruct (truediv_finite m e 8796093022208000 (-43))
      as (N & D & HN & HD & Hdiv & Hrat).
    rewrite Hdiv. cbn [bind].
    rewrite Hval in Hrat.
    setoid_replace (Float.to_Q (S754_finite false 8796093022208000 (-43)))
      with (inject_Z 1000) in Hrat by (vm_compute; reflexivity).
    apply ratio_cross in Hrat; [|lia|lia].
    rewrite (round_ratio_ratio false N D n 1000) by lia.
    rewrite of_Q_thousandths by lia.
    rewrite Hq; [|lia|lia|].
    + destruct (Float.is_finite _); reflexivity.
    + assert (H : (inject_Z (2 ^ 53) <= pow2 1023 * inject_Z 1000)%Q)
        by (vm_compute; discriminate).
      lra.
  - rewrite Hparse. cbn [bind]. rewrite Hof. cbn [bind].
    change Producer.lit_1 with (S754_finite false 4503599627370496 (-52)).
    destruct (truediv_finite 4503599627370496 (-52) m e)
      as (N & D & HN & HD & Hdiv & Hrat).
    rewrite Hdiv. cbn [bind].
    rewrite Hval in Hrat.
    setoid_replace (Float.to_Q (S754_finite false 4503599627370496 (-52)))
      with (inject_Z 1) in Hrat by (vm_compute; reflexivity).
    apply ratio_cross in Hrat; [|lia|lia].
    rewrite (round_ratio_ratio false N D 1 n) by lia.
    rewrite of_Q_reciprocal by lia.
    rewrite Hq; [|lia|lia|].
    + destruct (Float.is_finite _); reflexivity.
    + assert (H : (1 < pow2 1023)%Q) by (vm_compute; reflexivity).
      pose proof (pow2_pos 1023) as P.
      assert (pow2 1023 * 1 <= pow2 1023 * inject_Z n)%Q
        by (apply Qmult_le_l; assumption).
      change (inject_Z 1) with 1%Q. lra.
Qed.

(** After a pass that logged nothing, under burst or without timestamp
    replay, the delay is the period, and the wait is for the period less
    the time the pass has taken. *)
Lemma run_try_delay_is_period : forall env file st st' sd,
  Producer.run_try env file st = (st', sd, []) ->
  ingestMode (Producer.self_handle (Producer.self st)) = "burst" \/
  timestampFromFile (Producer.self_handle (Producer.self st)) <> "true" ->
  Producer.next_iteration_secs st' = Some (Producer.period (Producer.self st)) /\
  forall elapsed,
    Producer.wait_timeout st' elapsed =
      Ok (Float.sub (Producer.period (Producer.self st)) elapsed).
Proof.
  intros env file st st' sd H Hmode.
  assert (Hnis : Producer.next_iteration_secs st'
                 = Some (Producer.period (Producer.self st))).
  { unfold Producer.run_try in H. cbv zeta in H.
    destruct (String.eqb (ingestMode _) "burst") eqn:Eb.
    - destruct (py_int _); [|discriminate H].
      destruct (Producer.burst_loop env file _ _ _) as [[o pts] p'] eqn:E.
      apply burst_loop_keeps in E. destruct E as (_ & E & _).
      destruct o as [e|]; [destruct e; discriminate H|].
      inversion H; subst. cbn. now rewrite E.
    - destruct (Producer.next_sensor_data env file _) as [[r|e] p'] eqn:E;
        apply next_sensor_data_keeps in E; destruct E as (_ & E & _).
      + destruct (String.eqb (timestampFromFile _) "true") eqn:Et.
        * exfalso. destruct Hmode as [Hm|Hm].
          -- rewrite Hm in Eb. discriminate Eb.
          -- apply String.eqb_eq in Et. contradiction.
        * inversion H; subst. cbn. now rewrite E.
      + destruct e; discriminate H. }
  split; [exact Hnis|].
  intros elapsed. unfold Producer.wait_timeout. now rewrite Hnis.
Qed.

(** C8 (amended): the period of a session is computed once, by [__init__],
    from the ingest mode and one setting [n] below 2^53: the quotient of
    floats 1.0/sampleRate under batch and burstInterval/1000.0 under burst,
    whatever the burst size, rounded to one more decimal place than [n] has
    digits.  Under burst, from burstInterval 10 on, that rounding changes
    nothing: the period is the float nearest to burstInterval/1000.  Under
    batch the period is a finite float within half a unit of that decimal
    place of 1/sampleRate, up to the binary roundings.  No pass of [run]
    changes the period; and after a pass that logged nothing, under burst
    or without timestamp replay, the delay of the tick is the period: the
    wait is for the period less the time the pass has taken. *)
Theorem period_rounded_to_decimals : forall h n,
  (if String.eqb (ingestMode h) "burst" then py_int (burstInterval h)
   else py_int (sampleRate h)) = Ok n ->
  (if String.eqb (ingestMode h) "burst" then 10 else 1) <= n < 2 ^ 53 ->
  let nominal := if String.eqb (ingestMode h) "burst"
                 then (inject_Z n / 1000)%Q else (1 / inject_Z n)%Q in
  exists p,
    Producer.__init__ h
      = Ok (Producer.mk h p Producer.GenCreated (readingCols h) None) /\
    p = rounded_to_places (Float.of_Q nominal) (len_str n + 1) /\
    (ingestMode h = "burst" -> p = Float.of_Q nominal) /\
    Float.is_finite p = true /\
    (Qabs (Float.to_Q p - nominal)
       <= (1 # 2) / inject_Z (10 ^ (len_str n + 1)) + binary_slack nominal)%Q /\
    (forall size, Producer.init_period (with_burstSize h size) = Ok p) /\
    (forall env file st st' sd w,
       Producer.run_try env file st = (st', sd, w) ->
       Producer.period (Producer.self st') = Producer.period (Producer.self st) /\
       (w = [] ->
        ingestMode (Producer.self_handle (Producer.self st)) = "burst" \/
        timestampFromFile (Producer.self_handle (Producer.self st)) <> "true" ->
        Producer.next_iteration_secs st'
          = Some (Producer.period (Producer.self st)) /\
        forall elapsed,
          Producer.wait_timeout st' elapsed =
            Ok (Float.sub (Producer.period (Producer.self st)) elapsed))).
Proof.
  intros h n Hparse Hrange nominal.
  assert (Hn : 0 < n < 2 ^ 53) by (destruct (String.eqb (ingestMode h) "burst"); lia).
  destruct (len_str_spec n ltac:(lia)) as [[Hl1 Hl2] _].
  assert (Hlog : Z.log2 n < 53) by (apply Z.log2_lt_pow2; lia).
  assert (Hnd : 0 <= len_str n + 1 <= 323) by lia.
  destruct (of_int_exact n Hn) as (m & e & Hof & Hval).
  pose proof (Qpos_inject n ltac:(lia)) as Qn.
  assert (H1 : (inject_Z 1 <= inject_Z n)%Q) by (rewrite <- Zle_Qle; lia).
  change (inject_Z 1) with 1%Q in H1.
  assert (Hres : exists p,
            Producer.init_period h = Ok p /\ Float.is_finite p = true /\
            (Qabs (Float.to_Q p - nominal)
               <= (1 # 2) / inject_Z (10 ^ (len_str n + 1)) + binary_slack nominal)%Q).
  { unfold Producer.init_period, nominal, binary_slack.
    destruct (String.eqb (ingestMode h) "burst").
    - rewrite Hparse. cbn [bind]. rewrite Hof. cbn [bind].
      change Producer.lit_1000 with (S754_finite false 8796093022208000 (-43)).
      destruct (quotient_rounded m e 8796093022208000 (-43) (len_str n + 1)
                  (inject_Z n / 1000)%Q Hnd) as (p & Hp & Hfin & Hb).
      + rewrite Hval.
        setoid_replace (Float.to_Q (S754_finite false 8796093022208000 (-43)))
          with 1000%Q by (vm_compute; reflexivity).
        reflexivity.
      + apply Qle_shift_div_r; [reflexivity|].
        assert (Hb : (inject_Z n <= inject_Z (2 ^ 53))%Q) by (rewrite <- Zle_Qle; lia).
        rewrite pow2_Z in Hb by lia.
        pose proof (pow2_le 53 60 ltac:(lia)) as Hle. pose proof (pow2_pos 60).
        lra.
      + rewrite Hp. exists p. split; [reflexivity|]. split; [exact Hfin|].
        eapply Qle_trans; [exact Hb|]. rewrite Qplus_assoc. apply Qle_refl.
    - rewrite Hparse. cbn [bind]. rewrite Hof. cbn [bind].
      change Producer.lit_1 with (S754_finite false 4503599627370496 (-52)).
      destruct (quotient_rounded 4503599627370496 (-52) m e (len_str n + 1)
                  (1 / inject_Z n)%Q Hnd) as (p & Hp & Hfin & Hb).
      + rewrite Hval.
        setoid_replace (Float.to_Q (S754_finite false 4503599627370496 (-52)))
          with 1%Q by (vm_compute; reflexivity).
        reflexivity.
      + apply Qle_shift_div_r; [exact Qn|].
        assert (Hone : (1 <= pow2 60)%Q) by (vm_compute; discriminate).
        setoid_replace 1%Q with (1 * 1)%Q at 1 by ring.
        apply Qmult_le_compat_nonneg; split; lra.
      + rewrite Hp. exists p. split; [reflexivity|]. split; [exact Hfin|].
        eapply Qle_trans; [exact Hb|]. rewrite Qplus_assoc. apply Qle_refl. }
  destruct Hres as (p & Hp & Hfin & Hb).
  assert (Hplaces : p = rounded_to_places (Float.of_Q nominal) (len_str n + 1)).
  { pose proof (init_period_places h n Hparse Hn) as Hr. cbv zeta in Hr.
    fold nominal in Hr. rewrite Hp in Hr.
    set (r := rounded_to_places (Float.of_Q nominal) (len_str n + 1)) in *.
    destruct (Float.is_finite r); [now inversion Hr | discriminate Hr]. }
  exists p.
  split; [unfold Producer.__init__; rewrite Hp; reflexivity|].
  split; [exact Hplaces|].
  split.
  { intros Hmode. rewrite Hplaces. unfold nominal.
    rewrite Hmode in Hrange |- *. rewrite String.eqb_refl in Hrange |- *.
    cbv iota in Hrange.
    rewrite of_Q_thousandths by lia.
    apply thousandths_rounded_exact. lia. }
  split; [exact Hfin|]. split; [exact Hb|].
  split; [intros size; exact Hp|].
  intros env file st st' sd w H.
  split; [exact (run_try_keeps_period env file _ _ _ _ H)|].
  intros -> Hmode. exact (run_try_delay_is_period env file _ _ _ H Hmode).
Qed.

Lemma period_rounded_to_decimals_witness :
  exists p,
    Producer.__init__ default_handle
      = Ok (Producer.mk default_handle p Producer.GenCreated
              (readingCols default_handle) None) /\
    p = rounded_to_places (Float.of_Q (1 / inject_Z 100)) (len_str 100 + 1) /\
    (ingestMode default_handle = "burst" -> p = Float.of_Q (1 / inject_Z 100)) /\
    Float.is_finite p = true /\
    (Qabs (Float.to_Q p - 1 / inject_Z 100)
       <= (1 # 2) / inject_Z (10 ^ (len_str 100 + 1))
          + binary_slack (1 / inject_Z 100))%Q /\
    (forall size, Producer.init_period (with_burstSize default_handle size) = Ok p) /\
    (forall env file st st' sd w,
       Producer.run_try env file st = (st', sd, w) ->
       Producer.period (Producer.self st') = Producer.period (Producer.self st) /\
       (w = [] ->
        ingestMode (Producer.self_handle (Producer.self st)) = "burst" \/
        timestampFromFile (Producer.self_handle (Producer.self st)) <> "true" ->
        Producer.next_iteration_secs st'
          = Some (Producer.period (Producer.self st)) /\
        forall elapsed,
          Producer.wait_timeout st' elapsed =
            Ok (Float.sub (Producer.period (Producer.self st)) elapsed))).
Proof.
  apply (period_rounded_to_decimals default_handle 100).
  - reflexivity.
  - cbn. lia.
Defined.

(* ================================================================== *)
(** * Further properties of the code *)

Section EndedTheorems.

Variable env : Env.
Variable file : csv_file.

Ltac session_fields :=
  cbn [Session.condition_owner Session.bucket Session.producer
       Session.producer_at Session.producer_is_stopped Session.consumer_at
       Session.consumer_is_stopped Session.put_log Session.dispatched
       Session.notified Session.warnings Session.waits] in *.

(** The exceptions of the wait are those of a timeout that is refused. *)
Lemma Event_wait_raises : forall flag timeout e,
  Threading.Event_wait flag timeout = Raise e ->
  e = OverflowError \/ e = ValueError.
Proof.
  intros flag timeout e. unfold Threading.Event_wait.
  destruct flag; [discriminate|].
  destruct (Float.is_positive timeout); [|discriminate].
  destruct timeout; try (intros H; inversion H; now left).
  unfold Threading.timeout_refused.
  destruct (Float.of_Q _) as [s0|s0| |s0 m0 x0]; try discriminate;
    destruct s0; try discriminate; try (intros H; inversion H; now left).
  destruct (Qle_bool (inject_Z (2 ^ 63)) _); [|discriminate].
  destruct (Qle_bool _ (inject_Z (2 ^ 63))); intros H; inversion H; auto.
Qed.

(** A pass never unbinds the delay. *)
Lemma run_try_keeps_delay_bound : forall st st' sd w,
  Producer.run_try env file st = (st', sd, w) ->
  Producer.next_iteration_secs st' = None ->
  Producer.next_iteration_secs st = None.
Proof.
  intros st st' sd w H. unfold Producer.run_try in H. cbv zeta in H.
  destruct (String.eqb (ingestMode _) "burst").
  - destruct (py_int _); [|inversion H; subst; auto].
    destruct (Producer.burst_loop env file _ _ _) as [[o pts] p'].
    destruct o as [e|]; [destruct e|]; inversion H; subst; cbn; auto; discriminate.
  - destruct (Producer.next_sensor_data env file _) as [[r|e] p'].
    + destruct (String.eqb (timestampFromFile _) "true").
      * destruct (Producer.get_time_stamp_diff env p' r) as [[c|e] p''];
          inversion H; subst; cbn; auto; discriminate.
      * inversion H; subst; cbn; discriminate.
    + destruct e; inversion H; subst; cbn; auto.
Qed.

Lemma step_ended : forall flag s s',
  Session.step env file flag s s' -> ended_inv s -> ended_inv s'.
Proof.
  intros flag s s' H (I1 & I2 & I3 & I4).
  destruct H as [elapsed now s s' H | s s' H].
  - destruct s as [o b p pc ps cc cs pl d n w ws].
    unfold Session.producer_step in H. unfold ended_inv in *. session_fields.
    destruct pc as [|sd t|sd t| | | |e].
    + destruct (Producer.run_try env file p) as [[st sd'] w'] eqn:E.
      unfold Producer.wait_timeout in H.
      destruct (Producer.next_iteration_secs st) as [x|] eqn:En;
        cbn [bind] in H.
      * destruct (Threading.Event_wait flag (Float.sub x elapsed))
          as [wt|e0] eqn:Ew;
          inversion H; subst; clear H; session_fields; rewrite ?En.
        -- repeat split; try discriminate; intros; discriminate.
        -- apply Event_wait_raises in Ew.
           split; [discriminate|].
           split; [intros e He; inversion He; subst; auto|].
           split; intros; discriminate.
      * inversion H; subst; clear H; session_fields; rewrite ?En.
        pose proof (run_try_keeps_delay_bound _ _ _ _ E En) as E0.
        destruct (I1 E0) as (_ & Ho & Hp).
        split; [intros _; auto|].
        split; [intros e He; inversion He; auto|].
        split; intros; discriminate.
    + assert (Hn : Producer.next_iteration_secs p <> None).
      { intros E0. destruct (I1 E0) as ([?|?] & _); discriminate. }
      destruct o as [[|]|]; try discriminate H; inversion H; subst; clear H;
        session_fields; (split; [intros E0; elim (Hn E0)|]);
        repeat split; intros; discriminate.
    + assert (Hn : Producer.next_iteration_secs p <> None).
      { intros E0. destruct (I1 E0) as ([?|?] & _); discriminate. }
      destruct (0 <? Producer.len_sensor_data sd);
        [destruct (Threading.put b _); try discriminate H|];
        inversion H; subst; clear H; session_fields;
        (split; [intros E0; elim (Hn E0)|]);
        repeat split; intros; discriminate.
    + assert (Hn : Producer.next_iteration_secs p <> None).
      { intros E0. destruct (I1 E0) as ([?|?] & _); discriminate. }
      destruct (Threading.full b || Producer.eof_reached p) eqn:Es;
        inversion H; subst; clear H; session_fields;
        (split; [intros E0; elim (Hn E0)|]);
        (split; [intros; discriminate|]); (split; [intros; discriminate|]).
      * intros _ _. discriminate.
      * intros _ He. rewrite He, orb_true_r in Es. discriminate.
    + assert (Hn : Producer.next_iteration_secs p <> None).
      { intros E0. destruct (I1 E0) as ([?|?] & _); discriminate. }
      unfold Producer.run_eof in H.
      destruct (Producer.eof_reached p) eqn:Ee.
      * destruct (String.eqb _ "true");
          inversion H; subst; clear H; session_fields;
          (split; [intros E0; elim (Hn E0)|]);
          (split; [intros; discriminate|]).
        -- split; intros; discriminate.
        -- split; [intros _; apply I4; reflexivity | intros; discriminate].
      * inversion H; subst; clear H; session_fields.
        split; [intros E0; elim (Hn E0)|].
        repeat split; intros; discriminate.
    + discriminate H.
    + discriminate H.
  - destruct s as [o b p pc ps cc cs pl d n w ws].
    unfold Session.consumer_step in H. unfold ended_inv in *. session_fields.
    destruct cc.
    + destruct o; try discriminate H. inversion H; subst; clear H; session_fields.
      split; [intros E0; destruct (I1 E0) as (? & ? & ?); repeat split; auto; discriminate|].
      split; [exact I2|]. split; intros; discriminate.
    + destruct (Threading.get b) as [[x q]|];
        inversion H; subst; clear H; session_fields; auto.
    + inversion H; subst; clear H; session_fields.
      split; [intros E0; destruct (I1 E0) as (? & ? & ?); repeat split; auto; discriminate|].
      split; [exact I2|]. split; intros; discriminate.
Qed.

Lemma ended_invariant : forall flag maxsize p s,
  Session.steps env file flag (Session.start maxsize p) s -> ended_inv s.
Proof.
  intros flag maxsize p s H.
  remember (Session.start maxsize p) as s0 eqn:E0.
  assert (I0 : ended_inv s0).
  { subst s0. unfold ended_inv. cbn.
    repeat split; auto; intros; discriminate. }
  clear E0. induction H as [s | s s' s'' Hst Hsts IH]; [exact I0|].
  apply IH. eapply step_ended; eassumption.
Qed.

End EndedTheorems.

Section DrainTheorems.

Variable env : Env.
Variable file : csv_file.

Ltac session_fields :=
  cbn [Session.condition_owner Session.bucket Session.producer
       Session.producer_at Session.producer_is_stopped Session.consumer_at
       Session.consumer_is_stopped Session.put_log Session.dispatched
       Session.notified Session.warnings Session.waits] in *.

Lemma exec_app : forall flag ms1 ms2 s,
  Schedule.exec env file flag (ms1 ++ ms2) s =
  match Schedule.exec env file flag ms1 s with
  | Some s1 => Schedule.exec env file flag ms2 s1
  | None => None
  end.
Proof.
  intros flag ms1. induction ms1 as [|m ms1 IH]; intros ms2 s; [reflexivity|].
  cbn [app Schedule.exec]. destruct m as [elapsed now|].
  - destruct (Session.producer_step env file flag elapsed now s); [apply IH|reflexivity].
  - destruct (Session.consumer_step s); [apply IH|reflexivity].
Qed.

Lemma after_steps : forall flag ms s,
  Session.steps env file flag s (after env file flag ms s).
Proof.
  intros flag ms s. unfold after.
  destruct (Schedule.exec env file flag ms s) eqn:E.
  - eapply exec_steps; exact E.
  - apply Session.steps_refl.
Qed.

(** The inner [while] of the Consumer empties the queue, one envelope at a
    move, in the order of the queue. *)
Lemma consumer_drains_queue : forall flag l s,
  Session.consumer_at s = Session.CDrain ->
  Threading.items (Session.bucket s) = l ->
  exists s',
    Schedule.exec env file flag (consumer_moves (List.length l)) s = Some s' /\
    Session.consumer_at s' = Session.CDrain /\
    Threading.items (Session.bucket s') = [] /\
    Session.dispatched s' = (Session.dispatched s ++ l)%list /\
    Session.put_log s' = Session.put_log s.
Proof.
  intros flag l. induction l as [|x l IH]; intros s Hc Hl.
  - exists s. cbn. rewrite app_nil_r. auto.
  - destruct s as [o b p pc ps cc cs pl d n w ws]. session_fields. subst cc.
    destruct b as [mx it]. cbn [Threading.items] in Hl. subst it.
    cbn [List.length consumer_moves repeat Schedule.exec].
    unfold Session.consumer_step. session_fields.
    unfold Threading.get. cbn [Threading.items Threading.maxsize].
    edestruct (IH (Session.mk o (Threading.mkQueue mx l) p pc ps Session.CDrain
                     cs pl (d ++ [x])%list n w ws)) as (s' & E & H1 & H2 & H3 & H4);
      [reflexivity | reflexivity |].
    exists s'. split; [exact E|]. session_fields.
    rewrite H3, <- app_assoc. auto.
Qed.

End DrainTheorems.

(** X1: whatever the schedule of the two threads, the envelopes handed to
    [save_data] followed by the envelopes still in the queue are the
    envelopes [Producer.run] has put, in the order it put them: nothing is
    handed over twice, out of order, or lost from the queue. *)
Theorem handoff_is_fifo : forall env file flag ms maxsize p s,
  Schedule.exec env file flag ms (Session.start maxsize p) = Some s ->
  (Session.dispatched s ++ Threading.items (Session.bucket s))%list
  = Session.put_log s.
Proof.
  intros env file flag ms maxsize p s H.
  apply exec_steps in H.
  exact (proj1 (handoff_invariants env file flag maxsize p s H)).
Qed.

Lemma handoff_is_fifo_witness :
  let s := after example_env three_rows_file false
             (Schedule.producer_moves 20 "t" ++ consumer_moves 3)%list
             (Session.start 100 default_producer) in
  (Session.dispatched s ++ Threading.items (Session.bucket s))%list
  = Session.put_log s.
Proof.
  apply (handoff_is_fifo example_env three_rows_file false
           (Schedule.producer_moves 20 "t" ++ consumer_moves 3)%list
           100 default_producer).
  vm_compute. reflexivity.
Defined.

(** X2: whatever the schedule, the capacity of the queue stays the one
    [plugin_start] gave it, and a bounded queue never holds more envelopes
    than that. *)
Theorem handoff_is_bounded : forall env file flag ms maxsize p s,
  Schedule.exec env file flag ms (Session.start maxsize p) = Some s ->
  Threading.maxsize (Session.bucket s) = maxsize /\
  (0 < maxsize -> Threading.qsize (Session.bucket s) <= maxsize).
Proof.
  intros env file flag ms maxsize p s H.
  apply exec_steps in H.
  destruct (handoff_invariants env file flag maxsize p s H) as (_ & Hb & _ & Hm).
  split; [exact Hm|]. intros Hpos. unfold bounded_inv in Hb.
  rewrite Hm in Hb. auto.
Qed.

Lemma handoff_is_bounded_witness :
  let s := after example_env three_rows_file false
             (Schedule.producer_moves 10 "t")
             (Session.start 2 default_producer) in
  Threading.maxsize (Session.bucket s) = 2 /\
  (0 < 2 -> Threading.qsize (Session.bucket s) <= 2).
Proof.
  apply (handoff_is_bounded example_env three_rows_file false
           (Schedule.producer_moves 10 "t") 2 default_producer).
  vm_compute. reflexivity.
Defined.

(** X3: whatever the schedule, a thread that stands between its acquire
    and its release owns the lock of the condition: the Producer when it
    puts and when it notifies, the Consumer when it drains and when it
    notifies; so the two are never there together, and [notify] is never
    called on a lock that is not held. *)
Theorem handoff_is_under_lock : forall env file flag ms maxsize p s,
  Schedule.exec env file flag ms (Session.start maxsize p) = Some s ->
  (forall sd t, Session.producer_at s = Session.PPut sd t ->
     Session.condition_owner s = Some Threading.ProducerThread) /\
  (Session.producer_at s = Session.PSignal ->
     Session.condition_owner s = Some Threading.ProducerThread) /\
  (Session.consumer_at s <> Session.CAcquire ->
     Session.condition_owner s = Some Threading.ConsumerThread).
Proof.
  intros env file flag ms maxsize p s H.
  apply exec_steps in H.
  destruct (handoff_invariants env file flag maxsize p s H) as (_ & _ & [Hp Hc] & _).
  split; [|split].
  - intros sd t E. rewrite E in Hp. exact Hp.
  - intros E. rewrite E in Hp. exact Hp.
  - intros E. destruct (Session.consumer_at s); [elim E; reflexivity | exact Hc | exact Hc].
Qed.

Lemma handoff_is_under_lock_witness :
  let s := after example_env three_rows_file false
             (Schedule.producer_moves 3 "t")
             (Session.start 100 default_producer) in
  (forall sd t, Session.producer_at s = Session.PPut sd t ->
     Session.condition_owner s = Some Threading.ProducerThread) /\
  (Session.producer_at s = Session.PSignal ->
     Session.condition_owner s = Some Threading.ProducerThread) /\
  (Session.consumer_at s <> Session.CAcquire ->
     Session.condition_owner s = Some Threading.ConsumerThread).
Proof.
  apply (handoff_is_under_lock example_env three_rows_file false
           (Schedule.producer_moves 3 "t") 100 default_producer).
  vm_compute. reflexivity.
Defined.

Lemma ended_no_lock : forall env file flag maxsize p s,
  Session.steps env file flag (Session.start maxsize p) s ->
  producer_ended s = true ->
  wait_refused s = false ->
  Session.condition_owner s <> Some Threading.ProducerThread.
Proof.
  intros env file flag maxsize p s H He Hno.
  destruct (ended_invariant env file flag maxsize p s H) as (I1 & I2 & I3 & _).
  unfold producer_ended in He.
  destruct (Session.producer_at s) eqn:E; try discriminate He.
  - apply I3. reflexivity.
  - destruct (I2 e eq_refl) as [[_ Hn]|[-> | ->]].
    + destruct (I1 Hn) as (_ & Ho & _). exact Ho.
    + unfold wait_refused in Hno. rewrite E in Hno. discriminate Hno.
    + unfold wait_refused in Hno. rewrite E in Hno. discriminate Hno.
Qed.

(** The [OverflowError] of the wait can be met: with a burstInterval of
    10^22 milliseconds the period is 10^19 seconds, more than the lock of
    the interpreter takes as a timeout; the first pass reads its burst and
    [run] ends at the wait, before anything is put. *)
Lemma wait_overflow_ends_producer :
  exists p s,
    Producer.__init__ (burst_handle "10000000000000000000000" "1") = Ok p /\
    Session.producer_step example_env three_rows_file false (S754_zero false) "t"
      (Session.start 100 p) = Some s /\
    Session.producer_at s = Session.PRaised OverflowError /\
    Session.warnings s = [] /\
    Session.put_log s = [].
Proof.
  destruct (Producer.__init__ (burst_handle "10000000000000000000000" "1"))
    as [p|e] eqn:E.
  2: { vm_compute in E. discriminate E. }
  vm_compute in E. inversion E; subst p; clear E.
  eexists. eexists. split; [reflexivity|].
  split; [vm_compute; reflexivity|].
  split; [reflexivity|]. split; reflexivity.
Qed.

(** X4: how [Producer.run] ends and what it holds then.  Whatever the
    schedule, a [run] that has ended has returned, or was left by the
    [UnboundLocalError] of a first pass that failed, or by the exception of
    a wait that refused its timeout: [OverflowError] for a timeout that is
    too large, [ValueError] on the edge of it.  In the first two cases it
    does not own the lock, and in the second nothing has been put in the
    queue. *)
Theorem producer_end_and_the_lock : forall env file flag ms maxsize p s,
  Schedule.exec env file flag ms (Session.start maxsize p) = Some s ->
  producer_ended s = true ->
  (Session.producer_at s = Session.PReturned \/
   Session.producer_at s = Session.PRaised UnboundLocalError \/
   Session.producer_at s = Session.PRaised OverflowError \/
   Session.producer_at s = Session.PRaised ValueError) /\
  (Session.producer_at s = Session.PReturned \/
   Session.producer_at s = Session.PRaised UnboundLocalError ->
   Session.condition_owner s <> Some Threading.ProducerThread) /\
  (Session.producer_at s = Session.PRaised UnboundLocalError ->
   Session.put_log s = []).
Proof.
  intros env file flag ms maxsize p s H He.
  apply exec_steps in H.
  destruct (ended_invariant env file flag maxsize p s H) as (I1 & I2 & I3 & _).
  split; [|split].
  - unfold producer_ended in He.
    destruct (Session.producer_at s) eqn:E; try discriminate He; auto.
    destruct (I2 e eq_refl) as [[-> _]|[-> | ->]]; auto.
  - intros Hat. apply (ended_no_lock env file flag maxsize p s H He).
    unfold wait_refused. destruct Hat as [-> | ->]; reflexivity.
  - intros E. destruct (I2 _ E) as [[_ Hn]|[Hx|Hx]]; try discriminate Hx.
    destruct (I1 Hn) as (_ & _ & Hp). exact Hp.
Qed.

Lemma producer_end_and_the_lock_witness :
  let s := after example_env three_rows_file false
             (Schedule.producer_moves 20 "t")
             (Session.start 100 default_producer) in
  (Session.producer_at s = Session.PReturned \/
   Session.producer_at s = Session.PRaised UnboundLocalError \/
   Session.producer_at s = Session.PRaised OverflowError \/
   Session.producer_at s = Session.PRaised ValueError) /\
  (Session.producer_at s = Session.PReturned \/
   Session.producer_at s = Session.PRaised UnboundLocalError ->
   Session.condition_owner s <> Some Threading.ProducerThread) /\
  (Session.producer_at s = Session.PRaised UnboundLocalError ->
   Session.put_log s = []).
Proof.
  apply (producer_end_and_the_lock example_env three_rows_file false
           (Schedule.producer_moves 20 "t") 100 default_producer).
  - vm_compute. reflexivity.
  - vm_compute. reflexivity.
Defined.

(** X5: once [Producer.run] has ended otherwise than by a wait that
    refused its timeout (it has returned, or its first pass failed), the
    Consumer alone finishes the hand-off: in a number of its
    moves it takes the lock and hands every envelope still queued to
    [save_data], so that all that was put has been handed over, in order,
    and the queue is empty. *)
Theorem consumer_drains_after_producer_ended :
  forall env file flag ms maxsize p s,
  Schedule.exec env file flag ms (Session.start maxsize p) = Some s ->
  producer_ended s = true ->
  wait_refused s = false ->
  exists n s',
    Schedule.exec env file flag (consumer_moves n) s = Some s' /\
    Session.dispatched s' = Session.put_log s /\
    Session.put_log s' = Session.put_log s /\
    Threading.items (Session.bucket s') = [].
Proof.
  intros env file flag ms maxsize p s H He Hno.
  apply exec_steps in H.
  pose proof (ended_no_lock env file flag maxsize p s H He Hno) as Ho.
  destruct (handoff_invariants env file flag maxsize p s H)
    as (Hf & _ & [_ Hc] & _).
  unfold fifo_inv in Hf.
  clear H He.
  assert (Hdrain : forall s1,
            Session.consumer_at s1 = Session.CDrain ->
            (Session.dispatched s1 ++ Threading.items (Session.bucket s1))%list
              = Session.put_log s1 ->
            exists s',
              Schedule.exec env file flag
                (consumer_moves (List.length (Threading.items (Session.bucket s1)))) s1
                = Some s' /\
              Session.dispatched s' = Session.put_log s1 /\
              Session.put_log s' = Session.put_log s1 /\
              Threading.items (Session.bucket s') = []).
  { intros s1 H1 H2.
    destruct (consumer_drains_queue env file flag _ s1 H1 eq_refl)
      as (s' & E & _ & Hi & Hd & Hp).
    exists s'. rewrite Hd, H2. auto. }
  destruct s as [o b p0 pc ps cc cs pl d n w ws].
  cbn [Session.condition_owner Session.consumer_at Session.put_log
       Session.dispatched Session.bucket] in *.
  destruct cc.
  - assert (o = None) by (destruct o as [[|]|]; congruence). subst o.
    destruct (Hdrain (Session.mk (Some Threading.ConsumerThread) b p0 pc ps
                        Session.CDrain cs pl d n w ws) eq_refl Hf)
      as (s' & E & H1 & H2 & H3).
    exists (S (List.length (Threading.items b))), s'.
    split; [exact E | auto].
  - destruct (Hdrain (Session.mk o b p0 pc ps Session.CDrain cs pl d n w ws)
                eq_refl Hf) as (s' & E & H1 & H2 & H3).
    exists (List.length (Threading.items b)), s'. auto.
  - destruct (Hdrain (Session.mk (Some Threading.ConsumerThread) b p0 pc ps
                        Session.CDrain cs pl d
                        (n ++ [Threading.ConsumerThread])%list w ws) eq_refl Hf)
      as (s' & E & H1 & H2 & H3).
    exists (S (S (List.length (Threading.items b)))), s'.
    split; [exact E | auto].
Qed.

Lemma consumer_drains_after_producer_ended_witness :
  let s := after example_env three_rows_file false
             (Schedule.producer_moves 20 "t")
             (Session.start 100 default_producer) in
  exists n s',
    Schedule.exec example_env three_rows_file false (consumer_moves n) s = Some s' /\
    Session.dispatched s' = Session.put_log s /\
    Session.put_log s' = Session.put_log s /\
    Threading.items (Session.bucket s') = [].
Proof.
  apply (consumer_drains_after_producer_ended example_env three_rows_file false
           (Schedule.producer_moves 20 "t") 100 default_producer).
  - vm_compute. reflexivity.
  - vm_compute. reflexivity.
  - vm_compute. reflexivity.
Defined.

(* ------------------------------------------------------------------ *)
(** ** What plugin_shutdown leaves as it is *)

Section ShutdownTheorems.

Variable env : Env.
Variable file : csv_file.

Ltac session_fields :=
  cbn [Session.condition_owner Session.bucket Session.producer
       Session.producer_at Session.producer_is_stopped Session.consumer_at
       Session.consumer_is_stopped Session.put_log Session.dispatched
       Session.notified Session.warnings Session.waits] in *.

(** A move of the Producer that does not end in the exception of a wait
    that refuses its timeout is the same with the signal set, whatever the
    bookkeeping of the threads and the waits recorded. *)
Lemma producer_step_observable : forall elapsed now s1 s2 a,
  observable s1 = observable s2 ->
  Session.producer_step env file false elapsed now s1 = Some a ->
  wait_refused a = false ->
  exists a',
    Session.producer_step env file true elapsed now s2 = Some a' /\
    observable a' = observable a.
Proof.
  intros elapsed now s1 s2 a H.
  destruct s1 as [o b p pc ps cc cs pl d n w ws].
  destruct s2 as [o2 b2 p2 pc2 ps2 cc2 cs2 pl2 d2 n2 w2 ws2].
  unfold observable in H. session_fields. inversion H; subst; clear H.
  unfold Session.producer_step. session_fields.
  destruct pc2 as [|sd t|sd t| | | |e]; try discriminate.
  - destruct (Producer.run_try env file p2) as [[st sd'] w'].
    destruct (Producer.wait_timeout st elapsed) as [tmo|e]; cbn [bind].
    + destruct (Threading.Event_wait false tmo) as [wt|e] eqn:Ew.
      * intros E _. inversion E; subst; clear E.
        eexists. split; [reflexivity|]. reflexivity.
      * apply Event_wait_raises in Ew.
        intros E Hno. inversion E; subst; clear E.
        destruct Ew as [-> | ->]; discriminate Hno.
    + intros E _. inversion E; subst; clear E.
      eexists. split; [reflexivity|]. reflexivity.
  - destruct o2 as [[|]|]; try discriminate; intros E _; inversion E; subst;
      eexists; split; reflexivity.
  - destruct (0 <? Producer.len_sensor_data sd).
    + destruct (Threading.put b2 _); try discriminate.
      intros E _; inversion E; subst; eexists; split; reflexivity.
    + intros E _; inversion E; subst; eexists; split; reflexivity.
  - destruct (Threading.full b2 || Producer.eof_reached p2);
      intros E _; inversion E; subst; eexists; split; reflexivity.
  - destruct (Producer.run_eof p2);
      intros E _; inversion E; subst; eexists; split; reflexivity.
Qed.

(** An exception that has left [run] stays. *)
Lemma raised_stays : forall flag ms s s1 e,
  Schedule.exec env file flag ms s = Some s1 ->
  Session.producer_at s = Session.PRaised e ->
  Session.producer_at s1 = Session.PRaised e.
Proof.
  intros flag ms. induction ms as [|m ms IH]; intros s s1 e H Hp.
  - cbn in H. inversion H; subst. exact Hp.
  - cbn [Schedule.exec] in H. destruct m as [elapsed now|].
    + unfold Session.producer_step in H. rewrite Hp in H. discriminate H.
    + destruct (Session.consumer_step s) as [a|] eqn:Ec; [|discriminate H].
      apply (IH a s1 e H).
      unfold Session.consumer_step in Ec.
      destruct (Session.consumer_at s).
      * destruct (Session.condition_owner s); inversion Ec; subst; exact Hp.
      * destruct (Threading.get _) as [[x q]|]; inversion Ec; subst; exact Hp.
      * inversion Ec; subst; exact Hp.
Qed.

Lemma consumer_step_observable : forall s1 s2,
  observable s1 = observable s2 ->
  option_map observable (Session.consumer_step s1) =
  option_map observable (Session.consumer_step s2).
Proof.
  intros s1 s2 H.
  destruct s1 as [o b p pc ps cc cs pl d n w ws].
  destruct s2 as [o2 b2 p2 pc2 ps2 cc2 cs2 pl2 d2 n2 w2 ws2].
  unfold observable in H. session_fields. inversion H; subst; clear H.
  unfold Session.consumer_step. session_fields.
  destruct cc2; try reflexivity.
  - destruct o2; reflexivity.
  - destruct (Threading.get b2) as [[x q]|]; reflexivity.
Qed.

Lemma exec_observable : forall ms s1 s2 r,
  observable s1 = observable s2 ->
  Schedule.exec env file false ms s1 = Some r ->
  wait_refused r = false ->
  exists r',
    Schedule.exec env file true ms s2 = Some r' /\
    observable r' = observable r.
Proof.
  intros ms. induction ms as [|m ms IH]; intros s1 s2 r H E Hno.
  - cbn in E. inversion E; subst. exists s2. split; [reflexivity | now symmetry].
  - cbn [Schedule.exec] in *. destruct m as [elapsed now|].
    + destruct (Session.producer_step env file false elapsed now s1) as [a|] eqn:Ea;
        [|discriminate E].
      assert (Ha : wait_refused a = false).
      { unfold wait_refused in *.
        destruct (Session.producer_at a) as [| | | | | |x] eqn:Hp;
          try reflexivity.
        rewrite (raised_stays false ms a r x E Hp) in Hno. exact Hno. }
      destruct (producer_step_observable elapsed now s1 s2 a H Ea Ha)
        as (a' & Ea' & Ho).
      rewrite Ea'. apply (IH a a' r); auto.
    + pose proof (consumer_step_observable s1 s2 H) as Ec.
      destruct (Session.consumer_step s1) as [a|]; [|discriminate E].
      destruct (Session.consumer_step s2) as [a'|]; [|discriminate Ec].
      apply (IH a a' r); auto. cbn in Ec. congruence.
Qed.

Lemma mark_stopped_observable : forall which s,
  observable (Plugin.mark_stopped which s) = observable s.
Proof. intros [|] s; reflexivity. Qed.

End ShutdownTheorems.

(** X6: [plugin_shutdown] does not stop the threads of the session.  Take
    any schedule that the two threads can follow without the shutdown (the
    signal clear) and on which no wait of the Producer refuses its
    timeout: after the shutdown (the signal set) they can follow it
    too, and they end where they would have ended without it, with the same
    envelopes put and handed over, the same warnings and notifications, the
    same owner of the lock and the same places where they stand. *)
Theorem shutdown_changes_no_thread : forall env file ms w s s1,
  Plugin.threads w = Some s ->
  Schedule.exec env file false ms s = Some s1 ->
  wait_refused s1 = false ->
  exists s0 s2,
    Plugin.threads (Plugin.plugin_shutdown w) = Some s0 /\
    Plugin.wait_event (Plugin.glob (Plugin.plugin_shutdown w)) = true /\
    Schedule.exec env file true ms s0 = Some s2 /\
    observable s2 = observable s1.
Proof.
  intros env file ms w s s1 Hs E Hno.
  destruct w as [g t]. cbn in Hs. subst t.
  unfold Plugin.plugin_shutdown. cbn [Plugin.glob Plugin.threads].
  destruct g as [pr co bs we]. cbn [Plugin.producer Plugin.consumer
    Plugin.BUCKET_SIZE Plugin.wait_event].
  assert (Hgen : forall s0, observable s0 = observable s ->
            exists s0' s2,
              Some s0 = Some s0' /\ true = true /\
              Schedule.exec env file true ms s0' = Some s2 /\
              observable s2 = observable s1).
  { intros s0 Ho.
    destruct (exec_observable env file ms s s0 s1 (eq_sym Ho) E Hno)
      as (r' & Er & Hr).
    exists s0, r'. auto. }
  destruct pr as [wp|], co as [wc|]; cbn [Plugin.stop_if_set option_map];
    apply Hgen; rewrite ?mark_stopped_observable; reflexivity.
Qed.

Lemma shutdown_changes_no_thread_witness :
  let w := Plugin.mkProcess
             (Plugin.mkGlobals (Some Threading.ProducerThread)
                (Some Threading.ConsumerThread) 100 false)
             (Some (Session.start 100 default_producer)) in
  let s1 := after example_env three_rows_file false
              (Schedule.producer_moves 20 "t")
              (Session.start 100 default_producer) in
  exists s0 s2,
    Plugin.threads (Plugin.plugin_shutdown w) = Some s0 /\
    Plugin.wait_event (Plugin.glob (Plugin.plugin_shutdown w)) = true /\
    Schedule.exec example_env three_rows_file true
      (Schedule.producer_moves 20 "t") s0 = Some s2 /\
    observable s2 = observable s1.
Proof.
  apply (shutdown_changes_no_thread example_env three_rows_file
           (Schedule.producer_moves 20 "t")
           (Plugin.mkProcess
              (Plugin.mkGlobals (Some Threading.ProducerThread)
                 (Some Threading.ConsumerThread) 100 false)
              (Some (Session.start 100 default_producer)))
           (Session.start 100 default_producer)).
  - reflexivity.
  - vm_compute. reflexivity.
  - vm_compute. reflexivity.
Defined.

(* ------------------------------------------------------------------ *)
(** ** The exceptions of int(), Producer.__init__ and plugin_start *)

Lemma py_int_raises : forall s e, py_int s = Raise e -> e = ValueError.
Proof.
  intros s e. unfold py_int.
  destruct (strip_number (chars s)) as [|c l]; [intros H; now inversion H|].
  destruct (if code c =? 45 then _ else _) as [neg body].
  destruct (digits_value body 0 false); [|intros H; now inversion H].
  destruct (int_max_str_digits <? _); intros H; now inversion H.
Qed.

Lemma of_int_raises : forall n e, Float.of_int n = Raise e -> e = OverflowError.
Proof.
  intros n e. unfold Float.of_int.
  destruct (Float.is_finite _); intros H; now inversion H.
Qed.

Lemma round_digits_raises : forall x nd e,
  Float.round_digits x nd = Raise e -> e = OverflowError.
Proof.
  intros x nd e. unfold Float.round_digits.
  destruct x as [s|s| |s m ex]; try discriminate.
  destruct (323 <? nd); [discriminate|].
  destruct (nd <? -308); [discriminate|].
  destruct (if ex <? 0 then _ else _) as [n d].
  destruct (if nd <? 0 then _ else _) as [n' d'].
  destruct (Float.round_half_even n' d' =? 0); [discriminate|].
  destruct (Float.is_finite _); intros H; now inversion H.
Qed.

Lemma truediv_raises : forall x y e,
  Float.truediv x y = Raise e -> e = ZeroDivisionError /\ Float.is_zero y = true.
Proof.
  intros x y e. unfold Float.truediv.
  destruct (Float.is_zero y); [intros H; inversion H; auto|].
  destruct x as [s|s| |s m ex]; try discriminate.
  destruct y as [s'|s'| |s' m' ey]; try discriminate.
  destruct (if ex - ey <? 0 then _ else _); discriminate.
Qed.

Lemma init_period_raises : forall h e,
  Producer.init_period h = Raise e -> e = ValueError \/ e = OverflowError.
Proof.
  intros h e. unfold Producer.init_period.
  destruct (String.eqb (ingestMode h) "burst").
  + destruct (py_int (burstInterval h)) as [n|e1] eqn:E1; cbn [bind].
    2: { apply py_int_raises in E1. subst e1. intros H; inversion H; auto. }
    destruct (Float.of_int n) as [x|e2] eqn:E2; cbn [bind].
    2: { apply of_int_raises in E2. subst e2. intros H; inversion H; auto. }
    destruct (Float.truediv x Producer.lit_1000) as [q|e3] eqn:E3; cbn [bind].
    2: { apply truediv_raises in E3. destruct E3 as [_ E3]. discriminate E3. }
    destruct (Float.round_digits q _) as [r|e4] eqn:E4.
    * discriminate.
    * apply round_digits_raises in E4. subst e4. intros H; inversion H; auto.
  + destruct (py_int (sampleRate h)) as [n|e1] eqn:E1; cbn [bind].
    2: { apply py_int_raises in E1. subst e1. intros H; inversion H; auto. }
    destruct (Float.of_int n) as [x|e2] eqn:E2; cbn [bind].
    2: { apply of_int_raises in E2. subst e2. intros H; inversion H; auto. }
    destruct (Float.truediv Producer.lit_1 x) as [q|e3] eqn:E3; cbn [bind].
    2: { apply truediv_raises in E3. destruct E3 as [-> _]. discriminate. }
    destruct (Float.round_digits q _) as [r|e4] eqn:E4.
    * discriminate.
    * apply round_digits_raises in E4. subst e4. intros H; inversion H; auto.
Qed.

(** X7: the exceptions of [Producer.__init__].  The [try] around the
    period handles [ZeroDivisionError] alone: a sample rate of zero gives
    the period 1.0, the burst branch never divides by zero, and the only
    exceptions that leave [__init__] are the [ValueError] of a setting that
    is no integer text and the [OverflowError] of one too large for a
    float. *)
Theorem init_period_exceptions : forall h,
  (forall e, Producer.init_period h = Raise e ->
     e = ValueError \/ e = OverflowError) /\
  (String.eqb (ingestMode h) "burst" = false ->
   py_int (sampleRate h) = Ok 0 ->
   Producer.init_period h = Ok Producer.lit_1) /\
  (String.eqb (ingestMode h) "burst" = false ->
   forall e, py_int (sampleRate h) = Raise e ->
   Producer.init_period h = Raise ValueError) /\
  (String.eqb (ingestMode h) "burst" = true ->
   forall e, py_int (burstInterval h) = Raise e ->
   Producer.init_period h = Raise ValueError).
Proof.
  intros h. split; [|split; [|split]].
  - intros e. apply init_period_raises.
  - intros Hm H0. unfold Producer.init_period. rewrite Hm, H0. reflexivity.
  - intros Hm e He. unfold Producer.init_period. rewrite Hm, He.
    apply py_int_raises in He. subst e. reflexivity.
  - intros Hm e He. unfold Producer.init_period. rewrite Hm, He.
    apply py_int_raises in He. subst e. reflexivity.
Qed.

Lemma init_period_exceptions_witness :
  Producer.init_period (with_sampleRate default_handle "0") = Ok Producer.lit_1.
Proof.
  apply (proj1 (proj2 (init_period_exceptions (with_sampleRate default_handle "0"))));
    reflexivity.
Defined.

(** X8: a [plugin_start] that fails starts nothing: the exception is the
    [ValueError] or [OverflowError] of the sample rate or of
    [Producer.__init__], no thread is started, the threads of an earlier
    session stay referenced, and the cancellation signal is not cleared. *)
Theorem plugin_start_failure_starts_nothing : forall w h e w',
  Plugin.plugin_start w h = (Raise e, w') ->
  (e = ValueError \/ e = OverflowError) /\
  Plugin.threads w' = Plugin.threads w /\
  Plugin.producer (Plugin.glob w') = Plugin.producer (Plugin.glob w) /\
  Plugin.consumer (Plugin.glob w') = Plugin.consumer (Plugin.glob w) /\
  Plugin.wait_event (Plugin.glob w') = Plugin.wait_event (Plugin.glob w).
Proof.
  intros w h e w'. unfold Plugin.plugin_start.
  destruct (if String.eqb (timestampFromFile h) "false" then _ else _)
    as [n|e1] eqn:E1.
  - unfold Producer.__init__.
    destruct (Producer.init_period h) as [p|e2] eqn:E2; cbn [bind];
      [discriminate|].
    intros H. inversion H; subst; clear H. cbn.
    split; [|auto]. exact (init_period_raises h e E2).
  - intros H. inversion H; subst; clear H.
    destruct (String.eqb (timestampFromFile h) "false"); [|discriminate E1].
    apply py_int_raises in E1. auto.
Qed.

Lemma plugin_start_failure_starts_nothing_witness :
  let w := Plugin.plugin_shutdown
             (snd (Plugin.plugin_start (Plugin.mkProcess Plugin.loaded None)
                     default_handle)) in
  let w' := snd (Plugin.plugin_start w (with_sampleRate default_handle "fast")) in
  (ValueError = ValueError \/ ValueError = OverflowError) /\
  Plugin.threads w' = Plugin.threads w /\
  Plugin.producer (Plugin.glob w') = Plugin.producer (Plugin.glob w) /\
  Plugin.consumer (Plugin.glob w') = Plugin.consumer (Plugin.glob w) /\
  Plugin.wait_event (Plugin.glob w') = Plugin.wait_event (Plugin.glob w).
Proof.
  apply (plugin_start_failure_starts_nothing _
           (with_sampleRate default_handle "fast")).
  vm_compute. reflexivity.
Defined.

(* ------------------------------------------------------------------ *)
(** ** What the coercion of a field raises and returns *)

Lemma tokenize_raises : forall l st e,
  Ast.tokenize l st = Raise e -> e = SyntaxError.
Proof.
  assert (Hflush : forall st e, Ast.flush st = Raise e -> e = SyntaxError).
  { intros [|n a b len|d s| |] e; cbn [Ast.flush]; try discriminate.
    destruct a; [destruct b; intros H; now inversion H|].
    destruct (int_max_str_digits <? len); intros H; now inversion H. }
  assert (Hemit : forall st r e,
            (forall e', r = Raise e' -> e' = SyntaxError) ->
            Ast.emit st r = Raise e -> e = SyntaxError).
  { intros st r e Hr. unfold Ast.emit.
    destruct (Ast.flush st) as [ts|e1] eqn:E1; cbn [bind].
    - destruct r as [ts'|e2]; cbn [bind]; [discriminate|].
      intros H; inversion H; subst. now apply Hr.
    - intros H; inversion H; subst. now apply (Hflush st). }
  assert (Hcons : forall (r : result (list Ast.token)) t e,
            (forall e', r = Raise e' -> e' = SyntaxError) ->
            (ts <- r ;; Ok (t :: ts)) = Raise e -> e = SyntaxError).
  { intros r t e Hr. destruct r; cbn [bind]; [discriminate|].
    intros H; inversion H; subst. now apply Hr. }
  induction l as [|c l IH]; intros st e.
  - apply Hflush.
  - cbn [Ast.tokenize]. destruct (is_digit c).
    + destruct st; try apply IH.
      apply Hemit. intros e'. apply IH.
    + destruct (code c =? 46).
      * destruct st; try apply IH.
        -- apply Hemit. intros e'. apply IH.
        -- apply Hcons. intros e'. apply IH.
      * destruct (code c =? 45); [|intros H; now inversion H].
        apply Hemit. intros e'. apply Hcons. intros e''. apply IH.
Qed.

Lemma parse_factor_raises : forall ts e,
  Ast.parse_factor ts = Raise e -> e = SyntaxError.
Proof.
  induction ts as [|t ts IH]; intros e; cbn [Ast.parse_factor].
  - intros H; now inversion H.
  - destruct t; try discriminate; try (intros H; now inversion H).
    destruct (Ast.parse_factor ts) as [[a r]|e1]; [discriminate|].
    intros H; inversion H; subst. now apply IH.
Qed.

Lemma parse_raises : forall ts e, Ast.parse ts = Raise e -> e = SyntaxError.
Proof.
  assert (Hrest : forall fuel lhs ts e,
            Ast.parse_rest fuel lhs ts = Raise e -> e = SyntaxError).
  { induction fuel as [|fuel IH]; intros lhs ts e; cbn [Ast.parse_rest].
    - destruct ts as [|[] ts]; try discriminate; intros H; now inversion H.
    - destruct ts as [|[] ts]; try discriminate; try (intros H; now inversion H).
      destruct (Ast.parse_factor ts) as [[a r]|e1] eqn:E1.
      + apply IH.
      + intros H; inversion H; subst. now apply (parse_factor_raises ts). }
  intros ts e. unfold Ast.parse.
  destruct (Ast.parse_factor ts) as [[a r]|e1] eqn:E1.
  - apply Hrest.
  - intros H; inversion H; subst. now apply (parse_factor_raises ts).
Qed.

Lemma convert_raises : forall x e, Ast.convert x = Raise e -> e = ValueError.
Proof.
  assert (Hnum : forall x e, Ast.convert_num x = Raise e -> e = ValueError).
  { intros [[n|y|]|o|a b] e; cbn; try discriminate; intros H; now inversion H. }
  assert (Hs : forall x e, Ast.convert_signed_num x = Raise e -> e = ValueError).
  { intros x e. destruct x as [v|o|a b]; cbn [Ast.convert_signed_num].
    - apply Hnum.
    - destruct (Ast.convert_num o) as [[n|y|]|e1] eqn:E1; cbn [bind];
        try discriminate; try (intros H; now inversion H).
      intros H; inversion H; subst. now apply (Hnum o).
    - apply Hnum. }
  intros x e. destruct x as [v|o|a b]; cbn [Ast.convert].
  - discriminate.
  - apply Hs.
  - destruct (Ast.convert_signed_num a) as [l1|e1] eqn:E1; cbn [bind].
    + destruct (Ast.convert_num b) as [l2|e2] eqn:E2; cbn [bind].
      * apply Hs.
      * intros H; inversion H; subst. now apply (Hnum b).
    + intros H; inversion H; subst. now apply (Hs a).
Qed.

Lemma py_float_raises : forall s e, py_float s = Raise e -> e = ValueError.
Proof.
  intros s e. unfold py_float.
  destruct (strip_number (chars s)) as [|c l]; [intros H; now inversion H|].
  destruct (if code c =? 45 then _ else _) as [neg body].
  destruct (split_point body) as [ip fp].
  destruct ip, (match fp with Some f => f | None => [] end);
    try (intros H; now inversion H);
    destruct (digits_value_opt _); try (intros H; now inversion H);
    destruct (digits_value_opt _); try discriminate;
    intros H; now inversion H.
Qed.

(** X9: what the coercion of a field can raise.  [ValueError] never leaves
    it, whatever the text; a text with a character of the regular
    expression raises nothing; and on a text of digits, minus signs and
    points that has no more than [safe_depth] minus signs the only
    exception is the [SyntaxError] of [ast.literal_eval].  (On longer
    chains of minus signs the interpreter can meet its limits on nesting,
    and its [RecursionError] leaves the coercion as well.) *)
Theorem coerce_exceptions : forall env v e,
  Producer.coerce env v = Raise e ->
  e <> ValueError /\
  Producer.regex_search v = false /\
  (forallb Ast.is_numeric_char (chars v) = true ->
   Ast.minus_count (chars v) <= Ast.safe_depth ->
   e = SyntaxError).
Proof.
  intros env v e. unfold Producer.coerce.
  destruct (Producer.regex_search v); [discriminate|].
  destruct (Ast.literal_eval env v) as [lit|e1] eqn:E1; cbn [bind].
  - destruct lit as [n|x|].
    + destruct (py_int v) as [m|e2] eqn:E2; cbn [bind]; [discriminate|].
      apply py_int_raises in E2. subst e2. discriminate.
    + destruct (py_float v) as [m|e2] eqn:E2; cbn [bind]; [discriminate|].
      apply py_float_raises in E2. subst e2. discriminate.
    + discriminate.
  - intros H. assert (e1 = e /\ e1 <> ValueError) as [-> Hne].
    { destruct e1; inversion H; split; auto; discriminate. }
    split; [exact Hne|]. split; [reflexivity|].
    intros Hnum Hdepth. unfold Ast.literal_eval in E1. rewrite Hnum in E1.
    apply Z.leb_le in Hdepth. rewrite Hdepth in E1. cbn [andb] in E1.
    destruct (Ast.tokenize (chars v) Ast.Idle) as [ts|e2] eqn:E2; cbn [bind] in E1.
    + destruct (Ast.parse ts) as [x|e3] eqn:E3; cbn [bind] in E1.
      * apply convert_raises in E1. contradiction.
      * inversion E1; subst. now apply (parse_raises ts).
    + inversion E1; subst. now apply (tokenize_raises _ _ _ E2).
Qed.

Lemma coerce_exceptions_witness :
  SyntaxError <> ValueError /\
  Producer.regex_search "1.2.3" = false /\
  (forallb Ast.is_numeric_char (chars "1.2.3") = true ->
   Ast.minus_count (chars "1.2.3") <= Ast.safe_depth ->
   SyntaxError = SyntaxError).
Proof.
  apply (coerce_exceptions example_env "1.2.3" SyntaxError).
  vm_compute. reflexivity.
Defined.

(** A digit and the minus sign are outside the character class, are no
    white space and are not each other. *)
Lemma digit_facts : forall c, is_digit c = true ->
  existsb (Ascii.eqb c) (chars Producer.regex_class) = false /\
  is_c_space c = false /\
  (code c =? 45) = false /\ (code c =? 43) = false /\ (code c =? 46) = false /\
  is_zero_digit c = (digit_val c =? 0).
Proof.
  intros c.
  destruct c as [[] [] [] [] [] [] [] []]; vm_compute; intros H;
    try discriminate H; repeat split.
Qed.

Lemma minus_facts :
  existsb (Ascii.eqb minus_sign) (chars Producer.regex_class) = false /\
  is_c_space minus_sign = false /\ is_digit minus_sign = false.
Proof. vm_compute. repeat split. Qed.

Lemma regex_search_digits : forall ds,
  forallb is_digit ds = true ->
  existsb (fun c => existsb (Ascii.eqb c) (chars Producer.regex_class)) ds = false.
Proof.
  induction ds as [|c ds IH]; [reflexivity|]. cbn [forallb existsb].
  intros H. apply andb_true_iff in H. destruct H as [Hc Hds].
  destruct (digit_facts c Hc) as [-> _]. now apply IH.
Qed.

Lemma tokenize_int_run : forall ds n lead0 allzero len,
  forallb is_digit ds = true ->
  Ast.tokenize ds (Ast.IntRun n lead0 allzero len) =
    if lead0
    then (if allzero && forallb is_zero_digit ds
          then Ok [Ast.TInt (fold_left (fun acc c => 10 * acc + digit_val c) ds n)]
          else Raise SyntaxError)
    else if int_max_str_digits <? len + Z.of_nat (List.length ds)
    then Raise SyntaxError
    else Ok [Ast.TInt (fold_left (fun acc c => 10 * acc + digit_val c) ds n)].
Proof.
  induction ds as [|c ds IH]; intros n lead0 allzero len H.
  - cbn [Ast.tokenize Ast.flush forallb List.length fold_left Z.of_nat].
    rewrite andb_true_r, Z.add_0_r. reflexivity.
  - cbn [forallb] in H. apply andb_true_iff in H. destruct H as [Hc Hds].
    cbn [Ast.tokenize]. rewrite Hc. rewrite (IH _ _ _ _ Hds).
    cbn [forallb fold_left].
    destruct (digit_facts c Hc) as (_ & _ & _ & _ & _ & ->).
    rewrite andb_assoc.
    replace (len + 1 + Z.of_nat (List.length ds))
      with (len + Z.of_nat (List.length (c :: ds)))
      by (cbn [List.length]; lia).
    reflexivity.
Qed.

Lemma tokenize_digits : forall c ds,
  forallb is_digit (c :: ds) = true ->
  Ast.tokenize (c :: ds) Ast.Idle =
    if is_zero_digit c
    then (if forallb is_zero_digit ds
          then Ok [Ast.TInt (decimal_value (c :: ds))]
          else Raise SyntaxError)
    else if int_max_str_digits <? Z.of_nat (List.length (c :: ds))
    then Raise SyntaxError
    else Ok [Ast.TInt (decimal_value (c :: ds))].
Proof.
  intros c ds H. cbn [forallb] in H. apply andb_true_iff in H.
  destruct H as [Hc Hds]. cbn [Ast.tokenize]. rewrite Hc.
  rewrite (tokenize_int_run _ _ _ _ _ Hds).
  destruct (digit_facts c Hc) as (_ & _ & _ & _ & _ & ->).
  unfold decimal_value. cbn [fold_left].
  replace (10 * 0 + digit_val c) with (digit_val c) by ring.
  replace (1 + Z.of_nat (List.length ds))
    with (Z.of_nat (List.length (c :: ds)))
    by (cbn [List.length]; lia).
  destruct (digit_val c =? 0); reflexivity.
Qed.

Lemma digits_value_run : forall ds acc,
  forallb is_digit ds = true ->
  digits_value ds acc true =
    Some (fold_left (fun a c => 10 * a + digit_val c) ds acc).
Proof.
  induction ds as [|c ds IH]; intros acc H; [reflexivity|].
  cbn [forallb] in H. apply andb_true_iff in H. destruct H as [Hc Hds].
  cbn [digits_value fold_left]. rewrite Hc. now apply IH.
Qed.

Lemma digits_value_digits : forall c ds,
  forallb is_digit (c :: ds) = true ->
  digits_value (c :: ds) 0 false = Some (decimal_value (c :: ds)).
Proof.
  intros c ds H. cbn [forallb] in H. apply andb_true_iff in H.
  destruct H as [Hc Hds]. cbn [digits_value]. rewrite Hc.
  now apply digits_value_run.
Qed.

Lemma filter_digits : forall ds,
  forallb is_digit ds = true -> filter is_digit ds = ds.
Proof.
  induction ds as [|c ds IH]; [reflexivity|]. cbn [forallb filter].
  intros H. apply andb_true_iff in H. destruct H as [Hc Hds].
  now rewrite Hc, (IH Hds).
Qed.

Lemma strip_number_no_space : forall l,
  l <> [] -> forallb (fun c => negb (is_c_space c)) l = true ->
  strip_number l = l.
Proof.
  assert (Hd : forall l, forallb (fun c => negb (is_c_space c)) l = true ->
                         drop_while is_c_space l = l).
  { intros [|c l]; [reflexivity|]. cbn [forallb drop_while]. intros H.
    apply andb_true_iff in H. destruct H as [Hc _].
    apply negb_true_iff in Hc. now rewrite Hc. }
  intros l _ H. unfold strip_number. rewrite (Hd l H).
  rewrite Hd; [apply rev_involutive|].
  apply forallb_forall. intros x Hx. apply in_rev in Hx.
  rewrite forallb_forall in H. now apply H.
Qed.

Lemma digits_no_space : forall ds,
  forallb is_digit ds = true ->
  forallb (fun c => negb (is_c_space c)) ds = true.
Proof.
  intros ds H. apply forallb_forall. intros x Hx.
  rewrite forallb_forall in H. destruct (digit_facts x (H x Hx)) as (_ & -> & _).
  reflexivity.
Qed.

Lemma chars_of_list : forall l, chars (string_of_list_ascii l) = l.
Proof. intros l. apply list_ascii_of_string_of_list_ascii. Qed.

Lemma py_int_digits : forall c ds,
  forallb is_digit (c :: ds) = true ->
  (List.length (c :: ds) <= 4300)%nat ->
  py_int (string_of_list_ascii (c :: ds)) = Ok (decimal_value (c :: ds)) /\
  py_int (string_of_list_ascii (minus_sign :: c :: ds))
    = Ok (- decimal_value (c :: ds)).
Proof.
  intros c ds H Hlen. pose proof (digits_no_space _ H) as Hs.
  assert (Hc : is_digit c = true).
  { cbn [forallb] in H. now apply andb_true_iff in H. }
  destruct (digit_facts c Hc) as (_ & _ & H45 & H43 & _).
  assert (Hlim : (int_max_str_digits
                    <? Z.of_nat (List.length (filter is_digit (c :: ds)))) = false).
  { rewrite (filter_digits _ H). apply Z.ltb_ge. unfold int_max_str_digits. lia. }
  unfold py_int. rewrite !chars_of_list.
  rewrite (strip_number_no_space (c :: ds)) by (auto; discriminate).
  rewrite (strip_number_no_space (minus_sign :: c :: ds)).
  2: discriminate.
  2: { cbn [forallb]. rewrite (proj1 (proj2 minus_facts)). exact Hs. }
  rewrite H45, H43. rewrite (digits_value_digits c ds H), Hlim.
  split; [reflexivity|].
  replace (code minus_sign =? 45) with true by reflexivity.
  rewrite (digits_value_digits c ds H), Hlim. reflexivity.
Qed.

Lemma minus_count_cons : forall c l,
  Ast.minus_count (c :: l)
    = (if code c =? 45 then 1 else 0) + Ast.minus_count l.
Proof.
  intros c l. unfold Ast.minus_count. cbn [filter].
  destruct (code c =? 45); cbn [List.length]; lia.
Qed.

Lemma minus_count_app : forall l l',
  Ast.minus_count (l ++ l') = Ast.minus_count l + Ast.minus_count l'.
Proof.
  intros l l'. unfold Ast.minus_count. rewrite filter_app, length_app. lia.
Qed.

Lemma minus_count_digits : forall ds,
  forallb is_digit ds = true -> Ast.minus_count ds = 0.
Proof.
  induction ds as [|c ds IH]; [reflexivity|]. cbn [forallb]. intros H.
  apply andb_true_iff in H. destruct H as [Hc Hds].
  rewrite minus_count_cons, (IH Hds).
  destruct (digit_facts c Hc) as (_ & _ & -> & _). reflexivity.
Qed.

Lemma literal_eval_numeric : forall env l,
  forallb Ast.is_numeric_char l = true ->
  Ast.minus_count l <= Ast.safe_depth ->
  Ast.literal_eval env (string_of_list_ascii l) =
    (ts <- Ast.tokenize l Ast.Idle ;; e <- Ast.parse ts ;; Ast.convert e).
Proof.
  intros env l H Hd. unfold Ast.literal_eval. rewrite chars_of_list, H.
  apply Z.leb_le in Hd. now rewrite Hd.
Qed.

Lemma coerce_decimal_cases : forall env ds,
  (is_decimal_literal ds = true -> (List.length ds <= 4300)%nat ->
   Producer.coerce env (string_of_list_ascii ds)
     = Ok (VInt (decimal_value ds)) /\
   Producer.coerce env (string_of_list_ascii (minus_sign :: ds))
     = Ok (VInt (- decimal_value ds))) /\
  (has_leading_zero ds = true ->
   Producer.coerce env (string_of_list_ascii ds) = Raise SyntaxError /\
   Producer.coerce env (string_of_list_ascii (minus_sign :: ds))
     = Raise SyntaxError).
Proof.
  intros env ds.
  assert (Hcommon : forall c r, forallb is_digit (c :: r) = true ->
            Producer.regex_search (string_of_list_ascii (c :: r)) = false /\
            Producer.regex_search (string_of_list_ascii (minus_sign :: c :: r)) = false /\
            Ast.literal_eval env (string_of_list_ascii (c :: r)) =
              (ts <- Ast.tokenize (c :: r) Ast.Idle ;;
               e <- Ast.parse ts ;; Ast.convert e) /\
            Ast.literal_eval env (string_of_list_ascii (minus_sign :: c :: r)) =
              (ts <- Ast.tokenize (minus_sign :: c :: r) Ast.Idle ;;
               e <- Ast.parse ts ;; Ast.convert e)).
  { intros c r H.
    pose (f := fun c0 : ascii => existsb (Ascii.eqb c0) (chars Producer.regex_class)).
    assert (Hr : existsb f (c :: r) = false) by exact (regex_search_digits _ H).
    assert (Hn : forallb Ast.is_numeric_char (c :: r) = true).
    { apply forallb_forall. intros x Hx. rewrite forallb_forall in H.
      unfold Ast.is_numeric_char. now rewrite (H x Hx). }
    pose proof (minus_count_digits _ H) as Hm.
    unfold Producer.regex_search. rewrite !chars_of_list.
    split; [exact Hr|]. split.
    - change (f minus_sign || existsb f (c :: r) = false).
      rewrite Hr. exact (proj1 minus_facts).
    - split; apply literal_eval_numeric.
      + exact Hn.
      + rewrite Hm. unfold Ast.safe_depth. lia.
      + change (Ast.is_numeric_char minus_sign
                && forallb Ast.is_numeric_char (c :: r) = true).
        now rewrite Hn.
      + rewrite minus_count_cons, Hm. unfold Ast.safe_depth.
        replace (code minus_sign =? 45) with true by reflexivity. lia. }
  split.
  - destruct ds as [|c r]; [discriminate|]. cbn [is_decimal_literal].
    intros H Hlen. apply andb_true_iff in H. destruct H as [Hd Hz].
    destruct (Hcommon c r Hd) as (R1 & R2 & L1 & L2).
    destruct (py_int_digits c r Hd Hlen) as [P1 P2].
    pose proof (tokenize_digits c r Hd) as T.
    assert (Hz' : is_zero_digit c && negb (forallb is_zero_digit r) = false).
    { destruct (is_zero_digit c), (forallb is_zero_digit r); auto; discriminate. }
    assert (Hlim : (int_max_str_digits <? Z.of_nat (List.length (c :: r))) = false).
    { apply Z.ltb_ge. unfold int_max_str_digits. lia. }
    assert (T' : Ast.tokenize (c :: r) Ast.Idle
                 = Ok [Ast.TInt (decimal_value (c :: r))]).
    { rewrite T, Hlim.
      destruct (is_zero_digit c), (forallb is_zero_digit r);
        try reflexivity; discriminate Hz'. }
    unfold Producer.coerce. rewrite R1, R2, L1, L2.
    split.
    + rewrite T', P1. reflexivity.
    + change (Ast.tokenize (minus_sign :: c :: r) Ast.Idle)
        with (Ast.emit Ast.Idle
                (ts <- Ast.tokenize (c :: r) Ast.Idle ;; Ok (Ast.TMinus :: ts))).
      rewrite T', P2. reflexivity.
  - destruct ds as [|c r]; [discriminate|]. cbn [has_leading_zero].
    intros H. apply andb_true_iff in H. destruct H as [H Hz].
    apply andb_true_iff in H. destruct H as [Hd Hc].
    destruct (Hcommon c r Hd) as (R1 & R2 & L1 & L2).
    pose proof (tokenize_digits c r Hd) as T.
    apply negb_true_iff in Hz. rewrite Hc, Hz in T.
    unfold Producer.coerce. rewrite R1, R2, L1, L2.
    split.
    + rewrite T. reflexivity.
    + change (Ast.tokenize (minus_sign :: c :: r) Ast.Idle)
        with (Ast.emit Ast.Idle
                (ts <- Ast.tokenize (c :: r) Ast.Idle ;; Ok (Ast.TMinus :: ts))).
      rewrite T. reflexivity.
Qed.

(** X10: a field of decimal digits, with or without a minus sign before
    it.  Digits that start with 0 and are not all 0 (["007"]) are no literal
    of Python: [ast.literal_eval] raises [SyntaxError], which leaves the
    coercion.  Any other run of digits is coerced to the integer it
    denotes, and to its opposite after a minus sign.  (The run is taken
    within the 4300 digits that [int()] converts by default.) *)
Theorem coerce_decimal_integer : forall env c r,
  forallb is_digit (c :: r) = true ->
  (List.length (c :: r) <= 4300)%nat ->
  Producer.coerce env (string_of_list_ascii (c :: r))
    = (if has_leading_zero (c :: r) then Raise SyntaxError
       else Ok (VInt (decimal_value (c :: r)))) /\
  Producer.coerce env (string_of_list_ascii (minus_sign :: c :: r))
    = (if has_leading_zero (c :: r) then Raise SyntaxError
       else Ok (VInt (- decimal_value (c :: r)))).
Proof.
  intros env c r Hd Hlen.
  destruct (coerce_decimal_cases env (c :: r)) as [Hlit Hzero].
  destruct (has_leading_zero (c :: r)) eqn:Hz.
  - exact (Hzero eq_refl).
  - apply Hlit; [|exact Hlen]. cbn [is_decimal_literal has_leading_zero] in *.
    rewrite Hd in *. cbn [andb] in *.
    destruct (is_zero_digit c), (forallb is_zero_digit r); auto; discriminate.
Qed.

Lemma coerce_decimal_integer_witness :
  Producer.coerce example_env "42" = Ok (VInt 42) /\
  Producer.coerce example_env "-42" = Ok (VInt (-42)).
Proof.
  apply (coerce_decimal_integer example_env "4"%char ["2"%char]).
  - reflexivity.
  - simpl. lia.
Defined.

(* ------------------------------------------------------------------ *)
(** ** The generator of records *)

Section GeneratorTheorems.

Variable env : Env.
Variable file : csv_file.

Lemma next_n_finished : forall n p,
  Producer.iter_sensor_data p = Producer.GenFinished ->
  next_n env file n p = (repeat (Raise StopIteration) n, p).
Proof.
  induction n as [|n IH]; intros p H; [reflexivity|].
  cbn [next_n repeat]. unfold Producer.next_sensor_data. rewrite H.
  now rewrite (IH p H).
Qed.

Lemma next_raise_finished : forall p e p',
  Producer.next_sensor_data env file p = (Raise e, p') ->
  Producer.iter_sensor_data p' = Producer.GenFinished.
Proof.
  intros p e p'. unfold Producer.next_sensor_data.
  assert (Hres : forall names rows g q,
            Producer.get_data_resume env names rows = (Raise e, g) ->
            Producer.iter_sensor_data (Producer.set_iter q g)
              = Producer.GenFinished).
  { intros names rows g q. unfold Producer.get_data_resume.
    destruct rows as [|row rows]; [intros H; inversion H; reflexivity|].
    destruct (Producer.get_data_line env names row);
      intros H; inversion H; reflexivity. }
  destruct (Producer.iter_sensor_data p) eqn:Ei.
  - destruct (Producer.get_data_start file p) as [[[names rows]|e1] p1].
    + destruct (Producer.get_data_resume env names rows) as [r g] eqn:Er.
      intros H. inversion H; subst. eapply Hres; exact Er.
    + intros H. inversion H; subst. reflexivity.
  - destruct (Producer.get_data_resume env names rows) as [r g] eqn:Er.
    intros H. inversion H; subst. eapply Hres; exact Er.
  - intros H. inversion H; subst. exact Ei.
Qed.

Lemma next_n_running : forall names rows rs k p,
  Producer.iter_sensor_data p = Producer.GenRunning names rows ->
  map (Producer.get_data_line env names) rows = map Ok rs ->
  fst (next_n env file (List.length rows + k) p)
    = (map Ok rs ++ repeat (Raise StopIteration) k)%list.
Proof.
  intros names rows. induction rows as [|row rows IH]; intros rs k p Hi Hm.
  - destruct rs; [|discriminate]. cbn [List.length Nat.add map app].
    destruct k as [|k]; [reflexivity|].
    cbn [next_n repeat]. unfold Producer.next_sensor_data. rewrite Hi.
    cbn [Producer.get_data_resume].
    rewrite next_n_finished by reflexivity. reflexivity.
  - destruct rs as [|r rs]; [discriminate|]. cbn [map] in Hm.
    inversion Hm as [[Hrow Hrest]]. clear Hm.
    cbn [List.length Nat.add next_n map app].
    unfold Producer.next_sensor_data. rewrite Hi.
    cbn [Producer.get_data_resume]. rewrite Hrow.
    specialize (IH rs k (Producer.set_iter p (Producer.GenRunning names rows))
                  eq_refl Hrest).
    destruct (next_n env file (List.length rows + k) _) as [outs p2].
    cbn [fst] in *. now rewrite IH.
Qed.

End GeneratorTheorems.

(** X11: an exception ends the generator of records.  Once a call of
    [next(self.iter_sensor_data)] has raised (the end of the data, or the
    exception of a field that is no literal), every later call raises
    [StopIteration] and changes nothing: the rows after a failing row are
    not read in this pass over the file. *)
Theorem generator_ends_at_first_exception : forall env file p e p' n,
  Producer.next_sensor_data env file p = (Raise e, p') ->
  next_n env file n p' = (repeat (Raise StopIteration) n, p').
Proof.
  intros env file p e p' n H.
  apply next_n_finished. eapply next_raise_finished; exact H.
Qed.

Lemma generator_ends_at_first_exception_witness :
  let p := snd (next_n example_env bad_field_file 1 default_producer) in
  let p' := snd (Producer.next_sensor_data example_env bad_field_file p) in
  next_n example_env bad_field_file 3 p'
    = (repeat (Raise StopIteration) 3, p').
Proof.
  apply (generator_ends_at_first_exception example_env bad_field_file
           (snd (next_n example_env bad_field_file 1 default_producer))
           SyntaxError).
  vm_compute. reflexivity.
Defined.

(** X12: a pass over the file.  From a generator just created, when the
    part of [get_data] before its loop succeeds with the field names
    [names] and the data rows [rows], and every row is coerced without an
    exception, the calls of [next] give the records of the rows one by
    one, in the order of the file, each once; all the calls after them
    raise [StopIteration]. *)
Theorem generator_yields_rows_in_order :
  forall env file p names rows p1 rs k,
  Producer.iter_sensor_data p = Producer.GenCreated ->
  Producer.get_data_start file p = (Ok (names, rows), p1) ->
  map (Producer.get_data_line env names) rows = map Ok rs ->
  fst (next_n env file (List.length rows + k) p)
    = (map Ok rs ++ repeat (Raise StopIteration) k)%list.
Proof.
  intros env file p names rows p1 rs k Hi Hs Hm.
  destruct rows as [|row rows].
  - destruct rs; [|discriminate]. cbn [List.length Nat.add map app].
    destruct k as [|k]; [reflexivity|].
    cbn [next_n repeat]. unfold Producer.next_sensor_data. rewrite Hi, Hs.
    cbn [Producer.get_data_resume].
    rewrite next_n_finished by reflexivity. reflexivity.
  - destruct rs as [|r rs]; [discriminate|]. cbn [map] in Hm.
    inversion Hm as [[Hrow Hrest]]. clear Hm.
    cbn [List.length Nat.add next_n map app].
    unfold Producer.next_sensor_data. rewrite Hi, Hs.
    cbn [Producer.get_data_resume]. rewrite Hrow.
    pose proof (next_n_running env file names rows rs k
                  (Producer.set_iter p1 (Producer.GenRunning names rows))
                  eq_refl Hrest) as IH.
    destruct (next_n env file (List.length rows + k) _) as [outs p2].
    cbn [fst] in *. now rewrite IH.
Qed.

Lemma generator_yields_rows_in_order_witness :
  fst (next_n example_env three_rows_file (3 + 2) default_producer)
    = (map Ok [[("a", VInt 1); ("b", VInt 2)];
               [("a", VInt 3); ("b", VInt 4)];
               [("a", VInt 5); ("b", VInt 6)]]
       ++ repeat (Raise StopIteration) 2)%list.
Proof.
  apply (generator_yields_rows_in_order example_env three_rows_file
           default_producer ["a"; "b"]
           [["1"; "2"]; ["3"; "4"]; ["5"; "6"]] default_producer).
  - reflexivity.
  - vm_compute. reflexivity.
  - vm_compute. reflexivity.
Defined.

(* ------------------------------------------------------------------ *)
(** ** The size of a burst *)

Lemma burst_loop_length : forall env file n p acc o pts p',
  Producer.burst_loop env file n p acc = (o, pts, p') ->
  (o = None -> List.length pts = (List.length acc + n)%nat) /\
  (o <> None ->
   (List.length acc <= List.length pts < List.length acc + n)%nat).
Proof.
  intros env file n. induction n as [|n IH]; intros p acc o pts p' H.
  - cbn in H. inversion H; subst. split; [intros _; lia | intros Hn; now elim Hn].
  - cbn [Producer.burst_loop] in H.
    destruct (Producer.next_sensor_data env file p) as [[r|e] p1].
    + apply IH in H. rewrite length_app in H. cbn [List.length] in H.
      destruct H as [H1 H2]. split; intros Ho.
      * rewrite (H1 Ho). lia.
      * specialize (H2 Ho). lia.
    + inversion H; subst. split; [discriminate | intros _; lia].
Qed.

(** X13: the size of a burst.  In a pass of [run] under ingestMode [burst]
    with a burst size [n], either the burst is complete and [sensor_data]
    carries exactly [n] records; or the end of the data was reached, and
    [sensor_data] carries the records read before it, fewer than [n], or is
    empty when there were none; or another exception left the loop, and
    [sensor_data] is empty: the records of this burst read before the
    exception are dropped. *)
Theorem burst_tick_size : forall env file st n st' sd w,
  String.eqb (ingestMode (Producer.self_handle (Producer.self st))) "burst" = true ->
  py_int (burstSize (Producer.self_handle (Producer.self st))) = Ok n ->
  Producer.run_try env file st = (st', sd, w) ->
  (w = [] /\ exists pts, sd = Producer.Data pts /\ List.length pts = Z.to_nat n) \/
  (w = [Producer.EOF_reached] /\ Producer.eof_reached st' = true /\
   (sd = Producer.Readings [] \/
    exists pts, sd = Producer.Data pts /\
                (0 < List.length pts < Z.to_nat n)%nat)) \/
  (exists e, e <> StopIteration /\ w = [Producer.producer_exception e] /\
             sd = Producer.Readings [] /\
             Producer.eof_reached st' = Producer.eof_reached st).
Proof.
  intros env file st n st' sd w Hm Hn. unfold Producer.run_try. cbv zeta.
  rewrite Hm, Hn.
  destruct (Producer.burst_loop env file (Z.to_nat n) (Producer.self st) [])
    as [[o pts] p'] eqn:E.
  apply burst_loop_length in E. cbn [List.length Nat.add] in E.
  destruct E as [E1 E2].
  destruct o as [e|].
  - assert (E3 : (List.length pts < Z.to_nat n)%nat)
      by (apply E2; discriminate).
    destruct (0 <? Z.of_nat (List.length pts)) eqn:Hl.
    + apply Z.ltb_lt in Hl.
      destruct e; intros H; inversion H; subst;
        try (right; right; eexists; repeat split; discriminate).
      right; left. repeat split. right. exists pts. split; [reflexivity|lia].
    + destruct e; intros H; inversion H; subst;
        try (right; right; eexists; repeat split; discriminate).
      right; left. repeat split. now left.
  - intros H. inversion H; subst. left. split; [reflexivity|].
    exists pts. split; [reflexivity|]. now apply E1.
Qed.

Lemma burst_tick_size_witness :
  let st := Producer.mkState
              (Producer.mk (with_burstSize (with_ingestMode default_handle "burst") "2")
                 (Float.of_decimal false 1 0) Producer.GenCreated [] None)
              false None in
  let r := Producer.run_try example_env three_rows_file st in
  (snd r = [] /\
   exists pts, snd (fst r) = Producer.Data pts /\ List.length pts = Z.to_nat 2) \/
  (snd r = [Producer.EOF_reached] /\ Producer.eof_reached (fst (fst r)) = true /\
   (snd (fst r) = Producer.Readings [] \/
    exists pts, snd (fst r) = Producer.Data pts /\
                (0 < List.length pts < Z.to_nat 2)%nat)) \/
  (exists e, e <> StopIteration /\ snd r = [Producer.producer_exception e] /\
             snd (fst r) = Producer.Readings [] /\
             Producer.eof_reached (fst (fst r)) = Producer.eof_reached st).
Proof.
  intros st r.
  apply (burst_tick_size example_env three_rows_file st 2 (fst (fst r)) (snd (fst r)) (snd r)).
  - reflexivity.
  - reflexivity.
  - vm_compute. reflexivity.
Defined.

Lemma length_cons_pos : forall A (a : A) l,
  (0 <? Z.of_nat (List.length (a :: l))) = true.
Proof. intros. apply Z.ltb_lt. cbn [List.length]. lia. Qed.

Lemma length_not_pos : forall A (l : list A),
  (0 <? Z.of_nat (List.length l)) = false -> l = [].
Proof.
  intros A [|a l] H; [reflexivity|]. now rewrite length_cons_pos in H.
Qed.

(* ------------------------------------------------------------------ *)
(** ** Dicts *)

Lemma dict_get_update : forall V (d : list (string * V)) k v k',
  dict_get (dict_update d k v) k'
    = if String.eqb k k' then Some v else dict_get d k'.
Proof.
  intros V d k v k'. induction d as [|[k0 v0] d IH]; [reflexivity|].
  cbn [dict_update dict_get].
  destruct (String.eqb_spec k0 k) as [->|Hne]; cbn [dict_get].
  - destruct (String.eqb k k'); reflexivity.
  - rewrite IH. destruct (String.eqb_spec k0 k') as [->|Hne'];
      [|reflexivity].
    destruct (String.eqb_spec k k') as [->|_]; [now elim Hne | reflexivity].
Qed.

Lemma dict_update_same : forall V (d : list (string * V)) k v,
  dict_get d k = Some v -> dict_update d k v = d.
Proof.
  intros V d k v. induction d as [|[k0 v0] d IH]; [discriminate|].
  cbn [dict_update dict_get].
  destruct (String.eqb_spec k0 k) as [->|Hne].
  - intros H. inversion H. reflexivity.
  - intros H. now rewrite IH.
Qed.

Lemma keys_update : forall V (d : list (string * V)) k v x,
  existsb (String.eqb x) (map fst (dict_update d k v))
    = existsb (String.eqb x) (map fst d) || String.eqb x k.
Proof.
  intros V d k v x. induction d as [|[k0 v0] d IH].
  - cbn. now rewrite orb_false_r.
  - cbn [dict_update]. destruct (String.eqb_spec k0 k) as [->|Hne];
      cbn [map fst existsb].
    + destruct (String.eqb x k); cbn; [reflexivity|now rewrite orb_false_r].
    + rewrite IH. now rewrite orb_assoc.
Qed.

Lemma distinct_update : forall V (d : list (string * V)) k v,
  distinct d = true -> distinct (dict_update d k v) = true.
Proof.
  intros V d k v. induction d as [|[k0 v0] d IH]; [reflexivity|].
  cbn [distinct dict_update]. intros H. apply andb_true_iff in H.
  destruct H as [H1 H2].
  destruct (String.eqb_spec k0 k) as [->|Hne]; cbn [distinct].
  - now rewrite H1, H2.
  - rewrite keys_update. apply negb_true_iff in H1. rewrite H1.
    destruct (String.eqb_spec k0 k) as [E|_]; [now elim Hne|].
    cbn. now apply IH.
Qed.

Lemma distinct_get : forall V (d : list (string * V)) k v,
  distinct d = true -> In (k, v) d -> dict_get d k = Some v.
Proof.
  intros V d k v. induction d as [|[k0 v0] d IH]; [intros _ []|].
  cbn [distinct dict_get In]. intros H Hin. apply andb_true_iff in H.
  destruct H as [H1 H2]. destruct Hin as [E|Hin].
  - inversion E; subst. now rewrite String.eqb_refl.
  - destruct (String.eqb_spec k0 k) as [->|Hne]; [|now apply IH].
    apply negb_true_iff in H1.
    assert (Hk : existsb (String.eqb k) (map fst d) = true).
    { apply existsb_exists. exists k. split; [|apply String.eqb_refl].
      apply in_map_iff. exists (k, v). auto. }
    congruence.
Qed.

Lemma fold_update_self : forall (l d : list (string * string)) ts,
  (forall k v, In (k, v) l -> dict_get d k = Some v) ->
  fold_left (fun n kv => if String.eqb ts (fst kv) then n
                         else dict_update n (fst kv) (snd kv)) l d = d.
Proof.
  induction l as [|[k v] l IH]; intros d ts H; [reflexivity|].
  cbn [fold_left fst snd].
  rewrite (dict_update_same _ d k v) by (apply H; now left).
  destruct (String.eqb ts k); apply IH; intros; apply H; now right.
Qed.

Lemma fold_names_get : forall fs (acc : list (string * string)) ts i,
  dict_get (fold_left (fun n j => if String.eqb ts j then n
                                  else dict_update n j j) fs acc) i
    = if existsb (String.eqb i) fs && negb (String.eqb ts i) then Some i
      else dict_get acc i.
Proof.
  induction fs as [|a fs IH]; intros acc ts i; [reflexivity|].
  cbn [fold_left existsb]. rewrite IH.
  destruct (existsb (String.eqb i) fs) eqn:Ex; cbn [andb orb].
  - rewrite orb_true_r. cbn [andb].
    destruct (String.eqb ts i) eqn:Et; cbn [negb]; [|reflexivity].
    destruct (String.eqb_spec ts a) as [->|Hne]; [reflexivity|].
    rewrite dict_get_update.
    destruct (String.eqb_spec a i) as [->|_]; [|reflexivity].
    apply String.eqb_eq in Et. now elim Hne.
  - rewrite orb_false_r.
    destruct (String.eqb_spec i a) as [->|Hne]; cbn [andb].
    + destruct (String.eqb ts a) eqn:Et; cbn [negb]; [reflexivity|].
      rewrite dict_get_update. now rewrite String.eqb_refl.
    + destruct (String.eqb ts a); [reflexivity|].
      rewrite dict_get_update.
      destruct (String.eqb_spec a i) as [E|_]; [now elim Hne|reflexivity].
Qed.

Lemma fold_names_distinct : forall fs (acc : list (string * string)) ts,
  distinct acc = true ->
  distinct (fold_left (fun n j => if String.eqb ts j then n
                                  else dict_update n j j) fs acc) = true.
Proof.
  induction fs as [|a fs IH]; intros acc ts H; [exact H|].
  cbn [fold_left]. apply IH.
  destruct (String.eqb ts a); [exact H | now apply distinct_update].
Qed.

(* ------------------------------------------------------------------ *)
(** ** The columns kept: self.reading_cols after the start of get_data *)

Lemma get_data_start_cols : forall file p,
  Producer.reading_cols (snd (Producer.get_data_start file p)) =
    if String.eqb (timestampFromFile (Producer.self_handle p)) "true" then
      if 0 <? Z.of_nat (List.length (Producer.reading_cols p)) then
        fold_left (fun n kv =>
                     if String.eqb (timestampCol (Producer.self_handle p)) (fst kv)
                     then n else dict_update n (fst kv) (snd kv))
                  (Producer.reading_cols p) (Producer.reading_cols p)
      else
        match field_names file (Producer.self_handle p) with
        | None => Producer.reading_cols p
        | Some fs =>
            fold_left (fun n i =>
                         if String.eqb (timestampCol (Producer.self_handle p)) i
                         then n else dict_update n i i)
                      fs (Producer.reading_cols p)
        end
    else Producer.reading_cols p.
Proof.
  intros file p. unfold Producer.get_data_start, field_names. cbv zeta.
  destruct (String.eqb (timestampFromFile (Producer.self_handle p)) "true");
    destruct (0 <? Z.of_nat (List.length (Producer.reading_cols p)));
    destruct (String.eqb (headerRow (Producer.self_handle p)) "true");
    destruct (String.eqb (fieldNames (Producer.self_handle p)) "None");
    try destruct (filter _ (csv_rows file)); try destruct (csv_rows file); reflexivity.
Qed.

(** X14: the columns kept.  The part of [get_data] that is to exclude the
    timestamp column from [self.reading_cols] leaves a mapping that is not
    empty as it is, the timestamp column included: its loop updates a copy
    of the mapping with entries the copy already has.  Only when the
    mapping is empty and timestampFromFile is true is it filled: with
    every field name but the timestamp column, mapped to itself. *)
Theorem reading_cols_after_start : forall file p,
  distinct (Producer.reading_cols p) = true ->
  let h := Producer.self_handle p in
  let p' := snd (Producer.get_data_start file p) in
  (Producer.reading_cols p <> [] ->
   Producer.reading_cols p' = Producer.reading_cols p) /\
  (String.eqb (timestampFromFile h) "true" = false ->
   Producer.reading_cols p' = Producer.reading_cols p) /\
  (String.eqb (timestampFromFile h) "true" = true ->
   Producer.reading_cols p = [] ->
   forall fs, field_names file h = Some fs ->
   forall i, dict_get (Producer.reading_cols p') i
             = if existsb (String.eqb i) fs && negb (String.eqb (timestampCol h) i)
               then Some i else None).
Proof.
  intros file p Hd h p'. subst h p'. rewrite get_data_start_cols.
  split; [|split].
  - intros Hne.
    destruct (String.eqb (timestampFromFile (Producer.self_handle p)) "true"); [|reflexivity].
    destruct (Producer.reading_cols p) as [|kv rc] eqn:E; [now elim Hne|].
    rewrite length_cons_pos.
    apply fold_update_self. intros k v Hin. now apply distinct_get.
  - intros Hts. now rewrite Hts.
  - intros Hts He fs Hfs i. rewrite Hts, He, Hfs. cbn [List.length Z.of_nat].
    cbn [Z.ltb Z.compare]. apply fold_names_get.
Qed.

Lemma reading_cols_after_start_witness :
  Producer.reading_cols (snd (Producer.get_data_start spaced_file renaming_producer))
    = Producer.reading_cols renaming_producer /\
  forall i,
    dict_get (Producer.reading_cols
                (snd (Producer.get_data_start spaced_file replay_producer))) i
    = if existsb (String.eqb i) ["ts"; "v"] && negb (String.eqb "ts" i)
      then Some i else None.
Proof.
  split.
  - apply (proj1 (reading_cols_after_start spaced_file renaming_producer eq_refl)).
    discriminate.
  - apply (proj2 (proj2 (reading_cols_after_start spaced_file replay_producer eq_refl)));
      reflexivity.
Defined.

Lemma get_data_start_result : forall file p p1,
  Producer.self_handle p1 = Producer.self_handle p ->
  (String.eqb (timestampFromFile (Producer.self_handle p)) "true" = true ->
   field_names file (Producer.self_handle p) = None ->
   (Producer.reading_cols p1 = [] <-> Producer.reading_cols p = [])) ->
  fst (Producer.get_data_start file p1) = fst (Producer.get_data_start file p).
Proof.
  intros file p p1 Hh Hrc. unfold Producer.get_data_start, field_names in *.
  cbv zeta. rewrite Hh.
  destruct (String.eqb (timestampFromFile (Producer.self_handle p)) "true").
  - destruct (String.eqb (headerRow (Producer.self_handle p)) "true").
    + destruct (0 <? Z.of_nat (List.length (Producer.reading_cols p1)));
        destruct (0 <? Z.of_nat (List.length (Producer.reading_cols p)));
        try destruct (filter _ (csv_rows file)); try destruct (csv_rows file); reflexivity.
    + destruct (String.eqb (fieldNames (Producer.self_handle p)) "None").
      * specialize (Hrc eq_refl eq_refl).
        destruct (Producer.reading_cols p1) as [|a1 l1],
                 (Producer.reading_cols p) as [|a l];
          try (destruct Hrc as [H1 H2];
               first [ discriminate (H1 eq_refl) | discriminate (H2 eq_refl) ]);
          rewrite ?length_cons_pos; cbn; try destruct (filter _ (csv_rows file)); try destruct (csv_rows file); reflexivity.
      * destruct (0 <? Z.of_nat (List.length (Producer.reading_cols p1)));
          destruct (0 <? Z.of_nat (List.length (Producer.reading_cols p)));
          try destruct (filter _ (csv_rows file)); try destruct (csv_rows file); reflexivity.
  - destruct (String.eqb (headerRow (Producer.self_handle p)) "true");
      [|destruct (String.eqb (fieldNames (Producer.self_handle p)) "None")];
      try destruct (filter _ (csv_rows file)); try destruct (csv_rows file); reflexivity.
Qed.

Lemma get_data_start_others : forall file p,
  let p' := snd (Producer.get_data_start file p) in
  Producer.self_handle p' = Producer.self_handle p /\
  Producer.period p' = Producer.period p /\
  Producer.iter_sensor_data p' = Producer.iter_sensor_data p /\
  Producer.prv_readings_ts p' = Producer.prv_readings_ts p.
Proof.
  intros file p. unfold Producer.get_data_start. cbv zeta.
  destruct (String.eqb (timestampFromFile (Producer.self_handle p)) "true");
    destruct (0 <? Z.of_nat (List.length (Producer.reading_cols p)));
    destruct (String.eqb (headerRow (Producer.self_handle p)) "true");
    destruct (String.eqb (fieldNames (Producer.self_handle p)) "None");
    try destruct (filter _ (csv_rows file)); try destruct (csv_rows file); cbn; auto.
Qed.

Lemma get_data_start_again : forall file p r p',
  distinct (Producer.reading_cols p) = true ->
  Producer.get_data_start file p = (r, p') ->
  Producer.get_data_start file p' = (r, p').
Proof.
  intros file p r p' Hd H.
  assert (Hp' : p' = snd (Producer.get_data_start file p)) by now rewrite H.
  assert (Hr : r = fst (Producer.get_data_start file p)) by now rewrite H.
  clear H.
  destruct (get_data_start_others file p) as (Hh & Hper & Hit & Hts).
  pose proof (get_data_start_cols file p) as Hc.
  rewrite <- Hp' in Hh, Hper, Hit, Hts, Hc.
  assert (Hd' : distinct (Producer.reading_cols p') = true).
  { rewrite Hc.
    destruct (String.eqb (timestampFromFile (Producer.self_handle p)) "true"); [|exact Hd].
    destruct (0 <? Z.of_nat (List.length (Producer.reading_cols p))) eqn:El.
    - rewrite fold_update_self; [exact Hd|].
      intros k v Hin. now apply distinct_get.
    - destruct (field_names file (Producer.self_handle p)); [|exact Hd].
      now apply fold_names_distinct. }
  assert (Hc' : Producer.reading_cols (snd (Producer.get_data_start file p'))
                = Producer.reading_cols p').
  { rewrite get_data_start_cols. rewrite Hh.
    destruct (String.eqb (timestampFromFile (Producer.self_handle p)) "true") eqn:Et; [|reflexivity].
    destruct (0 <? Z.of_nat (List.length (Producer.reading_cols p'))) eqn:El'.
    - apply fold_update_self. intros k v Hin. now apply distinct_get.
    - assert (E' : Producer.reading_cols p' = []).
      { now apply length_not_pos. }
      destruct (field_names file (Producer.self_handle p)) as [fs|] eqn:Ef; [|reflexivity].
      rewrite E'. rewrite E' in Hc.
      destruct (0 <? Z.of_nat (List.length (Producer.reading_cols p))) eqn:El.
      + rewrite fold_update_self in Hc
          by (intros k v Hin; now apply distinct_get).
        rewrite <- Hc in El. discriminate El.
      + assert (E : Producer.reading_cols p = []).
        { now apply length_not_pos. }
        rewrite E in Hc. now symmetry. }
  assert (Hfst : fst (Producer.get_data_start file p')
                 = fst (Producer.get_data_start file p)).
  { apply get_data_start_result; [exact Hh|].
    intros Et Ef. rewrite Hc, Et, Ef.
    destruct (0 <? Z.of_nat (List.length (Producer.reading_cols p))) eqn:El;
      [|reflexivity].
    rewrite fold_update_self by (intros k v Hin; now apply distinct_get).
    reflexivity. }
  destruct (get_data_start_others file p') as (Hh2 & Hper2 & Hit2 & Hts2).
  destruct (Producer.get_data_start file p') as [r2 p2].
  cbn [fst snd] in *. subst r2. rewrite <- Hr. f_equal.
  destruct p2, p'. cbn in *. congruence.
Qed.

(** X15: the start of [get_data] is idempotent.  Run again on the
    Producer it has left (as the rewind of repeatLoop does), it gives the
    same field names and rows, or the same exception, and leaves
    [self.reading_cols] as they are: every pass over the file selects
    the same columns. *)
Theorem get_data_start_idempotent : forall file p r p',
  distinct (Producer.reading_cols p) = true ->
  Producer.get_data_start file p = (r, p') ->
  Producer.get_data_start file p' = (r, p').
Proof.
  intros file p r p' Hd H. exact (get_data_start_again file p r p' Hd H).
Qed.

Lemma get_data_start_idempotent_witness :
  let out := Producer.get_data_start spaced_file replay_producer in
  Producer.get_data_start spaced_file (snd out) = (fst out, snd out).
Proof.
  apply (get_data_start_idempotent spaced_file replay_producer).
  - reflexivity.
  - vm_compute. reflexivity.
Defined.

(* ------------------------------------------------------------------ *)
(** ** The cherry-pick of columns *)

Lemma fold_update_fresh : forall (l acc : record),
  distinct (acc ++ l)%list = true ->
  fold_left (fun d kv => dict_update d (fst kv) (snd kv)) l acc
    = (acc ++ l)%list.
Proof.
  assert (Hfresh : forall (acc : record) k v,
            existsb (String.eqb k) (map fst acc) = false ->
            dict_update acc k v = (acc ++ [(k, v)])%list).
  { induction acc as [|[k0 v0] acc IH]; intros k v H; [reflexivity|].
    cbn [map fst existsb] in H. apply orb_false_iff in H. destruct H as [H1 H2].
    cbn [dict_update app]. rewrite String.eqb_sym, H1. now rewrite IH. }
  assert (Hmid : forall (acc l : record) k v,
            distinct (acc ++ (k, v) :: l)%list = true ->
            existsb (String.eqb k) (map fst acc) = false).
  { induction acc as [|[k0 v0] acc IH]; intros l k v H; [reflexivity|].
    cbn [app distinct] in H. apply andb_true_iff in H. destruct H as [H1 H2].
    cbn [map fst existsb]. rewrite (IH l k v H2), orb_false_r.
    apply negb_true_iff in H1.
    destruct (String.eqb_spec k k0) as [->|]; [|reflexivity].
    rewrite <- H1. symmetry. apply existsb_exists. exists k0.
    split; [|apply String.eqb_refl].
    rewrite map_app. apply in_or_app. right. now left. }
  induction l as [|[k v] l IH]; intros acc H.
  - now rewrite app_nil_r.
  - cbn [fold_left fst snd]. rewrite (Hfresh acc k v (Hmid acc l k v H)).
    rewrite IH; rewrite <- app_assoc; [reflexivity | exact H].
Qed.

Lemma fold_select_get : forall (readings : record) (l : list (string * string))
    (rc : list (string * string)) (acc : record),
  (forall kv, In kv l -> In kv rc) ->
  (forall key x, dict_get acc key = Some x ->
     exists k, In (k, key) rc /\ dict_get readings k = Some x) ->
  forall key x,
    dict_get (fold_left (fun d kv =>
                           match dict_get readings (fst kv) with
                           | Some y => dict_update d (snd kv) y
                           | None => d
                           end) l acc) key = Some x ->
    exists k, In (k, key) rc /\ dict_get readings k = Some x.
Proof.
  intros readings. induction l as [|[k v] l IH]; intros rc acc Hsub Hacc key x.
  - cbn. apply Hacc.
  - cbn [fold_left fst snd]. apply IH.
    + intros kv Hin. apply Hsub. now right.
    + intros key' x'. destruct (dict_get readings k) as [y|] eqn:Ey;
        [|apply Hacc].
      rewrite dict_get_update.
      destruct (String.eqb_spec v key') as [<-|_]; [|apply Hacc].
      intros E. inversion E; subst. exists k. split; [|exact Ey].
      apply Hsub. now left.
Qed.

(** X16: the cherry-pick of columns.  With a mapping [reading_cols] that
    is not empty, every entry of what is emitted for a record is a value of
    the record under the new name of its column: nothing is emitted that
    the mapping does not select.  With an empty mapping the record is
    emitted as it is. *)
Theorem select_spec : forall p (readings : record),
  distinct readings = true ->
  (Producer.reading_cols p = [] -> Producer.select p readings [] = readings) /\
  (Producer.reading_cols p <> [] ->
   forall key x, dict_get (Producer.select p readings []) key = Some x ->
   exists k, In (k, key) (Producer.reading_cols p) /\
             dict_get readings k = Some x).
Proof.
  intros p readings Hd. unfold Producer.select. split.
  - intros E. rewrite E. cbn [List.length Z.of_nat Z.ltb Z.compare].
    now apply (fold_update_fresh readings []).
  - intros Hne key x.
    destruct (Producer.reading_cols p) as [|kv rc] eqn:E; [now elim Hne|].
    rewrite length_cons_pos.
    apply fold_select_get; [auto | intros ? ? H; discriminate H].
Qed.

Lemma select_spec_witness :
  Producer.select default_producer [("a", VInt 1); ("b", VInt 2)] []
    = [("a", VInt 1); ("b", VInt 2)].
Proof.
  apply (select_spec default_producer [("a", VInt 1); ("b", VInt 2)]);
    reflexivity.
Defined.

(* ------------------------------------------------------------------ *)
(** ** The field names of the header *)

Lemma split_comma_chars : forall l cur,
  forallb (fun c => negb (code c =? 44)) cur = true ->
  forall name c, In name (split_comma l cur) -> In c (chars name) ->
  (In c l \/ In c cur) /\ (code c =? 44) = false.
Proof.
  assert (Hcur : forall cur name c,
            forallb (fun c => negb (code c =? 44)) cur = true ->
            name = string_of_list_ascii (rev cur) -> In c (chars name) ->
            In c cur /\ (code c =? 44) = false).
  { intros cur name c Hc -> Hin. unfold chars in Hin.
    rewrite list_ascii_of_string_of_list_ascii in Hin.
    apply in_rev in Hin. split; [exact Hin|].
    rewrite forallb_forall in Hc. apply negb_true_iff. now apply Hc. }
  induction l as [|a l IH]; intros cur Hc name c Hn Hin.
  - cbn in Hn. destruct Hn as [Hn|[]].
    destruct (Hcur cur name c Hc (eq_sym Hn) Hin). auto.
  - cbn [split_comma] in Hn. destruct (code a =? 44) eqn:Ea.
    + destruct Hn as [Hn|Hn].
      * destruct (Hcur cur name c Hc (eq_sym Hn) Hin). auto.
      * destruct (IH [] eq_refl name c Hn Hin) as [[H|[]] H']. split; [|exact H'].
        left. now right.
    + assert (Hc' : forallb (fun c => negb (code c =? 44)) (a :: cur) = true).
      { cbn [forallb]. now rewrite Ea, Hc. }
      destruct (IH (a :: cur) Hc' name c Hn Hin) as [[H|[H|H]] H'];
        (split; [|exact H']).
      * left. now right.
      * left. left. exact H.
      * now right.
Qed.

(** X17: the field names [get_data] takes from the header line carry no
    blank, no line end and no comma: the line is stripped, freed of these
    characters and split at its commas, so that a column headed
    ["my col"] goes by the name ["mycol"]. *)
Theorem header_names_clean : forall s,
  forallb (fun name => negb (existsb removed_from_header (chars name)))
          (split_comma (clean_header s) []) = true.
Proof.
  intros s. apply forallb_forall. intros name Hn.
  apply negb_true_iff.
  destruct (existsb removed_from_header (chars name)) eqn:E; [|reflexivity].
  apply existsb_exists in E. destruct E as (c & Hin & Hc).
  destruct (split_comma_chars (clean_header s) [] eq_refl name c Hn Hin)
    as [[H|[]] H44].
  unfold clean_header in H. apply filter_In in H. destruct H as [_ H].
  apply negb_true_iff in H. unfold removed_from_header in Hc.
  rewrite H, H44 in Hc. discriminate Hc.
Qed.

(* ------------------------------------------------------------------ *)
(** ** The signal of plugin_shutdown and the pace of the Producer *)

(** X18: once the cancellation signal is set, the Producer is no longer
    paced: every [wait_event.wait] of its passes returns at once, whatever
    the delay, so that it runs through the rest of the recording as fast
    as the hand-off lets it. *)
Theorem set_signal_ends_pacing : forall env file ms s s',
  Schedule.exec env file true ms s = Some s' ->
  exists ws, Session.waits s' = (Session.waits s ++ ws)%list /\
             forallb is_immediate ws = true.
Proof.
  intros env file ms. induction ms as [|m ms IH]; intros s s' H.
  - cbn in H. inversion H; subst. exists []. now rewrite app_nil_r.
  - assert (Hstep : forall s1, 
              (match m with
               | Schedule.P elapsed now =>
                   Session.producer_step env file true elapsed now s
               | Schedule.C => Session.consumer_step s
               end) = Some s1 ->
              exists ws, Session.waits s1 = (Session.waits s ++ ws)%list /\
                         forallb is_immediate ws = true).
    { intros s1 H1. destruct m as [elapsed now|].
      - unfold Session.producer_step in H1.
        destruct (Session.producer_at s).
        + destruct (Producer.run_try env file (Session.producer s)) as [[st sd] w].
          destruct (Producer.wait_timeout st elapsed) as [tmo|e];
            cbn [bind Threading.Event_wait] in H1;
            inversion H1; subst; cbn [Session.waits].
          * exists [Threading.Immediately]. auto.
          * exists []. now rewrite app_nil_r.
        + destruct (Session.condition_owner s) as [[|]|];
            inversion H1; subst; exists []; now rewrite app_nil_r.
        + destruct (0 <? Producer.len_sensor_data sd);
            [destruct (Threading.put _ _)|]; inversion H1; subst;
            exists []; now rewrite app_nil_r.
        + destruct (Threading.full _ || _); inversion H1; subst;
            exists []; now rewrite app_nil_r.
        + destruct (Producer.run_eof _); inversion H1; subst;
            exists []; now rewrite app_nil_r.
        + discriminate.
        + discriminate.
      - unfold Session.consumer_step in H1.
        destruct (Session.consumer_at s).
        + destruct (Session.condition_owner s); inversion H1; subst;
            exists []; now rewrite app_nil_r.
        + destruct (Threading.get _) as [[d q]|]; inversion H1; subst;
            exists []; now rewrite app_nil_r.
        + inversion H1; subst. exists []. now rewrite app_nil_r. }
    destruct m as [elapsed now|]; cbn [Schedule.exec] in H.
    + destruct (Session.producer_step env file true elapsed now s) as [s1|];
        [|discriminate].
      destruct (Hstep s1 eq_refl) as (ws1 & E1 & F1).
      destruct (IH s1 s' H) as (ws2 & E2 & F2).
      exists (ws1 ++ ws2)%list. rewrite E2, E1, app_assoc, forallb_app, F1, F2.
      auto.
    + destruct (Session.consumer_step s) as [s1|]; [|discriminate].
      destruct (Hstep s1 eq_refl) as (ws1 & E1 & F1).
      destruct (IH s1 s' H) as (ws2 & E2 & F2).
      exists (ws1 ++ ws2)%list. rewrite E2, E1, app_assoc, forallb_app, F1, F2.
      auto.
Qed.

Lemma set_signal_ends_pacing_witness :
  let s' := after example_env three_rows_file true
              (Schedule.producer_moves 10 "t") batch_session in
  exists ws, Session.waits s' = (Session.waits batch_session ++ ws)%list /\
             forallb is_immediate ws = true.
Proof.
  apply (set_signal_ends_pacing example_env three_rows_file
           (Schedule.producer_moves 10 "t") batch_session).
  vm_compute. reflexivity.
Defined.

(* ------------------------------------------------------------------ *)
(** ** repeatLoop *)

Section RepeatTheorems.

Variable env : Env.
Variable file : csv_file.

Lemma run_try_keeps_handle : forall st st' sd w,
  Producer.run_try env file st = (st', sd, w) ->
  Producer.self_handle (Producer.self st')
    = Producer.self_handle (Producer.self st).
Proof.
  intros st st' sd w H. unfold Producer.run_try in H. cbv zeta in H.
  destruct (String.eqb (ingestMode _) "burst").
  - destruct (py_int _); [|inversion H; reflexivity].
    destruct (Producer.burst_loop env file _ _ _) as [[o pts] p'] eqn:E.
    apply burst_loop_keeps in E. destruct E as (E & _ & _).
    destruct o as [e|]; [destruct e|]; inversion H; subst; exact E.
  - destruct (Producer.next_sensor_data env file _) as [[r|e] p'] eqn:E;
      apply next_sensor_data_keeps in E; destruct E as (E & _ & _).
    + destruct (String.eqb (timestampFromFile _) "true").
      * destruct (Producer.get_time_stamp_diff env p' r) as [[c|e] p''] eqn:Ed;
          inversion H; subst; cbn [Producer.self]; rewrite <- E;
          unfold Producer.get_time_stamp_diff in Ed;
          destruct (dict_get r _) as [[n|x|s]|]; cbn in Ed;
          try (destruct (strptime env s _)); cbn in Ed;
          inversion Ed; subst; reflexivity.
      * inversion H; subst. exact E.
    + destruct e; inversion H; subst; exact E.
Qed.

Lemma repeat_step : forall flag s s',
  Session.step env file flag s s' ->
  Producer.self_handle (Producer.self (Session.producer s'))
    = Producer.self_handle (Producer.self (Session.producer s)) /\
  (String.eqb (repeatLoop (Producer.self_handle
                             (Producer.self (Session.producer s)))) "true" = true ->
   Session.producer_at s <> Session.PReturned ->
   Session.producer_at s' <> Session.PReturned).
Proof.
  intros flag s s' H. destruct H as [elapsed now s s' H | s s' H].
  - unfold Session.producer_step in H.
    destruct (Session.producer_at s) eqn:Ep.
    + destruct (Producer.run_try env file (Session.producer s)) as [[st sd] w] eqn:E.
      apply run_try_keeps_handle in E.
      destruct (bind (Producer.wait_timeout st elapsed) _);
        inversion H; subst; cbn; split; auto; discriminate.
    + destruct (Session.condition_owner s) as [[|]|];
        inversion H; subst; cbn; split; auto; discriminate.
    + destruct (0 <? Producer.len_sensor_data sd);
        [destruct (Threading.put _ _)|]; inversion H; subst; cbn;
        split; auto; discriminate.
    + destruct (Threading.full _ || _); inversion H; subst; cbn;
        split; auto; discriminate.
    + unfold Producer.run_eof in H.
      destruct (Producer.eof_reached (Session.producer s)).
      * destruct (String.eqb (repeatLoop _) "true") eqn:Er;
          inversion H; subst; cbn; split; auto; try discriminate.
      * inversion H; subst; cbn. split; auto. discriminate.
    + discriminate.
    + discriminate.
  - unfold Session.consumer_step in H.
    destruct (Session.consumer_at s).
    + destruct (Session.condition_owner s); inversion H; subst; cbn; auto.
    + destruct (Threading.get _) as [[d q]|]; inversion H; subst; cbn; auto.
    + inversion H; subst; cbn; auto.
Qed.

Lemma repeat_steps : forall flag s s',
  Session.steps env file flag s s' ->
  String.eqb (repeatLoop (Producer.self_handle
                            (Producer.self (Session.producer s)))) "true" = true ->
  Session.producer_at s <> Session.PReturned ->
  Session.producer_at s' <> Session.PReturned.
Proof.
  intros flag s s' H. induction H as [s | s s' s'' Hst Hsts IH]; [auto|].
  intros Hr Hp. destruct (repeat_step flag s s' Hst) as [Hh Hn].
  apply IH; [now rewrite Hh | now apply Hn].
Qed.

Lemma repeat_steps_handle : forall flag s s',
  Session.steps env file flag s s' ->
  Producer.self_handle (Producer.self (Session.producer s'))
    = Producer.self_handle (Producer.self (Session.producer s)).
Proof.
  intros flag s s' H. induction H as [s | s s' s'' Hst Hsts IH]; [reflexivity|].
  rewrite IH. apply (repeat_step flag s s' Hst).
Qed.

(** The last statement of a pass, with repeatLoop true and the end of the
    data reached: the generator is created anew, the flag of the end of the
    data is cleared and the loop is at its next pass; the delay of the pass
    before, the queue and the lock are left as they are. *)
Lemma rewind_step : forall flag elapsed now s,
  Session.producer_at s = Session.PEof ->
  Producer.eof_reached (Session.producer s) = true ->
  String.eqb (repeatLoop (Producer.self_handle
                            (Producer.self (Session.producer s)))) "true" = true ->
  exists s',
    Session.producer_step env file flag elapsed now s = Some s' /\
    Session.producer_at s' = Session.PLoop /\
    Producer.self (Session.producer s')
      = Producer.set_iter (Producer.self (Session.producer s)) Producer.GenCreated /\
    Producer.eof_reached (Session.producer s') = false /\
    Producer.next_iteration_secs (Session.producer s')
      = Producer.next_iteration_secs (Session.producer s) /\
    Session.put_log s' = Session.put_log s /\
    Session.bucket s' = Session.bucket s /\
    Session.condition_owner s' = Session.condition_owner s.
Proof.
  intros flag elapsed now s Hat Heof Hr.
  unfold Session.producer_step, Producer.run_eof. rewrite Hat, Heof, Hr.
  eexists. split; [reflexivity|]. cbn. repeat split; reflexivity.
Qed.

End RepeatTheorems.

(** X19: with repeatLoop true, [Producer.run] does not return, whatever the
    schedule and whatever the passes read or raise; and whenever it stands
    at the last statement of a pass with the end of the data reached, its
    next step is the rewind: the generator is created anew, so that the next
    [next()] starts [get_data] over from the top of the file, the flag of
    the end of the data is cleared, the delay of the pass before is kept,
    nothing is put, and the loop stands at its next pass.  (The thread can
    still end by an exception outside the [try], or be blocked.) *)
Theorem repeating_producer_never_returns :
  forall env file flag ms maxsize p s,
  String.eqb (repeatLoop (Producer.self_handle p)) "true" = true ->
  Schedule.exec env file flag ms (Session.start maxsize p) = Some s ->
  Session.producer_at s <> Session.PReturned /\
  (Session.producer_at s = Session.PEof ->
   Producer.eof_reached (Session.producer s) = true ->
   forall elapsed now, exists s',
     Session.producer_step env file flag elapsed now s = Some s' /\
     Session.producer_at s' = Session.PLoop /\
     Producer.self (Session.producer s')
       = Producer.set_iter (Producer.self (Session.producer s))
           Producer.GenCreated /\
     Producer.eof_reached (Session.producer s') = false /\
     Producer.next_iteration_secs (Session.producer s')
       = Producer.next_iteration_secs (Session.producer s) /\
     Session.put_log s' = Session.put_log s /\
     Session.bucket s' = Session.bucket s /\
     Session.condition_owner s' = Session.condition_owner s).
Proof.
  intros env file flag ms maxsize p s Hr H. apply exec_steps in H.
  split.
  - apply (repeat_steps env file flag _ _ H); [exact Hr | discriminate].
  - intros Hat Heof elapsed now.
    apply rewind_step; [exact Hat | exact Heof|].
    rewrite (repeat_steps_handle env file flag _ _ H). exact Hr.
Qed.

Lemma repeating_producer_never_returns_witness :
  let s := after example_env three_rows_file false
             (Schedule.producer_moves 19 "t") (Session.start 100 repeating_producer) in
  (Session.producer_at s = Session.PEof /\
   Producer.eof_reached (Session.producer s) = true) /\
  Session.producer_at s <> Session.PReturned /\
  (Session.producer_at s = Session.PEof ->
   Producer.eof_reached (Session.producer s) = true ->
   forall elapsed now, exists s',
     Session.producer_step example_env three_rows_file false elapsed now s
       = Some s' /\
     Session.producer_at s' = Session.PLoop /\
     Producer.self (Session.producer s')
       = Producer.set_iter (Producer.self (Session.producer s))
           Producer.GenCreated /\
     Producer.eof_reached (Session.producer s') = false /\
     Producer.next_iteration_secs (Session.producer s')
       = Producer.next_iteration_secs (Session.producer s) /\
     Session.put_log s' = Session.put_log s /\
     Session.bucket s' = Session.bucket s /\
     Session.condition_owner s' = Session.condition_owner s).
Proof.
  cbv zeta. split; [split; vm_compute; reflexivity|].
  apply (repeating_producer_never_returns example_env three_rows_file false
           (Schedule.producer_moves 19 "t") 100 repeating_producer).
  - reflexivity.
  - vm_compute. reflexivity.
Defined.

(* ------------------------------------------------------------------ *)
(** ** plugin_init on a setting that is no integer, and plugin_reconfigure *)

Section ReconfigureTheorems.

Variable FOGLAMP_DATA : string.
Variable isfile : string -> bool.

Lemma check_log : forall test msg errors log r log',
  Init.check test msg errors log = (r, log') ->
  exists b, r = Ok b /\ (log' = log \/ log' = (log ++ [msg])%list).
Proof.
  intros test msg errors log r log'. unfold Init.check.
  destruct test; cbn; intros H; inversion H; subst; eauto.
Qed.

Lemma plugin_init_outcomes : forall h log r log',
  Init.plugin_init FOGLAMP_DATA isfile h log = (r, log') ->
  r = Ok h \/ r = Raise RuntimeError \/
  (r = Raise ValueError /\
   (exists e, py_int (sampleRate h) = Raise e \/
              py_int (burstSize h) = Raise e \/
              py_int (burstInterval h) = Raise e) /\
   forall m, In m log' -> In m log \/
     m = Init.msg_not_found FOGLAMP_DATA h \/ m = Init.msg_empty \/
     m = Init.msg_sampleRate \/ m = Init.msg_burstSize).
Proof.
  intros h log r log'.
  unfold Init.plugin_init, Init.plugin_init_checks, Init.lbind, Init.lift.
  destruct (Init.check (negb _) _ false log) as [r1 l1] eqn:E1.
  apply check_log in E1. destruct E1 as (b1 & -> & H1).
  destruct (Init.check (String.eqb _ _) _ b1 l1) as [r2 l2] eqn:E2.
  apply check_log in E2. destruct E2 as (b2 & -> & H2).
  assert (I2 : forall m, In m l2 -> In m log \/
                m = Init.msg_not_found FOGLAMP_DATA h \/ m = Init.msg_empty).
  { intros m Hm. destruct H2 as [->| ->], H1 as [->| ->];
      repeat (apply in_app_or in Hm; destruct Hm as [Hm|Hm]);
      try (destruct Hm as [<-|[]]); auto. }
  destruct (py_int (sampleRate h)) as [sr|e] eqn:Esr.
  2: { intros H; inversion H; subst. apply py_int_raises in Esr. subst e.
       right; right. split; [reflexivity|]. split; [eauto|].
       intros m Hm. destruct (I2 m Hm) as [?|[?|?]]; auto. }
  destruct (Init.check (_ || _) _ b2 l2) as [r3 l3] eqn:E3.
  apply check_log in E3. destruct E3 as (b3 & -> & H3).
  assert (I3 : forall m, In m l3 -> In m log \/
                m = Init.msg_not_found FOGLAMP_DATA h \/ m = Init.msg_empty \/
                m = Init.msg_sampleRate).
  { intros m Hm. destruct H3 as [->| ->];
      [|apply in_app_or in Hm; destruct Hm as [Hm|[<-|[]]]; auto];
      destruct (I2 m Hm) as [?|[?|?]]; auto. }
  destruct (py_int (burstSize h)) as [bs|e] eqn:Ebs.
  2: { intros H; inversion H; subst. apply py_int_raises in Ebs. subst e.
       right; right. split; [reflexivity|]. split; [eauto|].
       intros m Hm. destruct (I3 m Hm) as [?|[?|[?|?]]]; auto. }
  destruct (Init.check (bs <? 1) _ b3 l3) as [r4 l4] eqn:E4.
  apply check_log in E4. destruct E4 as (b4 & -> & H4).
  destruct (py_int (burstInterval h)) as [bi|e] eqn:Ebi.
  2: { intros H; inversion H; subst. apply py_int_raises in Ebi. subst e.
       right; right. split; [reflexivity|]. split; [eauto|].
       intros m Hm. destruct H4 as [->| ->];
         [|apply in_app_or in Hm; destruct Hm as [Hm|[<-|[]]]; auto 6];
         destruct (I3 m Hm) as [?|[?|[?|?]]]; auto 6. }
  destruct (Init.check (bi <? 1) _ b4 l4) as [r5 l5] eqn:E5.
  apply check_log in E5. destruct E5 as (b5 & -> & H5).
  destruct (Init.check (negb _) _ b5 l5) as [r6 l6] eqn:E6.
  apply check_log in E6. destruct E6 as (b6 & -> & H6).
  destruct b6; cbn; intros H; inversion H; subst; auto.
Qed.

(** X20: a setting that is no integer.  When sampleRate, burstSize or
    burstInterval is not the text of an integer, [plugin_init] raises the
    [ValueError] of [int()], not the [RuntimeError] of its own checks,
    whatever else is wrong with the configuration; the tests after the
    failing conversion are not made, so that the message about the ingest
    mode is never logged. *)
Theorem plugin_init_not_an_integer : forall h e,
  py_int (sampleRate h) = Raise e \/ py_int (burstSize h) = Raise e \/
  py_int (burstInterval h) = Raise e ->
  fst (Init.plugin_init FOGLAMP_DATA isfile h []) = Raise ValueError /\
  ~ In Init.msg_ingestMode (snd (Init.plugin_init FOGLAMP_DATA isfile h [])).
Proof.
  intros h e He.
  assert (Hv : fst (Init.plugin_init FOGLAMP_DATA isfile h []) = Raise ValueError).
  { unfold Init.plugin_init, Init.plugin_init_checks, Init.lbind, Init.lift.
    destruct (Init.check (negb _) _ false []) as [r1 l1] eqn:E1.
    apply check_log in E1. destruct E1 as (b1 & -> & _).
    destruct (Init.check (String.eqb _ _) _ b1 l1) as [r2 l2] eqn:E2.
    apply check_log in E2. destruct E2 as (b2 & -> & _).
    destruct (py_int (sampleRate h)) as [sr|e1] eqn:Esr;
      [|apply py_int_raises in Esr; subst e1; reflexivity].
    destruct (Init.check (_ || _) _ b2 l2) as [r3 l3] eqn:E3.
    apply check_log in E3. destruct E3 as (b3 & -> & _).
    destruct (py_int (burstSize h)) as [bs|e1] eqn:Ebs;
      [|apply py_int_raises in Ebs; subst e1; reflexivity].
    destruct (Init.check (bs <? 1) _ b3 l3) as [r4 l4] eqn:E4.
    apply check_log in E4. destruct E4 as (b4 & -> & _).
    destruct (py_int (burstInterval h)) as [bi|e1] eqn:Ebi;
      [|apply py_int_raises in Ebi; subst e1; reflexivity].
    destruct He as [He|[He|He]]; discriminate He. }
  split; [exact Hv|].
  destruct (Init.plugin_init FOGLAMP_DATA isfile h []) as [r log'] eqn:E.
  cbn [fst snd] in *. subst r.
  destruct (plugin_init_outcomes h [] _ _ E) as [H|[H|(_ & _ & Hlog)]];
    try discriminate H.
  intros Hin. destruct (Hlog _ Hin) as [[]|[H|[H|[H|H]]]]; discriminate H.
Qed.

End ReconfigureTheorems.

Lemma plugin_init_not_an_integer_witness :
  fst (Init.plugin_init "/data" (fun _ => true)
         (with_sampleRate default_handle "fast") []) = Raise ValueError /\
  ~ In Init.msg_ingestMode
       (snd (Init.plugin_init "/data" (fun _ => true)
               (with_sampleRate default_handle "fast") [])).
Proof.
  apply (plugin_init_not_an_integer "/data" (fun _ => true)
           (with_sampleRate default_handle "fast") ValueError).
  left. reflexivity.
Defined.

(** X21: [plugin_reconfigure] returns the new configuration as the
    handle.  When no key of its list has changed it touches nothing and
    marks the handle restart [no].  Otherwise it shuts the session down
    before it validates the new configuration: the handle is marked
    restart [yes], or the exception of [plugin_init] leaves with the
    plugin shut down (the signal set, the threads no longer referenced).
    It starts no session itself. *)
Theorem plugin_reconfigure_outcomes :
  forall FOGLAMP_DATA isfile diff w new_config log r log' w',
  Reconfigure.plugin_reconfigure FOGLAMP_DATA isfile diff w new_config log
    = (r, log', w') ->
  (r = Ok (new_config, "no") /\ w' = w /\ log' = log /\
   forall k, In k diff -> ~ In k Reconfigure.restart_keys) \/
  (w' = Plugin.plugin_shutdown w /\
   (exists k, In k diff /\ In k Reconfigure.restart_keys) /\
   (r = Ok (new_config, "yes") \/ r = Raise RuntimeError \/ r = Raise ValueError)).
Proof.
  intros FD isfile diff w new_config log r log' w'.
  unfold Reconfigure.plugin_reconfigure.
  assert (Hin : forall k l, str_in k l = true <-> In k l).
  { intros k l. unfold str_in. rewrite existsb_exists. split.
    - intros (x & Hx & E). apply String.eqb_eq in E. now subst.
    - intros H. exists k. split; [exact H | apply String.eqb_refl]. }
  destruct (existsb (fun k => str_in k diff) Reconfigure.restart_keys) eqn:E.
  - apply existsb_exists in E. destruct E as (k & Hk & Hd).
    apply Hin in Hd.
    destruct (Init.plugin_init FD isfile new_config log) as [r0 l0] eqn:Ei.
    apply plugin_init_outcomes in Ei.
    intros H. right.
    destruct Ei as [->|[->|[-> _]]]; inversion H; subst;
      (split; [reflexivity|]); (split; [exists k; auto|]); auto.
  - intros H. inversion H; subst. left. repeat split.
    intros k Hd Hk.
    assert (Ht : existsb (fun k => str_in k diff) Reconfigure.restart_keys = true).
    { apply existsb_exists. exists k. split; [exact Hk | now apply Hin]. }
    congruence.
Qed.

Lemma plugin_reconfigure_outcomes_witness :
  let out := Reconfigure.plugin_reconfigure "/data" (fun _ => true)
               ["sampleRate"] started_process
               (with_sampleRate default_handle "0") [] in
  (fst (fst out) = Ok (with_sampleRate default_handle "0", "no") /\
   snd out = started_process /\ snd (fst out) = [] /\
   forall k, In k ["sampleRate"] -> ~ In k Reconfigure.restart_keys) \/
  (snd out = Plugin.plugin_shutdown started_process /\
   (exists k, In k ["sampleRate"] /\ In k Reconfigure.restart_keys) /\
   (fst (fst out) = Ok (with_sampleRate default_handle "0", "yes") \/
    fst (fst out) = Raise RuntimeError \/ fst (fst out) = Raise ValueError)).
Proof.
  intros out.
  apply (plugin_reconfigure_outcomes "/data" (fun _ => true) ["sampleRate"]
           started_process (with_sampleRate default_handle "0") []).
  vm_compute. reflexivity.
Defined.

(* ------------------------------------------------------------------ *)
(** ** Fields that are decimal numbers with a point *)

Lemma fold_digits_shift : forall ds d,
  fold_left (fun acc c => 10 * acc + digit_val c) ds d
    = d * 10 ^ Z.of_nat (List.length ds) + decimal_value ds.
Proof.
  unfold decimal_value.
  induction ds as [|c ds IH]; intros d.
  - cbn. lia.
  - cbn [fold_left List.length]. rewrite IH. rewrite (IH (10 * 0 + digit_val c)).
    rewrite Nat2Z.inj_succ, Z.pow_succ_r by lia. ring.
Qed.

Lemma decimal_value_cons : forall c ds,
  decimal_value (c :: ds)
    = digit_val c * 10 ^ Z.of_nat (List.length ds) + decimal_value ds.
Proof.
  intros c ds. unfold decimal_value at 1. cbn [fold_left].
  rewrite fold_digits_shift. ring.
Qed.

Lemma pow10_succ : forall (l : list ascii) (c : ascii),
  10 ^ Z.of_nat (List.length (c :: l)) = 10 * 10 ^ Z.of_nat (List.length l).
Proof.
  intros l c. cbn [List.length]. rewrite Nat2Z.inj_succ.
  apply Z.pow_succ_r. lia.
Qed.

Lemma tokenize_frac_run : forall fp d s,
  forallb is_digit fp = true ->
  Ast.tokenize fp (Ast.FracRun d s)
    = Ok [Ast.TFloat (d * 10 ^ Z.of_nat (List.length fp) + decimal_value fp)
                     (s + Z.of_nat (List.length fp))].
Proof.
  induction fp as [|c fp IH]; intros d s H.
  - cbn [Ast.tokenize Ast.flush List.length Z.of_nat].
    replace (d * 10 ^ 0 + decimal_value []) with d
      by (unfold decimal_value; cbn; lia).
    now replace (s + 0) with s by lia.
  - cbn [forallb] in H. apply andb_true_iff in H. destruct H as [Hc Hfp].
    cbn [Ast.tokenize]. rewrite Hc. rewrite (IH _ _ Hfp).
    rewrite decimal_value_cons, pow10_succ.
    replace (s + Z.of_nat (List.length (c :: fp)))
      with (s + 1 + Z.of_nat (List.length fp))
      by (cbn [List.length]; lia).
    do 3 f_equal. ring.
Qed.

Lemma tokenize_int_then : forall ds rest n lead0 allzero len,
  forallb is_digit ds = true ->
  Ast.tokenize (ds ++ rest)%list (Ast.IntRun n lead0 allzero len)
    = Ast.tokenize rest
        (Ast.IntRun (n * 10 ^ Z.of_nat (List.length ds) + decimal_value ds)
           lead0 (allzero && forallb is_zero_digit ds)
           (len + Z.of_nat (List.length ds))).
Proof.
  induction ds as [|c ds IH]; intros rest n lead0 allzero len H.
  - cbn [app List.length forallb Z.of_nat]. rewrite andb_true_r.
    replace (n * 10 ^ 0 + decimal_value []) with n
      by (unfold decimal_value; cbn; lia).
    now replace (len + 0) with len by lia.
  - cbn [forallb] in H. apply andb_true_iff in H. destruct H as [Hc Hds].
    cbn [app Ast.tokenize]. rewrite Hc. rewrite (IH _ _ _ _ _ Hds).
    destruct (digit_facts c Hc) as (_ & _ & _ & _ & _ & Hz).
    cbn [forallb]. rewrite Hz, andb_assoc.
    rewrite decimal_value_cons, pow10_succ.
    replace (len + 1 + Z.of_nat (List.length ds))
      with (len + Z.of_nat (List.length (c :: ds)))
      by (cbn [List.length]; lia).
    do 2 f_equal. ring.
Qed.

Lemma tokenize_decimal : forall ip fp,
  forallb is_digit ip = true -> forallb is_digit fp = true ->
  (ip ++ fp)%list <> [] ->
  Ast.tokenize (decimal_text ip fp) Ast.Idle
    = Ok [Ast.TFloat (decimal_value ip * 10 ^ Z.of_nat (List.length fp)
                      + decimal_value fp)
                     (Z.of_nat (List.length fp))].
Proof.
  intros ip fp Hip Hfp Hne. unfold decimal_text.
  destruct ip as [|c ip].
  - destruct fp as [|c fp]; [now elim Hne|].
    cbn [app]. change (Ast.tokenize (point :: c :: fp) Ast.Idle)
      with (Ast.tokenize (c :: fp) Ast.Dots1).
    cbn [forallb] in Hfp. apply andb_true_iff in Hfp. destruct Hfp as [Hc Hfp].
    cbn [Ast.tokenize]. rewrite Hc. rewrite (tokenize_frac_run fp _ _ Hfp).
    rewrite decimal_value_cons.
    replace (Z.of_nat (List.length (c :: fp)))
      with (1 + Z.of_nat (List.length fp)) by (cbn [List.length]; lia).
    do 3 f_equal; try (unfold decimal_value; cbn [fold_left]; ring).
  - cbn [forallb] in Hip. apply andb_true_iff in Hip. destruct Hip as [Hc Hip].
    cbn [app Ast.tokenize]. rewrite Hc.
    rewrite (tokenize_int_then ip _ _ _ _ _ Hip).
    change (Ast.tokenize (point :: fp) (Ast.IntRun ?n ?a ?b ?k))
      with (Ast.tokenize fp (Ast.FracRun n 0)).
    rewrite (tokenize_frac_run fp _ _ Hfp).
    rewrite decimal_value_cons.
    replace (0 + Z.of_nat (List.length fp)) with (Z.of_nat (List.length fp)) by lia.
    reflexivity.
Qed.

Lemma split_point_decimal : forall ip fp,
  forallb is_digit ip = true ->
  split_point (decimal_text ip fp) = (ip, Some fp).
Proof.
  unfold decimal_text. induction ip as [|c ip IH]; intros fp H; [reflexivity|].
  cbn [forallb] in H. apply andb_true_iff in H. destruct H as [Hc Hip].
  cbn [app split_point].
  destruct (digit_facts c Hc) as (_ & _ & _ & _ & -> & _).
  now rewrite (IH fp Hip).
Qed.

Lemma digits_value_opt_digits : forall ds,
  forallb is_digit ds = true -> digits_value_opt ds = Some (decimal_value ds).
Proof.
  intros [|c ds] H; [reflexivity|].
  unfold digits_value_opt. now apply digits_value_digits.
Qed.

Lemma count_digits_digits : forall ds,
  forallb is_digit ds = true -> count_digits ds = Z.of_nat (List.length ds).
Proof.
  intros ds H. unfold count_digits. f_equal. f_equal.
  induction ds as [|c ds IH]; [reflexivity|].
  cbn [forallb] in H. apply andb_true_iff in H. destruct H as [Hc Hds].
  cbn [filter]. rewrite Hc. now rewrite (IH Hds).
Qed.

Lemma py_float_decimal : forall ip fp,
  forallb is_digit ip = true -> forallb is_digit fp = true ->
  (ip ++ fp)%list <> [] ->
  let digits := decimal_value ip * 10 ^ Z.of_nat (List.length fp)
                + decimal_value fp in
  let scale := Z.of_nat (List.length fp) in
  py_float (string_of_list_ascii (decimal_text ip fp))
    = Ok (Float.of_decimal false digits scale) /\
  py_float (string_of_list_ascii (minus_sign :: decimal_text ip fp))
    = Ok (Float.of_decimal true digits scale).
Proof.
  intros ip fp Hip Hfp Hne digits scale. subst digits scale.
  assert (Hsp : forallb (fun c => negb (is_c_space c)) (decimal_text ip fp) = true).
  { unfold decimal_text. rewrite forallb_app. cbn [forallb].
    rewrite (digits_no_space ip Hip), (digits_no_space fp Hfp). reflexivity. }
  assert (Hbody : forall neg,
    (let '(i, f) := split_point (decimal_text ip fp) in
     let frac := match f with Some f => f | None => [] end in
     match i, frac with
     | [], [] => Raise ValueError
     | _, _ =>
         match digits_value_opt i, digits_value_opt frac with
         | Some iv, Some fv =>
             Ok (Float.of_decimal neg (iv * 10 ^ count_digits frac + fv)
                   (count_digits frac))
         | _, _ => Raise ValueError
         end
     end)
    = Ok (Float.of_decimal neg
            (decimal_value ip * 10 ^ Z.of_nat (List.length fp) + decimal_value fp)
            (Z.of_nat (List.length fp)))).
  { intros neg. rewrite (split_point_decimal ip fp Hip). cbv beta iota zeta.
    rewrite (digits_value_opt_digits ip Hip), (digits_value_opt_digits fp Hfp),
      (count_digits_digits fp Hfp).
    destruct ip as [|c ip]; [|reflexivity].
    destruct fp as [|c fp]; [now elim Hne | reflexivity]. }
  split.
  - unfold py_float. rewrite chars_of_list.
    rewrite strip_number_no_space; [| |exact Hsp].
    2: { unfold decimal_text. destruct ip; discriminate. }
    assert (Hhead : exists c l, decimal_text ip fp = c :: l /\
                      (code c =? 45) = false /\ (code c =? 43) = false).
    { unfold decimal_text. destruct ip as [|c ip].
      - exists point, fp. repeat split.
      - cbn [forallb] in Hip. apply andb_true_iff in Hip. destruct Hip as [Hc _].
        destruct (digit_facts c Hc) as (_ & _ & H45 & H43 & _).
        exists c, (ip ++ point :: fp)%list. auto. }
    destruct Hhead as (c & l & E & H45 & H43).
    specialize (Hbody false). rewrite E in Hbody |- *. rewrite H45, H43.
    exact Hbody.
  - unfold py_float. rewrite chars_of_list.
    rewrite strip_number_no_space; [|discriminate|].
    2: { cbn [forallb]. rewrite (proj1 (proj2 minus_facts)). exact Hsp. }
    replace (code minus_sign =? 45) with true by reflexivity.
    exact (Hbody true).
Qed.

(** X22: a field that is a decimal number with a point.  Digits, a point
    and digits, with at least one digit in all (["1.50"], ["7."], [".5"],
    ["007.5"]), are coerced to the float nearest to the number they
    denote, and to its opposite after a minus sign. *)
Theorem coerce_decimal_point : forall env ip fp,
  forallb is_digit ip = true ->
  forallb is_digit fp = true ->
  (0 < List.length (ip ++ fp))%nat ->
  let digits := decimal_value ip * 10 ^ Z.of_nat (List.length fp)
                + decimal_value fp in
  let scale := Z.of_nat (List.length fp) in
  Producer.coerce env (string_of_list_ascii (decimal_text ip fp))
    = Ok (VFloat (Float.of_decimal false digits scale)) /\
  Producer.coerce env (string_of_list_ascii (minus_sign :: decimal_text ip fp))
    = Ok (VFloat (Float.of_decimal true digits scale)).
Proof.
  intros env ip fp Hip Hfp Hlen digits scale.
  assert (Hne : (ip ++ fp)%list <> []).
  { destruct (ip ++ fp)%list; [cbn in Hlen; lia | discriminate]. }
  assert (Hall : forallb is_digit (ip ++ fp) = true)
    by (rewrite forallb_app, Hip, Hfp; reflexivity).
  assert (Hperm : forall (q : ascii -> bool), q point = true ->
            (forall c, is_digit c = true -> q c = true) ->
            forallb q (decimal_text ip fp) = true).
  { intros q Hq Hd. unfold decimal_text. rewrite forallb_app. cbn [forallb].
    rewrite Hq.
    assert (Hl : forall l, forallb is_digit l = true -> forallb q l = true).
    { intros l Hl. apply forallb_forall. intros x Hx.
      rewrite forallb_forall in Hl. auto. }
    now rewrite (Hl ip Hip), (Hl fp Hfp). }
  assert (Hnum : forallb Ast.is_numeric_char (decimal_text ip fp) = true).
  { apply Hperm; [reflexivity|]. intros c Hc. unfold Ast.is_numeric_char.
    now rewrite Hc. }
  assert (Hnum' : forallb Ast.is_numeric_char (minus_sign :: decimal_text ip fp)
                  = true).
  { change (Ast.is_numeric_char minus_sign
            && forallb Ast.is_numeric_char (decimal_text ip fp) = true).
    now rewrite Hnum. }
  assert (Hre : Producer.regex_search (string_of_list_ascii (decimal_text ip fp))
                = false /\
                Producer.regex_search
                  (string_of_list_ascii (minus_sign :: decimal_text ip fp))
                = false).
  { unfold Producer.regex_search. rewrite !chars_of_list.
    pose (f := fun c : ascii => existsb (Ascii.eqb c) (chars Producer.regex_class)).
    assert (A : existsb f ip = false) by exact (regex_search_digits ip Hip).
    assert (B : existsb f fp = false) by exact (regex_search_digits fp Hfp).
    assert (R : existsb f (decimal_text ip fp) = false).
    { unfold decimal_text. rewrite existsb_app.
      change (existsb f (point :: fp)) with (f point || existsb f fp).
      rewrite A, B. reflexivity. }
    split; [exact R|].
    change (f minus_sign || existsb f (decimal_text ip fp) = false).
    rewrite R. reflexivity. }
  destruct Hre as [R1 R2].
  assert (Hmc : Ast.minus_count (decimal_text ip fp) = 0).
  { unfold decimal_text. rewrite minus_count_app, minus_count_cons.
    rewrite (minus_count_digits ip Hip), (minus_count_digits fp Hfp).
    reflexivity. }
  assert (Hd1 : Ast.minus_count (decimal_text ip fp) <= Ast.safe_depth)
    by (rewrite Hmc; unfold Ast.safe_depth; lia).
  assert (Hd2 : Ast.minus_count (minus_sign :: decimal_text ip fp)
                <= Ast.safe_depth).
  { rewrite minus_count_cons, Hmc. unfold Ast.safe_depth.
    replace (code minus_sign =? 45) with true by reflexivity. lia. }
  destruct (py_float_decimal ip fp Hip Hfp Hne) as [F1 F2].
  fold digits scale in F1, F2.
  pose proof (tokenize_decimal ip fp Hip Hfp Hne) as T.
  fold digits scale in T.
  split.
  - unfold Producer.coerce. rewrite R1.
    rewrite (literal_eval_numeric env _ Hnum Hd1), T.
    cbn [bind Ast.parse Ast.parse_factor Ast.parse_rest List.length Ast.convert].
    rewrite F1. reflexivity.
  - unfold Producer.coerce. rewrite R2.
    rewrite (literal_eval_numeric env _ Hnum' Hd2).
    change (Ast.tokenize (minus_sign :: decimal_text ip fp) Ast.Idle)
      with (Ast.emit Ast.Idle
              (ts <- Ast.tokenize (decimal_text ip fp) Ast.Idle ;;
               Ok (Ast.TMinus :: ts))).
    rewrite T.
    cbn [bind Ast.emit Ast.flush app Ast.parse Ast.parse_factor Ast.parse_rest
         List.length Ast.convert Ast.convert_signed_num Ast.convert_num].
    rewrite F2. reflexivity.
Qed.

Lemma coerce_decimal_point_witness :
  Producer.coerce example_env "1.50"
    = Ok (VFloat (Float.of_decimal false 150 2)) /\
  Producer.coerce example_env "-1.50"
    = Ok (VFloat (Float.of_decimal true 150 2)).
Proof.
  apply (coerce_decimal_point example_env ["1"%char] ["5"%char; "0"%char]).
  - reflexivity.
  - reflexivity.
  - simpl. lia.
Defined.

(* ------------------------------------------------------------------ *)
(** ** The rewind of repeatLoop *)

Section RewindTheorems.

Variable env : Env.
Variable file : csv_file.

Lemma set_iter_set_iter : forall p g g',
  Producer.set_iter (Producer.set_iter p g) g' = Producer.set_iter p g'.
Proof. reflexivity. Qed.

Lemma next_started : forall p,
  Producer.iter_sensor_data p <> Producer.GenCreated ->
  exists g, snd (Producer.next_sensor_data env file p) = Producer.set_iter p g /\
            g <> Producer.GenCreated.
Proof.
  intros p Hp. unfold Producer.next_sensor_data.
  destruct (Producer.iter_sensor_data p) eqn:E; [now elim Hp| |].
  - unfold Producer.get_data_resume. destruct rows as [|row rows].
    + exists Producer.GenFinished. split; [reflexivity|discriminate].
    + destruct (Producer.get_data_line env names row).
      * exists (Producer.GenRunning names rows). split; [reflexivity|discriminate].
      * exists Producer.GenFinished. split; [reflexivity|discriminate].
  - exists Producer.GenFinished. split; [|discriminate].
    destruct p. cbn in *. now subst.
Qed.

Lemma next_n_started : forall n p g,
  g <> Producer.GenCreated ->
  exists g', snd (next_n env file n (Producer.set_iter p g))
             = Producer.set_iter p g' /\ g' <> Producer.GenCreated.
Proof.
  induction n as [|n IH]; intros p g Hg.
  - exists g. auto.
  - cbn [next_n].
    destruct (next_started (Producer.set_iter p g) Hg) as (g1 & E1 & Hg1).
    destruct (Producer.next_sensor_data env file (Producer.set_iter p g))
      as [r p1]. cbn [snd] in E1. subst p1. rewrite set_iter_set_iter.
    destruct (IH p g1 Hg1) as (g2 & E2 & Hg2).
    destruct (next_n env file n (Producer.set_iter p g1)) as [rs p2].
    cbn [snd] in *. eauto.
Qed.

Lemma next_first : forall p,
  Producer.iter_sensor_data p = Producer.GenCreated ->
  exists g, snd (Producer.next_sensor_data env file p)
            = Producer.set_iter (snd (Producer.get_data_start file p)) g /\
            g <> Producer.GenCreated.
Proof.
  intros p Hp. unfold Producer.next_sensor_data. rewrite Hp.
  destruct (Producer.get_data_start file p) as [[[names rows]|e] p1]; cbn [snd].
  - unfold Producer.get_data_resume. destruct rows as [|row rows].
    + exists Producer.GenFinished. split; [reflexivity|discriminate].
    + destruct (Producer.get_data_line env names row).
      * exists (Producer.GenRunning names rows). split; [reflexivity|discriminate].
      * exists Producer.GenFinished. split; [reflexivity|discriminate].
  - exists Producer.GenFinished. split; [reflexivity|discriminate].
Qed.

End RewindTheorems.

(** X23: the rewind replays the same records.  From a generator just
    created, let [n] calls of [next] give [outs]; when the generator is then
    created anew on the Producer they have left, as the rewind of
    repeatLoop does, the next [n] calls give [outs] again: the same records
    in the same order, or the same exceptions. *)
Theorem rewind_replays_the_same : forall env file n p outs q,
  distinct (Producer.reading_cols p) = true ->
  Producer.iter_sensor_data p = Producer.GenCreated ->
  next_n env file n p = (outs, q) ->
  fst (next_n env file n (Producer.set_iter q Producer.GenCreated)) = outs.
Proof.
  intros env file n p outs q Hd Hp H.
  destruct n as [|n].
  - cbn in H. inversion H; subst. reflexivity.
  - destruct (Producer.get_data_start file p) as [r p'] eqn:Es.
    pose proof (get_data_start_again file p r p' Hd Es) as Es'.
    destruct (get_data_start_others file p) as (_ & _ & Hit & _).
    rewrite Es in Hit. cbn [snd] in Hit. rewrite Hp in Hit.
    assert (Hq : Producer.set_iter q Producer.GenCreated = p').
    { cbn [next_n] in H.
      destruct (next_first env file p Hp) as (g & E1 & Hg).
      rewrite Es in E1. cbn [snd] in E1.
      destruct (Producer.next_sensor_data env file p) as [r1 p1].
      cbn [snd] in E1. subst p1.
      destruct (next_n_started env file n p' g Hg) as (g' & E2 & _).
      destruct (next_n env file n (Producer.set_iter p' g)) as [rs p2].
      cbn [snd] in E2. inversion H; subst.
      rewrite set_iter_set_iter. destruct p'. cbn in *. now subst. }
    rewrite Hq.
    assert (Hsame : Producer.next_sensor_data env file p'
                    = Producer.next_sensor_data env file p).
    { unfold Producer.next_sensor_data. now rewrite Hit, Hp, Es, Es'. }
    cbn [next_n]. rewrite Hsame. cbn [next_n] in H.
    destruct (Producer.next_sensor_data env file p) as [r1 p1].
    destruct (next_n env file n p1) as [rs p2].
    inversion H; subst. reflexivity.
Qed.

Lemma rewind_replays_the_same_witness :
  let out := next_n example_env spaced_file 5 replay_producer in
  fst (next_n example_env spaced_file 5
         (Producer.set_iter (snd out) Producer.GenCreated)) = fst out.
Proof.
  apply (rewind_replays_the_same example_env spaced_file 5 replay_producer).
  - reflexivity.
  - reflexivity.
  - vm_compute. reflexivity.
Defined.

(* ------------------------------------------------------------------ *)
(** ** The delays of timestamp replay over consecutive records *)

(** X25: the delays of timestamp replay over two consecutive records.  When
    the timestamp column of two records holds texts that parse,
    [get_time_stamp_diff] raises on neither; the first call stores the
    timestamp of the first record, so that the delay of the second record
    is the difference of the two parsed timestamps in seconds
    ([total_seconds], for a positive difference the quotient by 10^6
    rounded to the nearest float), and the second call stores the timestamp
    of the second record and changes nothing else of the Producer.  The
    delay of the first record is 0 when no timestamp was stored before it.
    When the second timestamp is not after the first, the wait of the pass
    does not block. *)
Theorem replay_delay_of_consecutive_records :
  forall env p r1 r2 text1 text2 t1 t2,
  dict_get r1 (timestampCol (Producer.self_handle p)) = Some (VStr text1) ->
  strptime env text1 (timestampFormat (Producer.self_handle p)) = Ok t1 ->
  dict_get r2 (timestampCol (Producer.self_handle p)) = Some (VStr text2) ->
  strptime env text2 (timestampFormat (Producer.self_handle p)) = Ok t2 ->
  exists c1 p1 c2 p2,
    Producer.get_time_stamp_diff env p r1 = (Ok c1, p1) /\
    Producer.get_time_stamp_diff env p1 r2 = (Ok c2, p2) /\
    (Producer.prv_readings_ts p = None -> c1 = S754_zero false) /\
    (forall prv, Producer.prv_readings_ts p = Some prv ->
       c1 = Producer.total_seconds (t1 - prv)) /\
    Producer.prv_readings_ts p1 = Some t1 /\
    c2 = Producer.total_seconds (t2 - t1) /\
    Producer.prv_readings_ts p2 = Some t2 /\
    p2 = Producer.set_prv_readings_ts p (Some t2) /\
    (t1 < t2 < t1 + 2 ^ 1000 ->
       Float.is_finite c2 = true /\
       (Qabs (Float.to_Q c2 - inject_Z (t2 - t1) / 1000000)
          <= inject_Z (t2 - t1) / 1000000 * pow2 (-53) + pow2 (-1075))%Q) /\
    (t2 <= t1 ->
       forall flag elapsed, nonnegative elapsed = true ->
       Threading.Event_wait flag (Float.sub c2 elapsed)
         = Ok Threading.Immediately).
Proof.
  intros env p r1 r2 text1 text2 t1 t2 Hg1 Hp1 Hg2 Hp2.
  destruct (get_time_stamp_diff_parsed env p r1 text1 t1 Hg1 Hp1)
    as (c1 & E1 & Hnone & Hsome & _).
  set (p1 := Producer.set_prv_readings_ts p (Some t1)) in *.
  destruct (get_time_stamp_diff_parsed env p1 r2 text2 t2 Hg2 Hp2)
    as (c2 & E2 & _ & Hdiff & Hval & Hwait).
  exists c1, p1, c2, (Producer.set_prv_readings_ts p1 (Some t2)).
  split; [exact E1|]. split; [exact E2|].
  split; [exact Hnone|]. split; [exact Hsome|].
  split; [reflexivity|].
  split; [apply Hdiff; reflexivity|].
  split; [reflexivity|]. split; [reflexivity|].
  split.
  - intros Hr. apply (Hval t1); [reflexivity | lia].
  - intros Hle flag elapsed He. apply Hwait; [exact He|].
    right. exists t1. split; [reflexivity | exact Hle].
Qed.

Lemma replay_delay_of_consecutive_records_witness :
  exists c1 p1 c2 p2,
    Producer.get_time_stamp_diff example_env
      (Producer.mk replay_handle (Float.of_decimal false 1 2)
         Producer.GenCreated [] None)
      [("ts", VStr "10:00:00"); ("v", VInt 1)] = (Ok c1, p1) /\
    Producer.get_time_stamp_diff example_env p1
      [("ts", VStr "10:00:30"); ("v", VInt 2)] = (Ok c2, p2) /\
    c1 = S754_zero false /\
    c2 = Producer.total_seconds 30000000 /\
    Float.to_Q c2 == 30 /\
    Producer.prv_readings_ts p2 = Some 36030000000.
Proof.
  destruct (replay_delay_of_consecutive_records example_env
              (Producer.mk replay_handle (Float.of_decimal false 1 2)
                 Producer.GenCreated [] None)
              [("ts", VStr "10:00:00"); ("v", VInt 1)]
              [("ts", VStr "10:00:30"); ("v", VInt 2)]
              "10:00:00" "10:00:30" 36000000000 36030000000
              eq_refl eq_refl eq_refl eq_refl)
    as (c1 & p1 & c2 & p2 & E1 & E2 & H0 & _ & _ & Hc2 & Hp2 & _).
  exists c1, p1, c2, p2.
  split; [exact E1|]. split; [exact E2|].
  split; [apply H0; reflexivity|].
  split; [exact Hc2|].
  split; [rewrite Hc2; vm_compute; reflexivity|].
  exact Hp2.
Defined.
